(** * build.py: building, tagging and pushing a docker image

    A shallow embedding of [build.py] and the properties of its
    configuration resolution, credential handling and build/push loop.

    The script is written for the Python 2 string model: [base64.b64decode]
    returns a [str] that is split on the one-character string [':'].
    Strings are modelled as [string]; [os.environ] and the build-argument
    dictionary as [gmap string string]; the tag set as [gset string]. *)

From Stdlib Require Import Ascii String.
From stdpp Require Import gmap strings list fin_maps.

Local Open Scope string_scope.
Local Open Scope list_scope.

#[local] Set Warnings "-clear-no-such-hyp".

(** ** Python built-ins used by the script *)

Module Py.

(** Truth value of a Python object: the empty string and the empty list
    are false. *)
Class Truthy (A : Type) := truthy : A → bool.

#[export] Instance truthy_str : Truthy string :=
  λ s, match s with EmptyString => false | String _ _ => true end.

#[export] Instance truthy_list {A} : Truthy (list A) :=
  λ l, match l with [] => false | _ :: _ => true end.

(** An optional value is [None] (false) or a value with its own truth. *)
#[export] Instance truthy_option {A} `{Truthy A} : Truthy (option A) :=
  λ o, match o with None => false | Some a => truthy a end.

(** [a or b] where [a] may be [None] and [b] is a string. *)
Definition or_str (a : option string) (b : string) : string :=
  match a with
  | Some s => if truthy s then s else b
  | None => b
  end.

(** [a or b] where both may be [None]. *)
Definition or_opt (a b : option string) : option string :=
  match a with
  | Some s => if truthy s then Some s else b
  | None => b
  end.

(** [s.startswith(p)] *)
Fixpoint startswith (s p : string) {struct p} : bool :=
  match p with
  | EmptyString => true
  | String c p' =>
      match s with
      | EmptyString => false
      | String d s' => if Ascii.eqb c d then startswith s' p' else false
      end
  end.

(** [s[n:]] *)
Fixpoint slice_from (n : nat) (s : string) : string :=
  match n with
  | O => s
  | S n' =>
      match s with
      | EmptyString => EmptyString
      | String _ s' => slice_from n' s'
      end
  end.

(** [s.replace(old, '')]: every non-overlapping occurrence of [old],
    found left to right, is removed.  [skip] counts the characters of
    the occurrence being removed that are still to be dropped. *)
Fixpoint remove_go (old : string) (skip : nat) (s : string) : string :=
  match s with
  | EmptyString => EmptyString
  | String c s' =>
      match skip with
      | S k => remove_go old k s'
      | O =>
          if startswith s old
          then remove_go old (String.length old - 1) s'
          else String c (remove_go old 0 s')
      end
  end.

Definition remove (old s : string) : string :=
  match old with
  | EmptyString => s
  | String _ _ => remove_go old 0 s
  end.

(** [s.split(sep)] for a one-character separator: the pieces between the
    occurrences of [sep]; always at least one piece. *)
Fixpoint split (sep : ascii) (s : string) : list string :=
  match s with
  | EmptyString => [EmptyString]
  | String c s' =>
      if Ascii.eqb c sep then EmptyString :: split sep s'
      else match split sep s' with
           | [] => [String c EmptyString]
           | p :: ps => String c p :: ps
           end
  end.

(** Number of occurrences of a character. *)
Fixpoint count (sep : ascii) (s : string) : nat :=
  match s with
  | EmptyString => 0
  | String c s' => (if Ascii.eqb c sep then 1 else 0) + count sep s'
  end.

(** [s.upper()] on ASCII letters. *)
Definition upper_char (c : ascii) : ascii :=
  let n := nat_of_ascii c in
  if ((97 <=? n)%nat && (n <=? 122)%nat)%bool then ascii_of_nat (n - 32) else c.

Fixpoint upper (s : string) : string :=
  match s with
  | EmptyString => EmptyString
  | String c s' => String (upper_char c) (upper s')
  end.

(** [d.get(k, default)] *)
Definition get_default (d : gmap string string) (k dflt : string) : string :=
  default dflt (d !! k).

End Py.

Import Py.

(** ** The namespace returned by [parser.parse_args()] *)

Module args.

(** One field per [dest] of the parser.  An option that was not given
    and has no default is [None]; [--no-env] stores [False] in [env],
    which is [None] here. *)
Record t := mk {
  env : option string;
  path : string;
  tags : option (list string);
  will_add_latest : bool;
  repository : option string;
  registry : option string;
  will_push : bool;
  will_login : bool;
  login_user : option string;
  login_password : option string;
  is_amazon_mode : bool;
  amazon_region : option string;
  amazon_registry_ids : option (list string);
  level : string;
  silent : bool
}.

(** The parser's defaults: what an empty command line gives. *)
Definition defaults : t :=
  {| env := Some ".env"; path := "."; tags := None;
     will_add_latest := false; repository := None; registry := None;
     will_push := false; will_login := true;
     login_user := None; login_password := None;
     is_amazon_mode := false; amazon_region := None;
     amazon_registry_ids := None; level := "INFO"; silent := false |}.

Definition with_registry (r : option string) (a : t) : t :=
  {| env := env a; path := path a; tags := tags a;
     will_add_latest := will_add_latest a; repository := repository a;
     registry := r;
     will_push := will_push a; will_login := will_login a;
     login_user := login_user a; login_password := login_password a;
     is_amazon_mode := is_amazon_mode a; amazon_region := amazon_region a;
     amazon_registry_ids := amazon_registry_ids a;
     level := level a; silent := silent a |}.

Definition with_will_login (b : bool) (a : t) : t :=
  {| env := env a; path := path a; tags := tags a;
     will_add_latest := will_add_latest a; repository := repository a;
     registry := registry a;
     will_push := will_push a; will_login := b;
     login_user := login_user a; login_password := login_password a;
     is_amazon_mode := is_amazon_mode a; amazon_region := amazon_region a;
     amazon_registry_ids := amazon_registry_ids a;
     level := level a; silent := silent a |}.

Definition with_tags (l : option (list string)) (a : t) : t :=
  {| env := env a; path := path a; tags := l;
     will_add_latest := will_add_latest a; repository := repository a;
     registry := registry a;
     will_push := will_push a; will_login := will_login a;
     login_user := login_user a; login_password := login_password a;
     is_amazon_mode := is_amazon_mode a; amazon_region := amazon_region a;
     amazon_registry_ids := amazon_registry_ids a;
     level := level a; silent := silent a |}.

Definition with_will_add_latest (b : bool) (a : t) : t :=
  {| env := env a; path := path a; tags := tags a;
     will_add_latest := b; repository := repository a;
     registry := registry a;
     will_push := will_push a; will_login := will_login a;
     login_user := login_user a; login_password := login_password a;
     is_amazon_mode := is_amazon_mode a; amazon_region := amazon_region a;
     amazon_registry_ids := amazon_registry_ids a;
     level := level a; silent := silent a |}.

Definition with_repository (r : option string) (a : t) : t :=
  {| env := env a; path := path a; tags := tags a;
     will_add_latest := will_add_latest a; repository := r;
     registry := registry a;
     will_push := will_push a; will_login := will_login a;
     login_user := login_user a; login_password := login_password a;
     is_amazon_mode := is_amazon_mode a; amazon_region := amazon_region a;
     amazon_registry_ids := amazon_registry_ids a;
     level := level a; silent := silent a |}.

Definition with_level (l : string) (a : t) : t :=
  {| env := env a; path := path a; tags := tags a;
     will_add_latest := will_add_latest a; repository := repository a;
     registry := registry a;
     will_push := will_push a; will_login := will_login a;
     login_user := login_user a; login_password := login_password a;
     is_amazon_mode := is_amazon_mode a; amazon_region := amazon_region a;
     amazon_registry_ids := amazon_registry_ids a;
     level := l; silent := silent a |}.

End args.

(** ** Configuration resolved from the flags and [os.environ] *)

(** [repo = args.repository or os.environ.get('BUILD_REPOSITORY', '')] *)
Definition resolve_repo (a : args.t) (environ : gmap string string) : string :=
  or_str (args.repository a) (get_default environ "BUILD_REPOSITORY" "").

(** [tags = set(args.tags or {os.environ.get('BUILD_TAG', 'latest')})]
    followed by [if args.will_add_latest: tags.add('latest')]. *)
Definition resolve_tags (a : args.t) (environ : gmap string string) : gset string :=
  let from_env : gset string := {[ get_default environ "BUILD_TAG" "latest" ]} in
  let tags : gset string :=
    match args.tags a with
    | Some l => if truthy l then list_to_set l else from_env
    | None => from_env
    end in
  if args.will_add_latest a then tags ∪ {[ "latest" ]} else tags.

(** [{k[10:]: v for k, v in os.environ.items() if k.startswith('BUILD_ARG_')}]:
    the items are visited in the dictionary's order and each match is
    stored under its shortened key. *)
Definition build_args_step (d : gmap string string) (kv : string * string)
  : gmap string string :=
  if startswith kv.1 "BUILD_ARG_" then <[ slice_from 10 kv.1 := kv.2 ]> d else d.

Definition resolve_build_args (environ : gmap string string) : gmap string string :=
  foldl build_args_step ∅ (map_to_list environ).

(** [registry = args.registry or os.environ.get('BUILD_REGISTRY', '')]
    (vanilla mode only) *)
Definition resolve_registry (a : args.t) (environ : gmap string string) : string :=
  or_str (args.registry a) (get_default environ "BUILD_REGISTRY" "").

(** [user = args.login_user or os.environ.get('BUILD_USER')] *)
Definition resolve_user (a : args.t) (environ : gmap string string) : option string :=
  or_opt (args.login_user a) (environ !! "BUILD_USER").

(** [pswd = args.login_password or os.environ.get('BUILD_PASSWORD')] *)
Definition resolve_pswd (a : args.t) (environ : gmap string string) : option string :=
  or_opt (args.login_password a) (environ !! "BUILD_PASSWORD").

(** [region_name=args.amazon_region]: the value handed to [boto3.client]. *)
Definition region_name (a : args.t) : option string := args.amazon_region a.

(** ['{}/{}:{}'.format(registry, repo, tag)] *)
Definition image_ref (registry repo tag : string) : string :=
  registry +:+ "/" +:+ repo +:+ ":" +:+ tag.

(** ['{}/{}'.format(registry, repo)] *)
Definition image_repo (registry repo : string) : string :=
  registry +:+ "/" +:+ repo.

(** ** External collaborators and the trace of calls made to them *)

Inductive level := Info | Debug.

(** One entry of the [authorizationData] list of an ECR response. *)
Record auth_entry := mk_auth {
  proxyEndpoint : string;
  authorizationToken : string
}.

Record response := mk_response { authorizationData : list auth_entry }.

(** The records handed to the logger, one constructor per call site. *)
Inductive message :=
| MLoadingEnv (env : string)
| MBuilding (t : string)
| MCompletedBuild
| MAttemptPush (registry : string)
| MLine (line : string)
| MPushed
| MAmazonMode
| MGetToken
| MResponse (r : response)
| MAttemptLogin (registry : string) (user : option string)
| MLoggedIn
| MLoginResponse (r : string)
| MFinished.

(** A call the script makes, with its arguments, in the order of the
    source: dotenv, docker, boto3 and the logger. *)
Inductive event :=
| EvFindDotenv (filename : string)
| EvLoadDotenv (dotenv_path : string)
| EvDockerFromEnv
| EvBoto3Client (region_name : option string)
| EvGetAuthorizationToken (registryIds : option (list string))
| EvLogin (user pswd : option string) (registry : string)
| EvBuild (path tag : string) (rm pull : bool) (buildargs : gmap string string)
| EvPush (repository tag : string) (stream : bool)
| EvLog (lvl : level) (m : message).

Inductive exn :=
| LookupError          (* logbook.lookup_level: unknown level name *)
| TypeError            (* base64.b64decode: undecodable input *)
| ValueError           (* user, pswd = ...: not exactly two pieces *)
| ExternalError (who : string).

Inductive outcome (A : Type) :=
| Ok (a : A)
| Raise (e : exn).
Arguments Ok {A} a.
Arguments Raise {A} e.

(** What the collaborators answer.  An answer may depend on every call
    made before it (the history), so a collaborator can keep state of its
    own.  [images_push] is a stream: the records it yields, then possibly
    an error.

    One value of this record stands for the collaborators of one run, as
    they are in the environment of that run: [docker.from_env] and boto3
    configure themselves from variables of [os.environ] ([DOCKER_HOST],
    [AWS_ACCESS_KEY_ID], [AWS_SECRET_ACCESS_KEY], ...) that the script
    never reads itself, and only [load_dotenv] is handed the environment
    by the script.  A property that compares runs in different
    environments therefore takes one record per run. *)
Record Externals := {
  lookup_level : string → option nat;
  b64decode : string → option string;
  find_dotenv : list event → string → outcome string;
  load_dotenv :
    list event → string → gmap string string → outcome (gmap string string);
  docker_from_env : list event → outcome unit;
  boto3_client : list event → option string → outcome unit;
  get_authorization_token :
    list event → option (list string) → outcome response;
  docker_login :
    list event → option string → option string → string → outcome string;
  images_build :
    list event → string → string → bool → bool → gmap string string →
    outcome unit;
  images_push :
    list event → string → string → bool → list string * option exn
}.

(** ** The script as a state-and-exception computation *)

Record state := mk_state {
  environ : gmap string string;
  trace : list event
}.

Definition M (A : Type) : Type := state → outcome A * state.

Definition ret {A} (a : A) : M A := λ st, (Ok a, st).

Definition raise {A} (e : exn) : M A := λ st, (Raise e, st).

Definition bind {A B} (m : M A) (k : A → M B) : M B :=
  λ st, match m st with
        | (Ok a, st') => k a st'
        | (Raise e, st') => (Raise e, st')
        end.

Notation "'let*' x ':=' c 'in' k" := (bind c (λ x, k))
  (at level 10, x name, c at level 100, k at level 200).
Notation "c >> k" := (bind c (λ _, k))
  (at level 100, k at level 200, right associativity).

Definition emit (e : event) : M unit :=
  λ st, (Ok tt, {| environ := environ st; trace := trace st ++ [e] |}).

(** A call to a collaborator: it is recorded, then answered from the
    history before it. *)
Definition call {A} (e : event) (answer : list event → outcome A) : M A :=
  λ st, (answer (trace st),
         {| environ := environ st; trace := trace st ++ [e] |}).

Definition log (lvl : level) (m : message) : M unit := emit (EvLog lvl m).

Definition get_environ : M (gmap string string) := λ st, (Ok (environ st), st).

Definition set_environ (e : gmap string string) : M unit :=
  λ st, (Ok tt, {| environ := e; trace := trace st |}).

(** [for x in l: body(x)] *)
Fixpoint for_each {A} (l : list A) (body : A → M unit) : M unit :=
  match l with
  | [] => ret tt
  | x :: l' => body x >> for_each l' body
  end.

Section Script.

Variable ext : Externals.

(** [for line in docker_client.images.push(..., stream=True): log.debug(line)] *)
Definition push_stream (repository tag : string) : M unit :=
  let* stream :=
    call (EvPush repository tag true)
         (λ h, Ok (images_push ext h repository tag true)) in
  for_each stream.1 (λ line, log Debug (MLine line)) >>
  match stream.2 with
  | None => ret tt
  | Some e => raise e
  end.

(** The body of the loop of [_build]. *)
Definition build_tag (path registry repo : string) (will_push : bool)
    (build_args : gmap string string) (tag : string) : M unit :=
  let t := image_ref registry repo tag in
  log Info (MBuilding t) >>
  call (EvBuild path t true true build_args)
       (λ h, images_build ext h path t true true build_args) >>
  log Info MCompletedBuild >>
  if will_push then
    log Info (MAttemptPush registry) >>
    push_stream (image_repo registry repo) tag >>
    log Info MPushed
  else ret tt.

(** [_build(docker_client, path, registry, repo, tags, will_push)];
    [build_args] is the module-level variable the function reads.  The
    set is visited in the order of [elements], which stands for the
    unspecified iteration order of a Python set. *)
Definition _build (path registry repo : string) (tags : gset string)
    (will_push : bool) (build_args : gmap string string) : M unit :=
  for_each (elements tags) (build_tag path registry repo will_push build_args).

(** Lines 168-171: the log handler. *)
Definition setup_logging (a : args.t) : M unit :=
  if args.silent a then ret tt
  else match lookup_level ext (upper (args.level a)) with
       | Some _ => ret tt
       | None => raise LookupError
       end.

(** Lines 175-178: the variable file. *)
Definition load_environment (a : args.t) : M unit :=
  match args.env a with
  | Some name =>
      if truthy name then
        let* env := call (EvFindDotenv name) (λ h, find_dotenv ext h name) in
        log Info (MLoadingEnv env) >>
        let* environ := get_environ in
        let* environ' :=
          call (EvLoadDotenv env) (λ h, load_dotenv ext h env environ) in
        set_environ environ'
      else ret tt
  | None => ret tt
  end.

(** The body of the loop over [response['authorizationData']]. *)
Definition amazon_cycle (a : args.t) (path repo : string)
    (tags : gset string) (build_args : gmap string string)
    (auth : auth_entry) : M unit :=
  let registry := remove "https://" (proxyEndpoint auth) in
  match b64decode ext (authorizationToken auth) with
  | None => raise TypeError
  | Some creds =>
      match split ":" creds with
      | [user; pswd] =>
          call (EvLogin (Some user) (Some pswd) registry)
               (λ h, docker_login ext h (Some user) (Some pswd) registry) >>
          _build path registry repo tags (args.will_push a) build_args
      | _ => raise ValueError
      end
  end.

(** [registryIds] is passed only when the list is given and not empty. *)
Definition registry_ids_argument (a : args.t) : option (list string) :=
  if truthy (args.amazon_registry_ids a) then args.amazon_registry_ids a
  else None.

(** Lines 190-204. *)
Definition amazon_mode (a : args.t) (path repo : string)
    (tags : gset string) (build_args : gmap string string) : M unit :=
  log Info MAmazonMode >>
  log Info MGetToken >>
  call (EvBoto3Client (region_name a))
       (λ h, boto3_client ext h (region_name a)) >>
  let* response :=
    call (EvGetAuthorizationToken (registry_ids_argument a))
         (λ h, get_authorization_token ext h (registry_ids_argument a)) in
  log Debug (MResponse response) >>
  for_each (authorizationData response)
           (amazon_cycle a path repo tags build_args).

(** Lines 206-214. *)
Definition vanilla_mode (a : args.t) (path repo : string)
    (tags : gset string) (build_args : gmap string string) : M unit :=
  let* environ := get_environ in
  let registry := resolve_registry a environ in
  (if args.will_login a then
     let user := resolve_user a environ in
     let pswd := resolve_pswd a environ in
     log Info (MAttemptLogin registry user) >>
     let* login_response :=
       call (EvLogin user pswd registry)
            (λ h, docker_login ext h user pswd registry) in
     log Info MLoggedIn >>
     log Debug (MLoginResponse login_response)
   else ret tt) >>
  _build path registry repo tags (args.will_push a) build_args.

(** Lines 180-216: everything after the variable file. *)
Definition run_build (a : args.t) : M unit :=
  call EvDockerFromEnv (docker_from_env ext) >>
  let* environ := get_environ in
  let repo := resolve_repo a environ in
  let tags := resolve_tags a environ in
  let build_args := resolve_build_args environ in
  let path := args.path a in
  (if args.is_amazon_mode a
   then amazon_mode a path repo tags build_args
   else vanilla_mode a path repo tags build_args) >>
  log Info MFinished.

(** The [__main__] block after [parse_args]. *)
Definition main (a : args.t) : M unit :=
  setup_logging a >>
  load_environment a >>
  run_build a.

End Script.

(** ** A concrete set of collaborators, for running the script

    No variable file exists anywhere, so [find_dotenv] returns the empty
    path and [load_dotenv] of it changes nothing; the docker engine
    accepts every call and a push streams two records; ECR answers with a
    fixed response; [b64decode] decodes the standard base64 alphabet. *)

Module Demo.

Definition b64_value (c : ascii) : option N :=
  let n := N_of_ascii c in
  if ((65 <=? n) && (n <=? 90))%N then Some (n - 65)%N
  else if ((97 <=? n) && (n <=? 122))%N then Some (n - 71)%N
  else if ((48 <=? n) && (n <=? 57))%N then Some (n + 4)%N
  else if (n =? 43)%N then Some 62%N
  else if (n =? 47)%N then Some 63%N
  else None.

Definition is_pad (c : ascii) : bool := Ascii.eqb c "=".

Definition byte_of (n : N) : ascii := ascii_of_N (n mod 256).

Fixpoint standard_b64decode (s : string) : option string :=
  match s with
  | EmptyString => Some EmptyString
  | String a (String b (String c (String d rest))) =>
      match b64_value a, b64_value b with
      | Some x, Some y =>
          let b1 := byte_of (x * 4 + y / 16) in
          if is_pad c then
            if is_pad d && negb (truthy rest)
            then Some (String b1 EmptyString) else None
          else
            match b64_value c with
            | Some z =>
                let b2 := byte_of (y * 16 + z / 4) in
                if is_pad d then
                  if truthy rest then None
                  else Some (String b1 (String b2 EmptyString))
                else
                  match b64_value d, standard_b64decode rest with
                  | Some w, Some tail =>
                      let b3 := byte_of (z * 64 + w) in
                      Some (String b1 (String b2 (String b3 tail)))
                  | _, _ => None
                  end
            | None => None
            end
      | _, _ => None
      end
  | _ => None
  end.

Definition known_level (name : string) : option nat :=
  if String.eqb name "CRITICAL" then Some 15
  else if String.eqb name "ERROR" then Some 14
  else if String.eqb name "WARNING" then Some 13
  else if String.eqb name "NOTICE" then Some 12
  else if String.eqb name "INFO" then Some 11
  else if String.eqb name "DEBUG" then Some 10
  else if String.eqb name "NOTSET" then Some 0
  else None.

Definition ext (resp : response) : Externals :=
  {| lookup_level := known_level;
     b64decode := standard_b64decode;
     find_dotenv := λ _ _, Ok "";
     load_dotenv := λ _ _ environ, Ok environ;
     docker_from_env := λ _, Ok tt;
     boto3_client := λ _ _, Ok tt;
     get_authorization_token := λ _ _, Ok resp;
     docker_login := λ _ _ _ _, Ok "Login Succeeded";
     images_build := λ _ _ _ _ _ _, Ok tt;
     images_push := λ _ _ _ _, (["Preparing"; "Pushed"], None) |}.

(** "AWS:secret" and "nocolon" in base64. *)
Definition good_entry : auth_entry :=
  {| proxyEndpoint := "https://111.dkr.ecr.us-east-1.amazonaws.com";
     authorizationToken := "QVdTOnNlY3JldA==" |}.

Definition second_entry : auth_entry :=
  {| proxyEndpoint := "https://222.dkr.ecr.us-east-1.amazonaws.com";
     authorizationToken := "QVdTOnNlY3JldA==" |}.

Definition bad_entry : auth_entry :=
  {| proxyEndpoint := "https://222.dkr.ecr.us-east-1.amazonaws.com";
     authorizationToken := "bm9jb2xvbg==" |}.

Definition start : state := {| environ := ∅; trace := [] |}.

(** [--aws --push -r statsd --amazon-registry-ids 111 222] *)
Definition amazon_args : args.t :=
  {| args.env := Some ".env"; args.path := "."; args.tags := None;
     args.will_add_latest := false; args.repository := Some "statsd";
     args.registry := None; args.will_push := true;
     args.will_login := true; args.login_user := None;
     args.login_password := None; args.is_amazon_mode := true;
     args.amazon_region := None;
     args.amazon_registry_ids := Some ["111"; "222"];
     args.level := "INFO"; args.silent := false |}.

(** [--aws --push --amazon-registry-ids 111 222]: no repository. *)
Definition amazon_unnamed_args : args.t :=
  args.with_repository None amazon_args.

(** The collaborators of [ext] as they are in the environment [env] of a
    run: boto3 takes the AWS credentials from it, and cannot ask for a
    token without them. *)
Definition configured (env : gmap string string) (resp : response)
  : Externals :=
  {| lookup_level := known_level;
     b64decode := standard_b64decode;
     find_dotenv := λ _ _, Ok "";
     load_dotenv := λ _ _ environ, Ok environ;
     docker_from_env := λ _, Ok tt;
     boto3_client := λ _ _, Ok tt;
     get_authorization_token := λ _ _,
       match env !! "AWS_ACCESS_KEY_ID", env !! "AWS_SECRET_ACCESS_KEY" with
       | Some _, Some _ => Ok resp
       | _, _ => Raise (ExternalError "NoCredentialsError")
       end;
     docker_login := λ _ _ _ _, Ok "Login Succeeded";
     images_build := λ _ _ _ _ _ _, Ok tt;
     images_push := λ _ _ _ _, (["Preparing"; "Pushed"], None) |}.

(** An environment that holds AWS credentials. *)
Definition aws_environ : gmap string string :=
  {[ "AWS_ACCESS_KEY_ID" := "AKIAEXAMPLE";
     "AWS_SECRET_ACCESS_KEY" := "hunter2" ]}.

End Demo.

(** ** Vocabulary of the properties *)

(** The precedence rule in the words of the specification: the flag if
    it is present, otherwise the environment variable if it is set,
    otherwise the default. *)
Definition precedence {A} (flag env_value : option A) (dflt : A) : A :=
  match flag with
  | Some v => v
  | None => match env_value with
            | Some v => v
            | None => dflt
            end
  end.

(** The same rule for a field whose default is [None]. *)
Definition precedence_opt {A} (flag env_value : option A) : option A :=
  match flag with
  | Some v => Some v
  | None => env_value
  end.

(** A flag given as the empty string (or the empty list) counts as not
    given. *)
Definition given {A} `{Truthy A} (flag : option A) : option A :=
  match flag with
  | Some v => if truthy v then Some v else None
  | None => None
  end.

(** The tag set in the words of the specification. *)
Definition reference_tags (a : args.t) (environ : gmap string string)
  : gset string :=
  let supplied : gset string :=
    match args.tags a with
    | Some (t :: ts) => list_to_set (t :: ts)
    | _ => match environ !! "BUILD_TAG" with
           | Some v => {[ v ]}
           | None => {[ "latest" ]}
           end
    end in
  if args.will_add_latest a then {[ "latest" ]} ∪ supplied else supplied.

(** The calls to collaborators in a trace: everything but the log
    records. *)
Definition is_call (e : event) : bool :=
  match e with
  | EvLog _ _ => false
  | _ => true
  end.

Definition calls (tr : list event) : list event := List.filter is_call tr.

(** Authorization, login, build and push operations. *)
Definition is_operation (e : event) : bool :=
  match e with
  | EvGetAuthorizationToken _ | EvLogin _ _ _
  | EvBuild _ _ _ _ _ | EvPush _ _ _ => true
  | _ => false
  end.

(** The engine calls one tag gives rise to. *)
Definition tag_calls (path registry repo : string) (will_push : bool)
    (build_args : gmap string string) (tag : string) : list event :=
  EvBuild path (image_ref registry repo tag) true true build_args ::
  (if will_push then [EvPush (image_repo registry repo) tag true] else []).

(** The username and password carried by an authorization entry, when
    its token decodes to exactly two pieces. *)
Definition credentials (ext : Externals) (auth : auth_entry)
  : option (string * string) :=
  match b64decode ext (authorizationToken auth) with
  | Some creds =>
      match split ":" creds with
      | [user; pswd] => Some (user, pswd)
      | _ => None
      end
  | None => None
  end.

(** A token is malformed when it cannot be decoded or when the decoded
    string does not hold exactly one [':']. *)
Definition malformed (ext : Externals) (auth : auth_entry) : Prop :=
  match b64decode ext (authorizationToken auth) with
  | Some creds => count ":" creds ≠ 1
  | None => True
  end.

(** The error a malformed entry raises. *)
Definition malformed_error (ext : Externals) (auth : auth_entry) : exn :=
  match b64decode ext (authorizationToken auth) with
  | Some _ => ValueError
  | None => TypeError
  end.

(** One login followed by the engine calls of every tag. *)
Definition cycle_calls (ext : Externals) (path repo : string)
    (tags : gset string) (will_push : bool)
    (build_args : gmap string string) (auth : auth_entry) : list event :=
  let registry := remove "https://" (proxyEndpoint auth) in
  match credentials ext auth with
  | Some (user, pswd) =>
      EvLogin (Some user) (Some pswd) registry ::
      flat_map (tag_calls path registry repo will_push build_args)
               (elements tags)
  | None => []
  end.

(** Every record a push streams is logged at debug level right after the
    push, in the order it was streamed.  [h] is the history before
    [new]. *)
Definition pushes_forwarded (ext : Externals) (h new : list event) : Prop :=
  ∀ (before : list event) repository tag stream (after : list event),
    new = before ++ EvPush repository tag stream :: after →
    ∃ rest : list event,
      after =
        (map (λ line, EvLog Debug (MLine line))
             (images_push ext (h ++ before) repository tag stream).1
         ++ rest).

(** The docker engine accepts every build and every push. *)
Definition engine_ok (ext : Externals) : Prop :=
  (∀ h path tag rm pull buildargs,
      images_build ext h path tag rm pull buildargs = Ok tt) ∧
  (∀ h repository tag stream,
      (images_push ext h repository tag stream).2 = None).

(** No collaborator raises, and every authorization entry carries
    well-formed credentials. *)
Definition collaborators_ok (ext : Externals) : Prop :=
  engine_ok ext ∧
  (∀ h name, ∃ p, find_dotenv ext h name = Ok p) ∧
  (∀ h p environ, ∃ environ', load_dotenv ext h p environ = Ok environ') ∧
  (∀ h, docker_from_env ext h = Ok tt) ∧
  (∀ h user pswd registry, ∃ r, docker_login ext h user pswd registry = Ok r) ∧
  (∀ h region, boto3_client ext h region = Ok tt) ∧
  (∀ h ids, ∃ resp,
      get_authorization_token ext h ids = Ok resp ∧
      Forall (λ auth, is_Some (credentials ext auth))
             (authorizationData resp)).

(** The precedence rule applied to every field, as the specification
    words it: the flag as it was given, then the variable, then the
    default.  The tag field is compared before [--latest] is applied. *)
Definition flags_take_precedence (a : args.t) (environ : gmap string string)
  : Prop :=
  resolve_repo a environ =
    precedence (args.repository a) (environ !! "BUILD_REPOSITORY") "" ∧
  (args.will_add_latest a = false →
   resolve_tags a environ =
     precedence (list_to_set <$> args.tags a)
                (singleton <$> environ !! "BUILD_TAG") {[ "latest" ]}) ∧
  resolve_registry a environ =
    precedence (args.registry a) (environ !! "BUILD_REGISTRY") "" ∧
  resolve_user a environ =
    precedence_opt (args.login_user a) (environ !! "BUILD_USER") ∧
  resolve_pswd a environ =
    precedence_opt (args.login_password a) (environ !! "BUILD_PASSWORD") ∧
  region_name a =
    precedence_opt (args.amazon_region a) (environ !! "BUILD_AMAZON_REGION").

(** [-r ''] on the command line, with the repository and the region set
    in the environment. *)
Definition empty_repository_flag : args.t :=
  args.with_repository (Some "") args.defaults.

Definition environ_with_repository : gmap string string :=
  {[ "BUILD_REPOSITORY" := "statsd"; "BUILD_AMAZON_REGION" := "us-east-1" ]}.


(** The state after the events [new] were appended to the trace. *)
Definition extend (st : state) (new : list event) : state :=
  {| environ := environ st; trace := trace st ++ new |}.

(** The log record of a streamed push line. *)
Definition debug_line (line : string) : event := EvLog Debug (MLine line).

Definition is_push (e : event) : bool :=
  match e with
  | EvPush _ _ _ => true
  | _ => false
  end.

Definition is_authorization (e : event) : bool :=
  match e with
  | EvGetAuthorizationToken _ => true
  | _ => false
  end.

Definition is_build (e : event) : bool :=
  match e with
  | EvBuild _ _ _ _ _ => true
  | _ => false
  end.

(** No build in a trace. *)
Definition no_build (tr : list event) : bool :=
  forallb (λ e, negb (is_build e)) tr.

(** The log handler can be set up: silent mode, or a known level name. *)
Definition logging_ok (ext : Externals) (a : args.t) : Prop :=
  args.silent a = true ∨ is_Some (lookup_level ext (upper (args.level a))).

(** The authorization calls of a trace. *)
Definition authorization_calls (tr : list event) : list event :=
  List.filter is_authorization tr.

(** No authorization, login, build or push in a trace. *)
Definition no_operation (tr : list event) : bool :=
  forallb (λ e, negb (is_operation e)) tr.

(** ** Collaborators that fail, for running the error paths *)

Module Faulty.

(** The collaborators of [Demo], except that the engine refuses to build
    the references [refused] accepts, a push ends in [push_error] after
    its first record, and logins are rejected unless [login_ok]. *)
Definition ext (resp : response) (refused : string → bool)
    (push_error : option exn) (login_ok : bool) : Externals :=
  {| lookup_level := Demo.known_level;
     b64decode := Demo.standard_b64decode;
     find_dotenv := λ _ _, Ok "";
     load_dotenv := λ _ _ environ, Ok environ;
     docker_from_env := λ _, Ok tt;
     boto3_client := λ _ _, Ok tt;
     get_authorization_token := λ _ _, Ok resp;
     docker_login := λ _ _ _ _,
       if login_ok then Ok "Login Succeeded"
       else Raise (ExternalError "unauthorized");
     images_build := λ _ _ tag _ _ _,
       if refused tag then Raise (ExternalError "build failed") else Ok tt;
     images_push := λ _ _ _ _, (["Preparing"], push_error) |}.

(** [--push -g registry.example.org -r statsd -t v1] *)
Definition push_args : args.t :=
  {| args.env := None; args.path := "."; args.tags := Some ["v1"];
     args.will_add_latest := false; args.repository := Some "statsd";
     args.registry := Some "registry.example.org"; args.will_push := true;
     args.will_login := true; args.login_user := Some "me";
     args.login_password := Some "secret"; args.is_amazon_mode := false;
     args.amazon_region := None; args.amazon_registry_ids := None;
     args.level := "INFO"; args.silent := false |}.

(** [--silent --no-env] *)
Definition silent_args : args.t :=
  {| args.env := None; args.path := "."; args.tags := None;
     args.will_add_latest := false; args.repository := None;
     args.registry := None; args.will_push := false;
     args.will_login := true; args.login_user := None;
     args.login_password := None; args.is_amazon_mode := false;
     args.amazon_region := None; args.amazon_registry_ids := None;
     args.level := "INFO"; args.silent := true |}.

End Faulty.

(** ** Vocabulary of the run as a whole, for every outcome *)

(** [sep.join(pieces)] for a one-character separator. *)
Fixpoint join (sep : ascii) (pieces : list string) : string :=
  match pieces with
  | [] => EmptyString
  | [p] => p
  | p :: ps => p +:+ String sep (join sep ps)
  end.

(** [old] occurs in [s]. *)
Definition occurs (old s : string) : Prop :=
  ∃ before after, s = before +:+ old +:+ after.

(** Run from a state whose environment is [env], [m] makes the calls of
    [expected], in that order and no other: all of them when it returns,
    the first few when it raises.  It leaves the environment as it is. *)
Definition follows {A} (env : gmap string string) (m : M A)
    (expected : list event) : Prop :=
  ∀ st r st',
    environ st = env → m st = (r, st') →
    ∃ new,
      st' = extend st new ∧
      calls new `prefix_of` expected ∧
      (∀ x, r = Ok x → calls new = expected).

(** The login of vanilla mode. *)
Definition login_calls (a : args.t) (env : gmap string string) : list event :=
  if args.will_login a
  then [EvLogin (resolve_user a env) (resolve_pswd a env)
                (resolve_registry a env)]
  else [].

(** The calls of a whole vanilla run after the variable file. *)
Definition vanilla_calls (a : args.t) (env : gmap string string)
  : list event :=
  EvDockerFromEnv ::
  login_calls a env ++
  flat_map (tag_calls (args.path a) (resolve_registry a env)
                      (resolve_repo a env) (args.will_push a)
                      (resolve_build_args env))
           (elements (resolve_tags a env)).

(** The calls of a whole Amazon run after the variable file, for the
    response the authorization call was given. *)
Definition amazon_calls (ext : Externals) (a : args.t)
    (env : gmap string string) (resp : response) : list event :=
  EvDockerFromEnv ::
  EvBoto3Client (region_name a) ::
  EvGetAuthorizationToken (registry_ids_argument a) ::
  flat_map (cycle_calls ext (args.path a) (resolve_repo a env)
                        (resolve_tags a env) (args.will_push a)
                        (resolve_build_args env))
           (authorizationData resp).

(** The events of the variable file: dotenv calls and log records. *)
Definition is_dotenv (e : event) : bool :=
  match e with
  | EvFindDotenv _ | EvLoadDotenv _ | EvLog _ _ => true
  | _ => false
  end.

(** The branch of [run_build] on [args.is_amazon_mode], in environment
    [env]. *)
Definition mode_part (ext : Externals) (a : args.t)
    (env : gmap string string) : M unit :=
  if args.is_amazon_mode a
  then amazon_mode ext a (args.path a) (resolve_repo a env)
                   (resolve_tags a env) (resolve_build_args env)
  else vanilla_mode ext a (args.path a) (resolve_repo a env)
                    (resolve_tags a env) (resolve_build_args env).

(** Docker rejects every login. *)
Definition login_rejected (ext : Externals) : Prop :=
  ∀ h user pswd registry, ∃ e, docker_login ext h user pswd registry = Raise e.

(** The login of the cycle of one authorization entry. *)
Definition cycle_login (ext : Externals) (auth : auth_entry) : list event :=
  match credentials ext auth with
  | Some (user, pswd) =>
      [EvLogin (Some user) (Some pswd)
               (remove "https://" (proxyEndpoint auth))]
  | None => []
  end.

(** The calls to dotenv. *)
Definition is_dotenv_call (e : event) : bool :=
  match e with
  | EvFindDotenv _ | EvLoadDotenv _ => true
  | _ => false
  end.

(** [old in s], computed. *)
Fixpoint contains (s old : string) : bool :=
  startswith s old ||
  match s with
  | EmptyString => false
  | String _ s' => contains s' old
  end.

(** [st] with its environment replaced. *)
Definition with_environ (env : gmap string string) (st : state) : state :=
  {| environ := env; trace := trace st |}.

(** A computation that does not look at the environment: in another
    environment it has the same outcome and appends the same events. *)
Definition oblivious {A} (m : M A) : Prop :=
  ∀ env st, m (with_environ env st) = ((m st).1, with_environ env (m st).2).

(** The variables the script reads. *)
Definition build_variable (name : string) : Prop :=
  name ∈ ["BUILD_REPOSITORY"; "BUILD_TAG"; "BUILD_REGISTRY"; "BUILD_USER";
          "BUILD_PASSWORD"] ∨
  startswith name "BUILD_ARG_" = true.

(** The error of an outcome. *)
Definition error_of {A} (o : outcome A) : option exn :=
  match o with
  | Ok _ => None
  | Raise e => Some e
  end.

(** The error with which the call [c] to docker or boto3 fails when it is
    made after the history [h], if it does; a push fails with the error
    that ends its stream. *)
Definition failure (ext : Externals) (h : list event) (c : event)
  : option exn :=
  match c with
  | EvDockerFromEnv => error_of (docker_from_env ext h)
  | EvBoto3Client region => error_of (boto3_client ext h region)
  | EvGetAuthorizationToken ids =>
      error_of (get_authorization_token ext h ids)
  | EvLogin user pswd registry =>
      error_of (docker_login ext h user pswd registry)
  | EvBuild path tag rm pull buildargs =>
      error_of (images_build ext h path tag rm pull buildargs)
  | EvPush repository tag stream =>
      (images_push ext h repository tag stream).2
  | EvFindDotenv _ | EvLoadDotenv _ | EvLog _ _ => None
  end.

(** [m] stops at the first call to docker or boto3 that fails: the error
    of the call is the outcome, and no call is made after it. *)
Definition stops_at_failure {A} (ext : Externals) (m : M A) : Prop :=
  ∀ st r st',
    m st = (r, st') →
    ∃ new,
      trace st' = trace st ++ new ∧
      ∀ before c after e,
        new = before ++ c :: after →
        failure ext (trace st ++ before) c = Some e →
        r = Raise e ∧ calls after = [].

(** Two sets of collaborators that give the same answer to every call the
    script makes after the variable file, and have the same log levels
    and the same base64 decoding. *)
Definition answers_alike (ext1 ext2 : Externals) : Prop :=
  (∀ name, lookup_level ext1 name = lookup_level ext2 name) ∧
  (∀ s, b64decode ext1 s = b64decode ext2 s) ∧
  (∀ h, docker_from_env ext1 h = docker_from_env ext2 h) ∧
  (∀ h region, boto3_client ext1 h region = boto3_client ext2 h region) ∧
  (∀ h ids,
      get_authorization_token ext1 h ids = get_authorization_token ext2 h ids) ∧
  (∀ h user pswd registry,
      docker_login ext1 h user pswd registry
      = docker_login ext2 h user pswd registry) ∧
  (∀ h path tag rm pull buildargs,
      images_build ext1 h path tag rm pull buildargs
      = images_build ext2 h path tag rm pull buildargs) ∧
  (∀ h repository tag stream,
      images_push ext1 h repository tag stream
      = images_push ext2 h repository tag stream).

(** * Properties *)

(** ** Strings *)

Lemma startswith_app (p r : string) : startswith (p +:+ r) p = true.
Proof.
  induction p as [|c p IH]; simpl; [done|].
  by rewrite Ascii.eqb_refl.
Qed.

Lemma startswith_split (p s : string) :
  startswith s p = true → s = p +:+ slice_from (String.length p) s.
Proof.
  revert s. induction p as [|c p IH]; intros s; simpl; [done|].
  destruct s as [|d s]; [done|].
  destruct (Ascii.eqb c d) eqn:E; [|done].
  apply Ascii.eqb_eq in E as ->. intros H.
  change (String d p +:+ ?x) with (String d (p +:+ x)). f_equal. by apply IH.
Qed.

Lemma slice_from_app (p r : string) :
  slice_from (String.length p) (p +:+ r) = r.
Proof. induction p as [|c p IH]; simpl; done. Qed.

Lemma split_length (sep : ascii) (s : string) :
  length (split sep s) = S (count sep s).
Proof.
  induction s as [|c s IH]; simpl; [done|].
  destruct (Ascii.eqb c sep); simpl; [by rewrite IH|].
  destruct (split sep s); simpl in *; [done|]. by rewrite IH.
Qed.

(** ** The build-argument dictionary *)

Lemma build_args_fold (l : list (string * string)) (d : gmap string string)
    (k : string) :
  NoDup l.*1 →
  foldl build_args_step d l !! k =
    match (list_to_map l : gmap string string) !! ("BUILD_ARG_" +:+ k) with
    | Some v => Some v
    | None => d !! k
    end.
Proof.
  revert d. induction l as [|[k0 v0] l IH]; intros d Hnd; [done|].
  apply NoDup_cons in Hnd as [Hk0 Hnd]. simpl in Hk0.
  cbn [foldl]. rewrite (IH _ Hnd). cbn [list_to_map foldr uncurry fst snd].
  destruct (decide (k0 = "BUILD_ARG_" +:+ k)) as [->|Hne].
  - rewrite lookup_insert_eq.
    rewrite (not_elem_of_list_to_map_1 _ _ Hk0).
    unfold build_args_step. cbn [fst snd].
    rewrite (startswith_app "BUILD_ARG_" k).
    change 10 with (String.length "BUILD_ARG_").
    by rewrite slice_from_app, lookup_insert_eq.
  - rewrite (lookup_insert_ne _ _ _ _ Hne).
    destruct (list_to_map l !! ("BUILD_ARG_" +:+ k)); [done|].
    unfold build_args_step. cbn [fst snd].
    destruct (startswith k0 "BUILD_ARG_") eqn:E; [|done].
    apply lookup_insert_ne. intros <-. apply Hne.
    by apply (startswith_split "BUILD_ARG_").
Qed.

Lemma resolve_build_args_lookup (environ : gmap string string) (k : string) :
  resolve_build_args environ !! k = environ !! ("BUILD_ARG_" +:+ k).
Proof.
  unfold resolve_build_args.
  rewrite build_args_fold by apply NoDup_fst_map_to_list.
  rewrite list_to_map_to_list, lookup_empty.
  by destruct (environ !! _).
Qed.

Lemma resolve_build_args_insert (environ : gmap string string) (k v : string) :
  resolve_build_args (<[k := v]> environ) =
    if startswith k "BUILD_ARG_"
    then <[slice_from 10 k := v]> (resolve_build_args environ)
    else resolve_build_args environ.
Proof.
  apply map_eq. intros j. rewrite resolve_build_args_lookup.
  destruct (startswith k "BUILD_ARG_") eqn:E.
  - apply (startswith_split "BUILD_ARG_") in E. cbn [String.length] in E.
    destruct (decide (slice_from 10 k = j)) as [<-|Hne].
    + by rewrite <- E, !lookup_insert_eq.
    + rewrite !lookup_insert_ne, ?resolve_build_args_lookup; [done..|].
      intros ->. apply Hne.
      change 10 with (String.length "BUILD_ARG_"). apply slice_from_app.
  - rewrite lookup_insert_ne, ?resolve_build_args_lookup; [done|].
    intros ->. by rewrite startswith_app in E.
Qed.

Lemma resolve_build_args_size (environ : gmap string string) :
  size (resolve_build_args environ) =
  size (filter (λ kv, startswith kv.1 "BUILD_ARG_" = true) environ).
Proof.
  induction environ as [|k v m Hk IH] using map_ind.
  - by rewrite map_filter_empty.
  - rewrite resolve_build_args_insert.
    destruct (startswith k "BUILD_ARG_") eqn:E.
    + rewrite map_filter_insert_True by done.
      rewrite !map_size_insert_None, IH; [done| |].
      * by rewrite map_lookup_filter_None; left.
      * rewrite resolve_build_args_lookup.
        apply (startswith_split "BUILD_ARG_") in E. cbn [String.length] in E.
        by rewrite <- E.
    + rewrite map_filter_insert_False, delete_id, IH; [done..|].
      cbn [fst]. by rewrite E.
Qed.

(** C6.  The build-argument dictionary holds, under each key [k], what
    [os.environ] holds under [BUILD_ARG_k], and nothing else: a variable
    with the prefix appears under its name with the ten characters of the
    prefix removed and with its value; every entry comes from such a
    variable; and there are as many entries as variables with the
    prefix. *)
Theorem build_args_exact (environ : gmap string string) :
  (∀ k, resolve_build_args environ !! k = environ !! ("BUILD_ARG_" +:+ k)) ∧
  (∀ name v,
      environ !! name = Some v → startswith name "BUILD_ARG_" = true →
      resolve_build_args environ !! slice_from 10 name = Some v) ∧
  (∀ k v,
      resolve_build_args environ !! k = Some v →
      ∃ name, startswith name "BUILD_ARG_" = true ∧
              k = slice_from 10 name ∧ environ !! name = Some v) ∧
  size (resolve_build_args environ) =
    size (filter (λ kv, startswith kv.1 "BUILD_ARG_" = true) environ).
Proof.
  split_and!.
  - apply resolve_build_args_lookup.
  - intros name v Hv E. rewrite resolve_build_args_lookup.
    apply (startswith_split "BUILD_ARG_") in E. cbn [String.length] in E.
    by rewrite <- E.
  - intros k v Hv. rewrite resolve_build_args_lookup in Hv.
    exists ("BUILD_ARG_" +:+ k). split_and!; [|done..].
    apply startswith_app.
  - apply resolve_build_args_size.
Qed.

Lemma build_args_exact_witness :
  resolve_build_args
    {[ "BUILD_ARG_SG_BASE_IMAGE" := "registry/sg/base:latest";
       "HOME" := "/root" ]} !! "SG_BASE_IMAGE"
  = Some "registry/sg/base:latest" ∧
  ∃ name,
    startswith name "BUILD_ARG_" = true ∧
    "SG_BASE_IMAGE" = slice_from 10 name ∧
    ({[ "BUILD_ARG_SG_BASE_IMAGE" := "registry/sg/base:latest";
        "HOME" := "/root" ]} : gmap string string) !! name
    = Some "registry/sg/base:latest".
Proof.
  destruct (build_args_exact
              {[ "BUILD_ARG_SG_BASE_IMAGE" := "registry/sg/base:latest";
                 "HOME" := "/root" ]}) as (_ & Hin & Hout & _).
  split.
  - apply (Hin "BUILD_ARG_SG_BASE_IMAGE" "registry/sg/base:latest");
      vm_compute; reflexivity.
  - apply (Hout "SG_BASE_IMAGE" "registry/sg/base:latest").
    apply (Hin "BUILD_ARG_SG_BASE_IMAGE" "registry/sg/base:latest");
      vm_compute; reflexivity.
Defined.

(** ** Precedence of flags, environment and defaults *)

Lemma or_str_given (flag : option string) (fallback : string) :
  or_str flag fallback =
  match given flag with Some v => v | None => fallback end.
Proof. destruct flag as [s|]; simpl; [|done]. by destruct (truthy s). Qed.

Lemma or_opt_given (flag fallback : option string) :
  or_opt flag fallback = precedence_opt (given flag) fallback.
Proof. destruct flag as [s|]; simpl; [|done]. by destruct (truthy s). Qed.

Lemma resolve_tags_given (a : args.t) (environ : gmap string string) :
  resolve_tags a environ =
    precedence (list_to_set <$> given (args.tags a))
               (singleton <$> environ !! "BUILD_TAG") {[ "latest" ]}
    ∪ (if args.will_add_latest a then {[ "latest" ]} else ∅).
Proof.
  unfold resolve_tags, get_default.
  destruct (args.tags a) as [[|t ts]|], (environ !! "BUILD_TAG"),
    (args.will_add_latest a); simpl; set_solver.
Qed.

(** With [-r ''] the repository comes from the environment, and the
    region handed to boto3 is not taken from [BUILD_AMAZON_REGION]. *)
Example empty_flag_falls_through :
  resolve_repo empty_repository_flag environ_with_repository = "statsd" ∧
  region_name empty_repository_flag = None.
Proof. split; reflexivity. Qed.

(** C3, as stated, fails: a repository flag given as the empty string
    does not win over [BUILD_REPOSITORY]. *)
Lemma precedence_counterexample :
  ¬ flags_take_precedence empty_repository_flag environ_with_repository.
Proof. intros [H _]. vm_compute in H. discriminate H. Qed.

(** C3, amended.  A flag counts when it was given and is not empty: the
    repository, the registry, the login user and the login password are
    that flag, otherwise the variable [BUILD_REPOSITORY],
    [BUILD_REGISTRY], [BUILD_USER], [BUILD_PASSWORD] when set, otherwise
    the default (the empty string for the first two, [None] for the last
    two); the tag set is the given non-empty tag list, otherwise the
    single tag of [BUILD_TAG], otherwise [latest], with [latest] added
    under [--latest]. *)
Theorem given_flags_take_precedence (a : args.t)
    (environ : gmap string string) :
  resolve_repo a environ =
    precedence (given (args.repository a)) (environ !! "BUILD_REPOSITORY") "" ∧
  resolve_tags a environ =
    precedence (list_to_set <$> given (args.tags a))
               (singleton <$> environ !! "BUILD_TAG") {[ "latest" ]}
    ∪ (if args.will_add_latest a then {[ "latest" ]} else ∅) ∧
  resolve_registry a environ =
    precedence (given (args.registry a)) (environ !! "BUILD_REGISTRY") "" ∧
  resolve_user a environ =
    precedence_opt (given (args.login_user a)) (environ !! "BUILD_USER") ∧
  resolve_pswd a environ =
    precedence_opt (given (args.login_password a))
                   (environ !! "BUILD_PASSWORD").
Proof.
  unfold resolve_repo, resolve_registry, resolve_user, resolve_pswd,
    get_default.
  rewrite !or_str_given, !or_opt_given.
  split_and!; try done. apply resolve_tags_given.
Qed.

(** ** The tag set *)

(** C4.  The tag set the script computes is the reference tag set, and
    under [--latest] it holds [latest] whatever else was supplied. *)
Theorem resolve_tags_reference (a : args.t) (environ : gmap string string) :
  resolve_tags a environ = reference_tags a environ ∧
  "latest" ∈ resolve_tags (args.with_will_add_latest true a) environ.
Proof.
  split.
  - unfold resolve_tags, reference_tags, get_default.
    destruct (args.tags a) as [[|t ts]|], (environ !! "BUILD_TAG"),
      (args.will_add_latest a); simpl; set_solver.
  - unfold resolve_tags. cbn [args.will_add_latest args.with_will_add_latest].
    set_solver.
Qed.

(** C5.  The tag set is never empty; with no tag flag and no [BUILD_TAG]
    it is exactly [{latest}]; with a tag flag that has no arguments it is
    not empty either. *)
Theorem resolve_tags_nonempty (a : args.t) (environ : gmap string string) :
  (∃ t, t ∈ resolve_tags a environ) ∧
  resolve_tags (args.with_tags None a) (delete "BUILD_TAG" environ)
    = {[ "latest" ]} ∧
  (∃ t, t ∈ resolve_tags (args.with_tags (Some []) a) environ).
Proof.
  assert (∀ b, ∃ t, t ∈ resolve_tags b environ) as Hne.
  { intros b. unfold resolve_tags.
    destruct (args.tags b) as [[|t ts]|].
    - exists (get_default environ "BUILD_TAG" "latest").
      destruct (args.will_add_latest b); simpl; set_solver.
    - exists t. destruct (args.will_add_latest b); simpl; set_solver.
    - exists (get_default environ "BUILD_TAG" "latest").
      destruct (args.will_add_latest b); simpl; set_solver. }
  split_and!; [apply Hne| |apply Hne].
  unfold resolve_tags, get_default. simpl.
  rewrite lookup_delete_eq. simpl.
  destruct (args.will_add_latest a); set_solver.
Qed.

(** ** Loops and sequencing *)

Lemma bind_ok {A B} (m : M A) (k : A → M B) (st st' : state) (x : A) :
  m st = (Ok x, st') → bind m k st = k x st'.
Proof. unfold bind. by intros ->. Qed.

Lemma bind_raise {A B} (m : M A) (k : A → M B) (st st' : state) (e : exn) :
  m st = (Raise e, st') → bind m k st = (Raise e, st').
Proof. unfold bind. by intros ->. Qed.

Lemma bind_assoc {A B C} (m : M A) (k : A → M B) (k' : B → M C)
    (st : state) :
  bind (bind m k) k' st = bind m (λ x, bind (k x) k') st.
Proof. unfold bind. by destruct (m st) as [[x|e] st']. Qed.

Lemma bind_inv_ok {A B} (m : M A) (k : A → M B) (st st' : state) (y : B) :
  bind m k st = (Ok y, st') →
  ∃ x st1, m st = (Ok x, st1) ∧ k x st1 = (Ok y, st').
Proof.
  unfold bind. destruct (m st) as [[x|e] st1]; [|done]. by exists x, st1.
Qed.

Lemma extend_extend (st : state) (l1 l2 : list event) :
  extend (extend st l1) l2 = extend st (l1 ++ l2).
Proof. unfold extend. cbn. by rewrite app_assoc. Qed.

Lemma extend_nil (st : state) : extend st [] = st.
Proof. destruct st. unfold extend. cbn. by rewrite app_nil_r. Qed.

Lemma call_run {A} (e : event) (answer : list event → outcome A)
    (st : state) :
  call e answer st = (answer (trace st), extend st [e]).
Proof. done. Qed.

Lemma log_run (lvl : level) (m : message) (st : state) :
  log lvl m st = (Ok tt, extend st [EvLog lvl m]).
Proof. done. Qed.

Lemma bind_log {B} (lvl : level) (m : message) (k : unit → M B) (st : state) :
  bind (log lvl m) k st = k tt (extend st [EvLog lvl m]).
Proof. done. Qed.

Lemma bind_get_environ {B} (k : gmap string string → M B) (st : state) :
  bind get_environ k st = k (environ st) st.
Proof. done. Qed.

Lemma for_each_app {A} (l1 l2 : list A) (body : A → M unit) (st : state) :
  for_each (l1 ++ l2) body st = (for_each l1 body >> for_each l2 body) st.
Proof.
  revert st. induction l1 as [|x l1 IH]; intros st; [done|].
  cbn [app for_each]. rewrite bind_assoc.
  destruct (body x st) as [[[]|e] st1] eqn:E.
  - rewrite !(bind_ok _ _ _ _ _ E). apply IH.
  - by rewrite !(bind_raise _ _ _ _ _ E).
Qed.

(** ** The variable file *)

(** C1, as stated, fails: with the default [.env] requested and no such
    file anywhere ([find_dotenv] answers the empty path), the run raises
    nothing and goes on to log in and build. *)
Lemma missing_variable_file_counterexample :
  truthy (args.env args.defaults) = true ∧
  find_dotenv (Demo.ext (mk_response [])) [] ".env" = Ok "" ∧
  main (Demo.ext (mk_response [])) args.defaults Demo.start =
    (Ok tt,
     {| environ := ∅;
        trace :=
          [EvFindDotenv ".env"; EvLog Info (MLoadingEnv "");
           EvLoadDotenv ""; EvDockerFromEnv;
           EvLog Info (MAttemptLogin "" None); EvLogin None None "";
           EvLog Info MLoggedIn;
           EvLog Debug (MLoginResponse "Login Succeeded");
           EvLog Info (MBuilding "/:latest");
           EvBuild "." "/:latest" true true ∅;
           EvLog Info MCompletedBuild; EvLog Info MFinished] |}).
Proof. split_and!; vm_compute; reflexivity. Qed.

(** C1, amended.  The script makes no check of its own on the variable
    file.  When a file is requested and [find_dotenv] finds none (it
    answers the empty path), that path is logged and handed to
    [load_dotenv]; when [load_dotenv] returns, the run goes on with the
    docker client and the build, in the environment [load_dotenv]
    left. *)
Theorem missing_variable_file_proceeds (ext : Externals) (a : args.t)
    (st : state) (name : string) (environ' : gmap string string) :
  setup_logging ext a st = (Ok tt, st) →
  args.env a = Some name →
  truthy name = true →
  find_dotenv ext (trace st) name = Ok "" →
  load_dotenv ext
    (trace st ++ [EvFindDotenv name; EvLog Info (MLoadingEnv "")]) ""
    (environ st) = Ok environ' →
  main ext a st =
    run_build ext a
      {| environ := environ';
         trace := trace st ++ [EvFindDotenv name; EvLog Info (MLoadingEnv "");
                               EvLoadDotenv ""] |}.
Proof.
  intros Hlog Henv Hname Hfind Hload.
  unfold main, bind at 1. rewrite Hlog.
  unfold bind at 1.
  assert (load_environment ext a st =
          (Ok tt,
           {| environ := environ';
              trace := trace st ++ [EvFindDotenv name;
                                    EvLog Info (MLoadingEnv "");
                                    EvLoadDotenv ""] |})) as ->; [|done].
  unfold load_environment. rewrite Henv, Hname.
  unfold bind, call, log, emit, get_environ, set_environ. cbn.
  rewrite Hfind. cbn. rewrite <- !app_assoc. cbn. rewrite Hload.
  done.
Qed.

Lemma missing_variable_file_proceeds_witness :
  main (Demo.ext (mk_response [])) args.defaults Demo.start =
    run_build (Demo.ext (mk_response [])) args.defaults
      {| environ := ∅;
         trace := [EvFindDotenv ".env"; EvLog Info (MLoadingEnv "");
                   EvLoadDotenv ""] |}.
Proof.
  apply (missing_variable_file_proceeds
           (Demo.ext (mk_response [])) args.defaults Demo.start ".env" ∅);
    reflexivity.
Defined.

(** ** Amazon mode ignores the vanilla flags *)

(** C7.  In Amazon mode the run does not depend on [--registry] nor on
    [--no-login]: result, environment and the whole trace of calls are the
    same whatever these two flags are. *)
Theorem amazon_ignores_registry_and_login (ext : Externals) (a : args.t)
    (st : state) (r : option string) (b : bool) :
  args.is_amazon_mode a = true →
  main ext (args.with_registry r (args.with_will_login b a)) st =
  main ext a st.
Proof.
  intros H. destruct a. simpl in H. subst. reflexivity.
Qed.

Lemma amazon_ignores_registry_and_login_witness :
  main (Demo.ext (mk_response [Demo.good_entry]))
       (args.with_registry (Some "registry.example.org")
          (args.with_will_login false Demo.amazon_args)) Demo.start =
  main (Demo.ext (mk_response [Demo.good_entry])) Demo.amazon_args Demo.start.
Proof.
  apply (amazon_ignores_registry_and_login
           (Demo.ext (mk_response [Demo.good_entry])) Demo.amazon_args
           Demo.start (Some "registry.example.org") false).
  reflexivity.
Defined.

(** ** Malformed authorization tokens *)

Lemma amazon_cycle_malformed (ext : Externals) (a : args.t)
    (path repo : string) (tags : gset string)
    (build_args : gmap string string) (bad : auth_entry) (st : state) :
  malformed ext bad →
  amazon_cycle ext a path repo tags build_args bad st =
    (Raise (malformed_error ext bad), st).
Proof.
  unfold malformed, malformed_error, amazon_cycle.
  destruct (b64decode ext (authorizationToken bad)) as [creds|]; [|done].
  intros Hcount. pose proof (split_length ":" creds) as Hlen.
  destruct (split ":" creds) as [|user [|pswd [|x l]]]; try done.
  simpl in Hlen. congruence.
Qed.

Lemma for_each_malformed (ext : Externals) (a : args.t)
    (path repo : string) (tags : gset string)
    (build_args : gmap string string) (pre post : list auth_entry)
    (bad : auth_entry) (st : state) :
  malformed ext bad →
  for_each (pre ++ bad :: post)
           (amazon_cycle ext a path repo tags build_args) st =
    match for_each pre (amazon_cycle ext a path repo tags build_args) st with
    | (Ok _, st1) => (Raise (malformed_error ext bad), st1)
    | (Raise e, st1) => (Raise e, st1)
    end.
Proof.
  intros Hbad. rewrite for_each_app. unfold bind at 1.
  destruct (for_each pre _ st) as [[[]|e] st1]; [|done].
  cbn [for_each]. apply bind_raise. by apply amazon_cycle_malformed.
Qed.

(** C2, as stated, fails: the second entry of the response is malformed
    (its token decodes to [nocolon]) and the run does abort, but only
    after the image was built and pushed for the first entry. *)
Lemma malformed_token_counterexample :
  malformed (Demo.ext (mk_response [Demo.good_entry; Demo.bad_entry]))
            Demo.bad_entry ∧
  main (Demo.ext (mk_response [Demo.good_entry; Demo.bad_entry]))
       Demo.amazon_args Demo.start =
    (Raise ValueError,
     {| environ := ∅;
        trace :=
          [EvFindDotenv ".env"; EvLog Info (MLoadingEnv "");
           EvLoadDotenv ""; EvDockerFromEnv; EvLog Info MAmazonMode;
           EvLog Info MGetToken; EvBoto3Client None;
           EvGetAuthorizationToken (Some ["111"; "222"]);
           EvLog Debug
             (MResponse (mk_response [Demo.good_entry; Demo.bad_entry]));
           EvLogin (Some "AWS") (Some "secret")
                   "111.dkr.ecr.us-east-1.amazonaws.com";
           EvLog Info
             (MBuilding "111.dkr.ecr.us-east-1.amazonaws.com/statsd:latest");
           EvBuild "." "111.dkr.ecr.us-east-1.amazonaws.com/statsd:latest"
                   true true ∅;
           EvLog Info MCompletedBuild;
           EvLog Info (MAttemptPush "111.dkr.ecr.us-east-1.amazonaws.com");
           EvPush "111.dkr.ecr.us-east-1.amazonaws.com/statsd" "latest" true;
           EvLog Debug (MLine "Preparing"); EvLog Debug (MLine "Pushed");
           EvLog Info MPushed] |}).
Proof.
  split.
  - vm_compute. lia.
  - vm_compute. reflexivity.
Qed.

(** C2, amended.  In Amazon mode, when the entry at any position of
    [authorizationData] is malformed, the run aborts with an error at that
    entry: no login, build or push is made for it or for any later entry.
    The entries before it have had their full cycle by then, so builds
    are excluded only when the malformed entry comes first. *)
Theorem malformed_token_aborts (ext : Externals) (a : args.t)
    (path repo : string) (tags : gset string)
    (build_args : gmap string string) (resp : response)
    (pre post : list auth_entry) (bad : auth_entry) (st : state) :
  let asked :=
    trace st ++ [EvLog Info MAmazonMode; EvLog Info MGetToken;
                 EvBoto3Client (region_name a)] in
  let answered :=
    {| environ := environ st;
       trace := asked ++ [EvGetAuthorizationToken (registry_ids_argument a);
                          EvLog Debug (MResponse resp)] |} in
  boto3_client ext (trace st ++ [EvLog Info MAmazonMode; EvLog Info MGetToken])
               (region_name a) = Ok tt →
  get_authorization_token ext asked (registry_ids_argument a) = Ok resp →
  authorizationData resp = pre ++ bad :: post →
  malformed ext bad →
  amazon_mode ext a path repo tags build_args st =
    match for_each pre (amazon_cycle ext a path repo tags build_args)
                   answered with
    | (Ok _, st1) => (Raise (malformed_error ext bad), st1)
    | (Raise e, st1) => (Raise e, st1)
    end ∧
  (∃ e, (amazon_mode ext a path repo tags build_args st).1 = Raise e).
Proof.
  intros asked answered Hclient Htoken Hdata Hbad.
  assert (amazon_mode ext a path repo tags build_args st =
          for_each (authorizationData resp)
                   (amazon_cycle ext a path repo tags build_args) answered)
    as Hrun.
  { unfold amazon_mode, bind, call, log, emit. cbn.
    rewrite <- !app_assoc. cbn. rewrite Hclient.
    fold asked. rewrite Htoken. subst answered asked.
    by rewrite <- !app_assoc. }
  rewrite Hrun, Hdata, for_each_malformed by done.
  split; [done|].
  destruct (for_each pre _ answered) as [[[]|e] st1]; eauto.
Qed.

Lemma malformed_token_aborts_witness :
  amazon_mode (Demo.ext (mk_response [Demo.good_entry; Demo.bad_entry]))
              Demo.amazon_args "." "statsd" {[ "latest" ]} ∅ Demo.start =
    match
      for_each [Demo.good_entry]
        (amazon_cycle
           (Demo.ext (mk_response [Demo.good_entry; Demo.bad_entry]))
           Demo.amazon_args "." "statsd" {[ "latest" ]} ∅)
        {| environ := ∅;
           trace :=
             [EvLog Info MAmazonMode; EvLog Info MGetToken;
              EvBoto3Client None;
              EvGetAuthorizationToken (Some ["111"; "222"]);
              EvLog Debug
                (MResponse
                   (mk_response [Demo.good_entry; Demo.bad_entry]))] |}
    with
    | (Ok _, st1) => (Raise ValueError, st1)
    | (Raise e, st1) => (Raise e, st1)
    end.
Proof.
  apply (malformed_token_aborts
           (Demo.ext (mk_response [Demo.good_entry; Demo.bad_entry]))
           Demo.amazon_args "." "statsd" {[ "latest" ]} ∅
           (mk_response [Demo.good_entry; Demo.bad_entry])
           [Demo.good_entry] [] Demo.bad_entry Demo.start).
  - reflexivity.
  - reflexivity.
  - reflexivity.
  - vm_compute. lia.
Defined.

(** When the malformed entry is the first one, the run ends right after
    the response was logged: no login, build or push was made. *)
Lemma malformed_first_entry (ext : Externals) (a : args.t)
    (path repo : string) (tags : gset string)
    (build_args : gmap string string) (resp : response)
    (post : list auth_entry) (bad : auth_entry) (st : state) :
  boto3_client ext (trace st ++ [EvLog Info MAmazonMode; EvLog Info MGetToken])
               (region_name a) = Ok tt →
  get_authorization_token ext
    (trace st ++ [EvLog Info MAmazonMode; EvLog Info MGetToken;
                  EvBoto3Client (region_name a)])
    (registry_ids_argument a) = Ok resp →
  authorizationData resp = bad :: post →
  malformed ext bad →
  amazon_mode ext a path repo tags build_args st =
    (Raise (malformed_error ext bad),
     extend st [EvLog Info MAmazonMode; EvLog Info MGetToken;
                EvBoto3Client (region_name a);
                EvGetAuthorizationToken (registry_ids_argument a);
                EvLog Debug (MResponse resp)]).
Proof.
  intros Hclient Htoken Hdata Hbad.
  unfold amazon_mode. rewrite !bind_log, !extend_extend. cbn [app].
  erewrite bind_ok; [|by rewrite call_run; cbn; rewrite Hclient].
  erewrite bind_ok;
    [|by rewrite call_run; cbn; rewrite <- app_assoc; cbn; rewrite Htoken].
  rewrite bind_log, !extend_extend. cbn [app].
  rewrite Hdata. cbn [for_each]. apply bind_raise.
  by apply amazon_cycle_malformed.
Qed.

(** ** The build-and-push loop *)

Lemma calls_app (l1 l2 : list event) : calls (l1 ++ l2) = calls l1 ++ calls l2.
Proof. apply List.filter_app. Qed.

Lemma calls_debug_lines (lines : list string) :
  calls (map debug_line lines) = [].
Proof. induction lines as [|x l IH]; [done|]. cbn. apply IH. Qed.

Lemma no_push_debug_lines (lines : list string) (tail : list event) :
  forallb (λ e, negb (is_push e)) tail = true →
  forallb (λ e, negb (is_push e)) (map debug_line lines ++ tail) = true.
Proof. intros H. induction lines as [|x l IH]; [done|]. cbn. apply IH. Qed.

(** A trace with a single push splits around it in one way only. *)
Lemma push_split_unique (l1 l2 before after : list event)
    (r t r' t' : string) (s s' : bool) :
  forallb (λ e, negb (is_push e)) l1 = true →
  forallb (λ e, negb (is_push e)) l2 = true →
  l1 ++ EvPush r t s :: l2 = before ++ EvPush r' t' s' :: after →
  before = l1 ∧ r' = r ∧ t' = t ∧ s' = s ∧ after = l2.
Proof.
  intros H1 H2. revert before.
  induction l1 as [|x l1 IH]; intros before Heq.
  - destruct before as [|y before]; cbn in Heq.
    + by simplify_eq.
    + simplify_eq. exfalso.
      assert (forallb (λ e, negb (is_push e))
                (before ++ EvPush r' t' s' :: after) = true) as H by done.
      rewrite forallb_app in H. cbn in H.
      by rewrite andb_false_r in H.
  - cbn in H1. apply andb_true_iff in H1 as [Hx H1].
    destruct before as [|y before]; cbn in Heq; simplify_eq.
    destruct (IH H1 before) as (-> & -> & -> & -> & ->); done.
Qed.

Lemma pushes_forwarded_nil (ext : Externals) (h : list event) :
  pushes_forwarded ext h [].
Proof. intros before r t s after Heq. by destruct before. Qed.

Lemma pushes_forwarded_no_push (ext : Externals) (h new : list event) :
  forallb (λ e, negb (is_push e)) new = true → pushes_forwarded ext h new.
Proof.
  intros H before r t s after ->. rewrite forallb_app in H. cbn in H.
  by rewrite andb_false_r in H.
Qed.

Lemma pushes_forwarded_app (ext : Externals) (h new1 new2 : list event) :
  pushes_forwarded ext h new1 →
  pushes_forwarded ext (h ++ new1) new2 →
  pushes_forwarded ext h (new1 ++ new2).
Proof.
  intros H1 H2 before r t s after Heq.
  apply app_eq_app in Heq as [l [[-> Hl]|[-> ->]]].
  - destruct l as [|x l]; cbn in Hl.
    + destruct (H2 [] r t s after) as [rest ->]; [done|].
      rewrite !app_nil_r. by exists rest.
    + simplify_eq. destruct (H1 before r t s l) as [rest ->]; [done|].
      exists (rest ++ new2). by rewrite app_assoc.
  - destruct (H2 l r t s after) as [rest ->]; [done|].
    rewrite app_assoc. by exists rest.
Qed.

Lemma for_each_log_lines (lines : list string) (st : state) :
  for_each lines (λ line, log Debug (MLine line)) st =
    (Ok tt, extend st (map debug_line lines)).
Proof.
  revert st. induction lines as [|x l IH]; intros st.
  - by rewrite extend_nil.
  - cbn [for_each]. rewrite bind_log, IH, extend_extend. done.
Qed.

Lemma push_stream_run (ext : Externals) (repository tag : string)
    (st : state) :
  push_stream ext repository tag st =
    (match (images_push ext (trace st) repository tag true).2 with
     | None => Ok tt
     | Some e => Raise e
     end,
     extend st (EvPush repository tag true ::
                map debug_line
                    (images_push ext (trace st) repository tag true).1)).
Proof.
  unfold push_stream.
  rewrite (bind_ok _ _ st (extend st [EvPush repository tag true])
             (images_push ext (trace st) repository tag true)) by done.
  rewrite (bind_ok _ _ _ _ tt (for_each_log_lines _ _)).
  rewrite extend_extend. cbn [app].
  by destruct (images_push ext (trace st) repository tag true).2.
Qed.

(** The events of one tag: log, build, log and, when pushing, log, push,
    the streamed records and a last log. *)
Lemma build_tag_inv (ext : Externals) (path registry repo : string)
    (will_push : bool) (build_args : gmap string string) (tag : string)
    (st st' : state) :
  build_tag ext path registry repo will_push build_args tag st = (Ok tt, st') →
  ∃ new, st' = extend st new ∧
         calls new = tag_calls path registry repo will_push build_args tag ∧
         pushes_forwarded ext (trace st) new.
Proof.
  unfold build_tag. intros H. rewrite bind_log in H.
  apply bind_inv_ok in H as ([] & st1 & Hbuild & H).
  rewrite call_run in Hbuild. injection Hbuild as _ <-.
  rewrite bind_log, !extend_extend in H. cbn [app] in H.
  destruct will_push.
  - rewrite bind_log, extend_extend in H. cbn [app] in H.
    apply bind_inv_ok in H as ([] & st2 & Hpush & H).
    rewrite log_run in H. injection H as <-.
    rewrite push_stream_run in Hpush. injection Hpush as _ <-.
    rewrite !extend_extend. cbn [app extend trace].
    eexists. split; [reflexivity|]. split.
    + cbn. rewrite calls_app, calls_debug_lines. done.
    + intros before r t s after Heq.
      change (?a :: ?b :: ?c :: ?d :: EvPush ?x ?y ?z :: ?l)
        with ([a; b; c; d] ++ EvPush x y z :: l) in Heq.
      apply push_split_unique in Heq as (-> & -> & -> & -> & ->).
      * eexists. reflexivity.
      * done.
      * by apply no_push_debug_lines.
  - unfold ret in H. injection H as <-. eexists. split; [reflexivity|]. split.
    + done.
    + by apply pushes_forwarded_no_push.
Qed.

Lemma build_loop_inv (ext : Externals) (path registry repo : string)
    (will_push : bool) (build_args : gmap string string) (l : list string)
    (st st' : state) :
  for_each l (build_tag ext path registry repo will_push build_args) st
    = (Ok tt, st') →
  ∃ new, st' = extend st new ∧
         calls new =
           flat_map (tag_calls path registry repo will_push build_args) l ∧
         pushes_forwarded ext (trace st) new.
Proof.
  revert st. induction l as [|tag l IH]; intros st H.
  - unfold for_each, ret in H. simplify_eq. exists [].
    rewrite extend_nil. split_and!; [done..|]. apply pushes_forwarded_nil.
  - cbn [for_each] in H. apply bind_inv_ok in H as ([] & st1 & Htag & H).
    apply build_tag_inv in Htag as (new1 & -> & Hc1 & Hf1).
    apply IH in H as (new2 & -> & Hc2 & Hf2).
    exists (new1 ++ new2). split_and!.
    + apply extend_extend.
    + rewrite calls_app, Hc1, Hc2. done.
    + by apply pushes_forwarded_app.
Qed.

Lemma calls_elem_of (e : event) (tr : list event) :
  e ∈ calls tr ↔ e ∈ tr ∧ is_call e = true.
Proof.
  unfold calls. rewrite !list_elem_of_In. apply List.filter_In.
Qed.

(** What the events of the loop say about each tag. *)
Lemma build_loop_members (path registry repo : string) (will_push : bool)
    (build_args : gmap string string) (l : list string) (new : list event)
    (tag : string) :
  calls new = flat_map (tag_calls path registry repo will_push build_args) l →
  tag ∈ l →
  EvBuild path (image_ref registry repo tag) true true build_args ∈ new ∧
  (EvPush (image_repo registry repo) tag true ∈ new ↔ will_push = true).
Proof.
  intros Hcalls Htag.
  assert (∀ e, e ∈ tag_calls path registry repo will_push build_args tag →
               e ∈ new) as Hin.
  { intros e He.
    assert (e ∈ calls new) as Hc.
    { rewrite Hcalls. apply list_elem_of_In, in_flat_map.
      exists tag. by rewrite <- !list_elem_of_In. }
    by apply calls_elem_of in Hc as [? _]. }
  split; [|split].
  - apply Hin. unfold tag_calls. set_solver.
  - intros Hp.
    assert (EvPush (image_repo registry repo) tag true ∈ calls new) as Hc
      by by apply calls_elem_of.
    rewrite Hcalls in Hc.
    apply list_elem_of_In, in_flat_map in Hc as (tag' & _ & Hc).
    apply list_elem_of_In in Hc. unfold tag_calls in Hc.
    destruct will_push; [done|]. set_solver.
  - intros ->. apply Hin. unfold tag_calls. set_solver.
Qed.

(** C9.  When [_build] returns, it has made, for every tag of the set, one
    build call with the context path, the reference [registry/repo:tag],
    [rm] and [pull] set and the build-argument dictionary, followed, if
    and only if [will_push] is set, by one push call for [registry/repo]
    and that tag, and no other call; and every record a push streamed was
    logged at debug level right after it. *)
Theorem build_every_tag (ext : Externals) (path registry repo : string)
    (tags : gset string) (will_push : bool)
    (build_args : gmap string string) (st st' : state) :
  _build ext path registry repo tags will_push build_args st = (Ok tt, st') →
  ∃ new,
    st' = extend st new ∧
    calls new =
      flat_map (tag_calls path registry repo will_push build_args)
               (elements tags) ∧
    (∀ tag, tag ∈ tags →
       EvBuild path (image_ref registry repo tag) true true build_args ∈ new ∧
       (EvPush (image_repo registry repo) tag true ∈ new ↔ will_push = true)) ∧
    pushes_forwarded ext (trace st) new.
Proof.
  unfold _build. intros H.
  apply build_loop_inv in H as (new & -> & Hcalls & Hfwd).
  exists new. split_and!; [done..| |done].
  intros tag Htag. apply elem_of_elements in Htag.
  by apply (build_loop_members _ _ _ _ _ _ _ _ Hcalls).
Qed.

Lemma build_every_tag_witness :
  ∃ new,
    (_build (Demo.ext (mk_response [])) "." "registry.example.org" "statsd"
            {[ "v1" ]} true ∅ Demo.start).2
      = extend Demo.start new ∧
    calls new =
      [EvBuild "." "registry.example.org/statsd:v1" true true ∅;
       EvPush "registry.example.org/statsd" "v1" true] ∧
    EvBuild "." "registry.example.org/statsd:v1" true true ∅ ∈ new ∧
    EvPush "registry.example.org/statsd" "v1" true ∈ new ∧
    ∃ rest,
      [EvLog Debug (MLine "Preparing"); EvLog Debug (MLine "Pushed");
       EvLog Info MPushed] =
      map (λ line, EvLog Debug (MLine line)) ["Preparing"; "Pushed"] ++ rest.
Proof.
  destruct (build_every_tag (Demo.ext (mk_response [])) "."
              "registry.example.org" "statsd" {[ "v1" ]} true ∅ Demo.start
              (_build (Demo.ext (mk_response [])) "." "registry.example.org"
                      "statsd" {[ "v1" ]} true ∅ Demo.start).2)
    as (new & Hst & Hcalls & Hin & Hfwd).
  { vm_compute. reflexivity. }
  exists new.
  destruct (Hin "v1") as [Hbuild [_ Hpush]]; [set_solver|].
  assert (new =
          [EvLog Info (MBuilding "registry.example.org/statsd:v1");
           EvBuild "." "registry.example.org/statsd:v1" true true ∅;
           EvLog Info MCompletedBuild;
           EvLog Info (MAttemptPush "registry.example.org");
           EvPush "registry.example.org/statsd" "v1" true;
           EvLog Debug (MLine "Preparing"); EvLog Debug (MLine "Pushed");
           EvLog Info MPushed]) as Hnew.
  { vm_compute in Hst. by injection Hst as <-. }
  split_and!; [done| |done|by apply Hpush|].
  - rewrite Hcalls. vm_compute. reflexivity.
  - apply (Hfwd [EvLog Info (MBuilding "registry.example.org/statsd:v1");
                 EvBuild "." "registry.example.org/statsd:v1" true true ∅;
                 EvLog Info MCompletedBuild;
                 EvLog Info (MAttemptPush "registry.example.org")]
                "registry.example.org/statsd" "v1" true).
    exact Hnew.
Defined.

(** ** Amazon mode: one authorization call, one cycle per entry *)

Lemma amazon_cycle_inv (ext : Externals) (a : args.t) (path repo : string)
    (tags : gset string) (build_args : gmap string string)
    (auth : auth_entry) (st st' : state) :
  amazon_cycle ext a path repo tags build_args auth st = (Ok tt, st') →
  ∃ new, st' = extend st new ∧
         is_Some (credentials ext auth) ∧
         calls new =
           cycle_calls ext path repo tags (args.will_push a) build_args auth.
Proof.
  unfold amazon_cycle, cycle_calls, credentials.
  destruct (b64decode ext (authorizationToken auth)) as [creds|]; [|done].
  destruct (split ":" creds) as [|user [|pswd [|x l]]]; try done.
  intros H. apply bind_inv_ok in H as (r & st1 & Hlogin & H).
  rewrite call_run in Hlogin. injection Hlogin as _ <-.
  apply build_loop_inv in H as (new & -> & Hcalls & _).
  eexists. split; [apply extend_extend|]. split; [by eexists|].
  by rewrite calls_app, Hcalls.
Qed.

Lemma amazon_loop_inv (ext : Externals) (a : args.t) (path repo : string)
    (tags : gset string) (build_args : gmap string string)
    (l : list auth_entry) (st st' : state) :
  for_each l (amazon_cycle ext a path repo tags build_args) st = (Ok tt, st') →
  ∃ new, st' = extend st new ∧
         Forall (λ auth, is_Some (credentials ext auth)) l ∧
         calls new =
           flat_map (cycle_calls ext path repo tags (args.will_push a)
                                 build_args) l.
Proof.
  revert st. induction l as [|auth l IH]; intros st H.
  - unfold for_each, ret in H. injection H as <-. exists [].
    by rewrite extend_nil.
  - cbn [for_each] in H. apply bind_inv_ok in H as ([] & st1 & Hc & H).
    apply amazon_cycle_inv in Hc as (new1 & -> & Hwf1 & Hc1).
    apply IH in H as (new2 & -> & Hwf2 & Hc2).
    exists (new1 ++ new2). split; [apply extend_extend|].
    split; [by constructor|].
    rewrite calls_app, Hc1, Hc2. done.
Qed.

Lemma setup_logging_inv (ext : Externals) (a : args.t) (st st' : state)
    (r : outcome unit) :
  setup_logging ext a st = (r, st') → st' = st.
Proof.
  unfold setup_logging.
  destruct (args.silent a); [by intros [= _ <-]|].
  destruct (lookup_level ext _); by intros [= _ <-].
Qed.

Lemma load_environment_inv (ext : Externals) (a : args.t) (st st' : state) :
  load_environment ext a st = (Ok tt, st') →
  ∃ pre, trace st' = trace st ++ pre ∧ no_operation pre = true.
Proof.
  unfold load_environment.
  destruct (args.env a) as [name|]; [destruct (truthy name)|].
  - intros H. apply bind_inv_ok in H as (p & st1 & Hfind & H).
    rewrite call_run in Hfind. injection Hfind as _ <-.
    rewrite bind_log, bind_get_environ in H.
    apply bind_inv_ok in H as (environ' & st2 & Hload & H).
    rewrite call_run in Hload. injection Hload as _ <-.
    unfold set_environ in H. injection H as <-. cbn.
    eexists. rewrite <- !app_assoc. split; [reflexivity|done].
  - intros [= <-]. exists []. by rewrite app_nil_r.
  - intros [= <-]. exists []. by rewrite app_nil_r.
Qed.

Lemma authorization_calls_of_calls (tr : list event) :
  authorization_calls (calls tr) = authorization_calls tr.
Proof.
  induction tr as [|e tr IH]; [done|].
  destruct e; cbn; try apply IH. f_equal. apply IH.
Qed.

Lemma authorization_calls_no_operation (tr : list event) :
  no_operation tr = true → authorization_calls tr = [].
Proof.
  induction tr as [|e tr IH]; [done|]. cbn.
  intros [He Htr]%andb_true_iff. destruct e; try done; by apply IH.
Qed.

Lemma authorization_calls_tags (path registry repo : string)
    (will_push : bool) (build_args : gmap string string) (l : list string) :
  authorization_calls
    (flat_map (tag_calls path registry repo will_push build_args) l) = [].
Proof.
  induction l as [|tag l IH]; [done|]. cbn. destruct will_push; apply IH.
Qed.

Lemma authorization_calls_cycles (ext : Externals) (path repo : string)
    (tags : gset string) (will_push : bool)
    (build_args : gmap string string) (l : list auth_entry) :
  authorization_calls
    (flat_map (cycle_calls ext path repo tags will_push build_args) l) = [].
Proof.
  induction l as [|auth l IH]; [done|]. cbn [flat_map].
  unfold authorization_calls in *. rewrite List.filter_app, IH, app_nil_r.
  unfold cycle_calls. destruct (credentials ext auth) as [[user pswd]|]; [|done].
  apply authorization_calls_tags.
Qed.

Lemma registry_ids_supplied (a : args.t) (ids : list string) :
  args.amazon_registry_ids a = Some ids → ids ≠ [] →
  registry_ids_argument a = Some ids.
Proof.
  unfold registry_ids_argument. intros -> Hne. by destruct ids.
Qed.

(** The shape of a run in Amazon mode that returns normally. *)
Lemma main_amazon_inv (ext : Externals) (a : args.t) (st st' : state) :
  main ext a st = (Ok tt, st') →
  args.is_amazon_mode a = true →
  ∃ before resp after,
    trace st' =
      trace st ++ before ++
      EvGetAuthorizationToken (registry_ids_argument a)
      :: EvLog Debug (MResponse resp) :: after ∧
    get_authorization_token ext (trace st ++ before)
                            (registry_ids_argument a) = Ok resp ∧
    no_operation before = true ∧
    Forall (λ auth, is_Some (credentials ext auth)) (authorizationData resp) ∧
    calls after =
      flat_map
        (cycle_calls ext (args.path a) (resolve_repo a (environ st'))
           (resolve_tags a (environ st')) (args.will_push a)
           (resolve_build_args (environ st')))
        (authorizationData resp).
Proof.
  intros Hmain Hmode.
  unfold main in Hmain.
  apply bind_inv_ok in Hmain as ([] & st0 & Hsetup & Hmain).
  apply setup_logging_inv in Hsetup as ->.
  apply bind_inv_ok in Hmain as ([] & st1 & Hload & Hmain).
  apply load_environment_inv in Hload as (pre & Hpre & Hnop).
  unfold run_build in Hmain.
  apply bind_inv_ok in Hmain as ([] & st2 & Hdocker & Hmain).
  rewrite call_run in Hdocker. injection Hdocker as _ <-.
  rewrite bind_get_environ, Hmode in Hmain.
  apply bind_inv_ok in Hmain as ([] & st3 & Hamazon & Hmain).
  rewrite log_run in Hmain. injection Hmain as <-.
  unfold amazon_mode in Hamazon.
  rewrite !bind_log, !extend_extend in Hamazon. cbn [app] in Hamazon.
  apply bind_inv_ok in Hamazon as ([] & st4 & Hclient & Hamazon).
  rewrite call_run in Hclient. injection Hclient as _ <-.
  apply bind_inv_ok in Hamazon as (resp & st5 & Htoken & Hamazon).
  rewrite call_run in Htoken. injection Htoken as Htoken <-.
  rewrite bind_log, !extend_extend in Hamazon. cbn [app] in Hamazon.
  apply amazon_loop_inv in Hamazon as (new & -> & Hwf & Hcalls).
  rewrite !extend_extend. cbn [app extend environ trace] in *.
  exists (pre ++ [EvDockerFromEnv; EvLog Info MAmazonMode; EvLog Info MGetToken;
                  EvBoto3Client (region_name a)]),
         resp, (new ++ [EvLog Info MFinished]).
  split_and!.
  - rewrite Hpre, <- !app_assoc. done.
  - rewrite <- Htoken. f_equal. rewrite Hpre, <- !app_assoc. done.
  - unfold no_operation in *. rewrite forallb_app, Hnop. done.
  - done.
  - rewrite calls_app, Hcalls. cbn. by rewrite app_nil_r.
Qed.

(** C8.  A run in Amazon mode with a registry-ID list that returns
    normally has made exactly one authorization call, with that list as
    [registryIds], and no login, build or push before it; the calls after
    it are, for each entry of the [authorizationData] it was answered, in
    the order of the list, one login with the credentials and registry of
    the entry (every entry carries credentials) and then a build (and,
    when pushing, a push) for every tag of the tag set. *)
Theorem amazon_one_cycle_per_entry (ext : Externals) (a : args.t)
    (st st' : state) (ids : list string) :
  main ext a st = (Ok tt, st') →
  args.is_amazon_mode a = true →
  args.amazon_registry_ids a = Some ids →
  ids ≠ [] →
  ∃ before resp after,
    trace st' =
      trace st ++ before ++
      EvGetAuthorizationToken (Some ids) :: EvLog Debug (MResponse resp)
      :: after ∧
    get_authorization_token ext (trace st ++ before) (Some ids) = Ok resp ∧
    no_operation before = true ∧
    Forall (λ auth, is_Some (credentials ext auth)) (authorizationData resp) ∧
    calls after =
      flat_map
        (cycle_calls ext (args.path a) (resolve_repo a (environ st'))
           (resolve_tags a (environ st')) (args.will_push a)
           (resolve_build_args (environ st')))
        (authorizationData resp) ∧
    authorization_calls
      (before ++ EvGetAuthorizationToken (Some ids)
       :: EvLog Debug (MResponse resp) :: after)
      = [EvGetAuthorizationToken (Some ids)].
Proof.
  intros Hmain Hmode Hids Hne.
  destruct (main_amazon_inv ext a st st' Hmain Hmode)
    as (before & resp & after & Htrace & Htoken & Hbefore & Hwf & Hafter).
  rewrite (registry_ids_supplied a ids Hids Hne) in *.
  exists before, resp, after. split_and!; [done..|].
  unfold authorization_calls. rewrite List.filter_app.
  fold (authorization_calls before).
  rewrite (authorization_calls_no_operation _ Hbefore). cbn.
  fold (authorization_calls after).
  rewrite <- authorization_calls_of_calls, Hafter.
  by rewrite authorization_calls_cycles.
Qed.

Lemma amazon_one_cycle_per_entry_witness :
  ∃ before resp after,
    trace (main (Demo.ext (mk_response [Demo.good_entry; Demo.second_entry]))
                Demo.amazon_args Demo.start).2 =
      trace Demo.start ++ before ++
      EvGetAuthorizationToken (Some ["111"; "222"])
      :: EvLog Debug (MResponse resp) :: after ∧
    get_authorization_token
      (Demo.ext (mk_response [Demo.good_entry; Demo.second_entry]))
      (trace Demo.start ++ before) (Some ["111"; "222"]) = Ok resp ∧
    no_operation before = true ∧
    Forall (λ auth,
              is_Some
                (credentials
                   (Demo.ext (mk_response [Demo.good_entry;
                                           Demo.second_entry])) auth))
           (authorizationData resp) ∧
    calls after =
      flat_map
        (cycle_calls
           (Demo.ext (mk_response [Demo.good_entry; Demo.second_entry]))
           "." "statsd" {[ "latest" ]} true ∅)
        (authorizationData resp) ∧
    authorization_calls
      (before ++ EvGetAuthorizationToken (Some ["111"; "222"])
       :: EvLog Debug (MResponse resp) :: after)
      = [EvGetAuthorizationToken (Some ["111"; "222"])].
Proof.
  apply (amazon_one_cycle_per_entry
           (Demo.ext (mk_response [Demo.good_entry; Demo.second_entry]))
           Demo.amazon_args Demo.start
           (main (Demo.ext (mk_response [Demo.good_entry; Demo.second_entry]))
                 Demo.amazon_args Demo.start).2
           ["111"; "222"]).
  - vm_compute. reflexivity.
  - reflexivity.
  - reflexivity.
  - intros H. discriminate H.
Defined.

(** The scenario of the specification: two registry IDs, two entries in
    the answer, hence one authorization call and two full cycles. *)
Example two_entries_two_cycles :
  calls (trace (main (Demo.ext (mk_response [Demo.good_entry;
                                              Demo.second_entry]))
                     Demo.amazon_args Demo.start).2) =
    [EvFindDotenv ".env"; EvLoadDotenv ""; EvDockerFromEnv;
     EvBoto3Client None; EvGetAuthorizationToken (Some ["111"; "222"]);
     EvLogin (Some "AWS") (Some "secret")
             "111.dkr.ecr.us-east-1.amazonaws.com";
     EvBuild "." "111.dkr.ecr.us-east-1.amazonaws.com/statsd:latest"
             true true ∅;
     EvPush "111.dkr.ecr.us-east-1.amazonaws.com/statsd" "latest" true;
     EvLogin (Some "AWS") (Some "secret")
             "222.dkr.ecr.us-east-1.amazonaws.com";
     EvBuild "." "222.dkr.ecr.us-east-1.amazonaws.com/statsd:latest"
             true true ∅;
     EvPush "222.dkr.ecr.us-east-1.amazonaws.com/statsd" "latest" true].
Proof. vm_compute. reflexivity. Qed.

(** ** Empty repository and registry names *)


Lemma build_tag_total (ext : Externals) (path registry repo : string)
    (will_push : bool) (build_args : gmap string string) (tag : string)
    (st : state) :
  engine_ok ext →
  ∃ st', build_tag ext path registry repo will_push build_args tag st
         = (Ok tt, st').
Proof.
  intros [Hbuild Hpush]. unfold build_tag. rewrite bind_log.
  erewrite bind_ok; [|by rewrite call_run, Hbuild].
  rewrite bind_log. destruct will_push.
  - rewrite bind_log.
    erewrite bind_ok; [|by rewrite push_stream_run, Hpush].
    rewrite log_run. eauto.
  - unfold ret. eauto.
Qed.

Lemma build_loop_total (ext : Externals) (path registry repo : string)
    (will_push : bool) (build_args : gmap string string) (l : list string)
    (st : state) :
  engine_ok ext →
  ∃ st', for_each l (build_tag ext path registry repo will_push build_args) st
         = (Ok tt, st').
Proof.
  intros Hok. revert st. induction l as [|tag l IH]; intros st.
  - unfold for_each, ret. eauto.
  - cbn [for_each].
    destruct (build_tag_total ext path registry repo will_push build_args
                tag st Hok) as [st1 H1].
    rewrite (bind_ok _ _ _ _ _ H1). apply IH.
Qed.

Lemma setup_logging_ok (ext : Externals) (a : args.t) (st : state) :
  logging_ok ext a → setup_logging ext a st = (Ok tt, st).
Proof.
  unfold logging_ok, setup_logging. intros [->|Hlevel]; [done|].
  destruct (args.silent a); [done|]. by destruct Hlevel as [n ->].
Qed.

Lemma load_environment_total (ext : Externals) (a : args.t) (st : state) :
  collaborators_ok ext → ∃ st', load_environment ext a st = (Ok tt, st').
Proof.
  intros (_ & Hfind & Hload & _). unfold load_environment.
  destruct (args.env a) as [name|]; [destruct (truthy name)|];
    [|unfold ret; eauto..].
  destruct (Hfind (trace st) name) as [p Hp].
  erewrite bind_ok; [|by rewrite call_run, Hp].
  rewrite bind_log, bind_get_environ.
  set (s := extend (extend st [EvFindDotenv name])
                   [EvLog Info (MLoadingEnv p)]).
  destruct (Hload (trace s) p (environ s)) as [environ' He].
  erewrite bind_ok; [|by rewrite call_run, He].
  unfold set_environ. eauto.
Qed.

Lemma amazon_loop_total (ext : Externals) (a : args.t) (path repo : string)
    (tags : gset string) (build_args : gmap string string)
    (l : list auth_entry) (st : state) :
  collaborators_ok ext →
  Forall (λ auth, is_Some (credentials ext auth)) l →
  ∃ st', for_each l (amazon_cycle ext a path repo tags build_args) st
         = (Ok tt, st').
Proof.
  intros Hok Hl. pose proof Hok as (Hengine & _ & _ & _ & Hlogin & _).
  revert st. induction Hl as [|auth l [[user pswd] Hcreds] Hl IH]; intros st.
  - unfold for_each, ret. eauto.
  - cbn [for_each].
    assert (∃ st1, amazon_cycle ext a path repo tags build_args auth st
                   = (Ok tt, st1)) as [st1 H1].
    { unfold amazon_cycle. unfold credentials in Hcreds.
      destruct (b64decode ext (authorizationToken auth)) as [creds|]; [|done].
      destruct (split ":" creds) as [|u [|p [|x l']]]; try done.
      set (registry := remove "https://" (proxyEndpoint auth)).
      destruct (Hlogin (trace st) (Some u) (Some p) registry) as [r Hr].
      erewrite bind_ok; [|by rewrite call_run, Hr].
      by apply build_loop_total. }
    rewrite (bind_ok _ _ _ _ _ H1). apply IH.
Qed.

Lemma vanilla_login_total (ext : Externals) (a : args.t)
    (environ : gmap string string) (st : state) :
  collaborators_ok ext →
  ∃ login_events,
    no_build login_events = true ∧
    (if args.will_login a
     then
       log Info (MAttemptLogin (resolve_registry a environ)
                               (resolve_user a environ)) >>
       (let* login_response :=
          call (EvLogin (resolve_user a environ) (resolve_pswd a environ)
                        (resolve_registry a environ))
               (λ h, docker_login ext h (resolve_user a environ)
                       (resolve_pswd a environ)
                       (resolve_registry a environ)) in
        log Info MLoggedIn >> log Debug (MLoginResponse login_response))
     else ret tt) st = (Ok tt, extend st login_events).
Proof.
  intros (_ & _ & _ & _ & Hlogin & _).
  destruct (args.will_login a).
  - rewrite bind_log. set (s := extend st _).
    destruct (Hlogin (trace s) (resolve_user a environ)
                (resolve_pswd a environ) (resolve_registry a environ))
      as [r Hr].
    erewrite bind_ok; [|by rewrite call_run, Hr].
    subst s. rewrite bind_log, log_run, !extend_extend.
    eexists. split; [|reflexivity]. done.
  - exists []. by rewrite extend_nil.
Qed.

(** With collaborators that accept every call, the run returns
    normally. *)
Lemma main_total (ext : Externals) (a : args.t) (st : state) :
  collaborators_ok ext → logging_ok ext a →
  ∃ st', main ext a st = (Ok tt, st').
Proof.
  intros Hok Hlog.
  pose proof Hok as (Hengine & _ & _ & Hdocker & _ & Hclient & Htoken).
  unfold main. rewrite (bind_ok _ _ _ _ _ (setup_logging_ok ext a st Hlog)).
  destruct (load_environment_total ext a st Hok) as [st1 H1].
  rewrite (bind_ok _ _ _ _ _ H1).
  unfold run_build.
  erewrite bind_ok; [|by rewrite call_run, Hdocker].
  rewrite bind_get_environ.
  set (st2 := extend st1 [EvDockerFromEnv]).
  destruct (args.is_amazon_mode a).
  - unfold amazon_mode. rewrite !bind_assoc, bind_log.
    rewrite !bind_assoc, bind_log, !bind_assoc.
    erewrite bind_ok; [|by rewrite call_run, Hclient].
    rewrite bind_assoc. set (s := extend _ [EvBoto3Client _]).
    destruct (Htoken (trace s) (registry_ids_argument a))
      as (resp & Hresp & Hwf).
    erewrite bind_ok; [|by rewrite call_run, Hresp].
    rewrite bind_assoc, bind_log.
    set (s' := extend (extend s _) _).
    destruct (amazon_loop_total ext a (args.path a)
                (resolve_repo a (environ st2))
                (resolve_tags a (environ st2))
                (resolve_build_args (environ st2))
                (authorizationData resp) s' Hok Hwf) as [st3 H3].
    rewrite (bind_ok _ _ _ _ _ H3), log_run. eauto.
  - unfold vanilla_mode. rewrite bind_assoc, bind_get_environ, bind_assoc.
    destruct (vanilla_login_total ext a (environ st2) st2 Hok)
      as (lev & _ & Hlev).
    rewrite (bind_ok _ _ _ _ _ Hlev).
    destruct (build_loop_total ext (args.path a)
                (resolve_registry a (environ st2))
                (resolve_repo a (environ st2))
                (args.will_push a) (resolve_build_args (environ st2))
                (elements (resolve_tags a (environ st2)))
                (extend st2 lev) Hengine) as [st3 H3].
    unfold _build. rewrite (bind_ok _ _ _ _ _ H3), log_run. eauto.
Qed.

Lemma no_operation_no_build (tr : list event) :
  no_operation tr = true → no_build tr = true.
Proof.
  unfold no_operation, no_build.
  induction tr as [|e tr IH]; [done|]. cbn [forallb].
  intros [He Htr]%andb_true_iff. rewrite (IH Htr). by destruct e.
Qed.

Lemma no_build_elem_of (tr : list event) (p t : string) (rm pull : bool)
    (ba : gmap string string) :
  no_build tr = true → EvBuild p t rm pull ba ∉ tr.
Proof.
  intros Hnb Hin. unfold no_build in Hnb.
  rewrite forallb_forall in Hnb. apply list_elem_of_In in Hin.
  by specialize (Hnb _ Hin).
Qed.

Lemma build_in_tag_calls (path registry repo : string) (will_push : bool)
    (build_args : gmap string string) (l : list string)
    (p t : string) (rm pull : bool) (ba : gmap string string) :
  EvBuild p t rm pull ba
    ∈ flat_map (tag_calls path registry repo will_push build_args) l →
  ∃ tag, tag ∈ l ∧ t = image_ref registry repo tag.
Proof.
  intros (tag & Htag & Hin)%list_elem_of_In%in_flat_map.
  exists tag. split; [by apply list_elem_of_In|].
  apply list_elem_of_In in Hin. unfold tag_calls in Hin.
  destruct will_push; set_solver.
Qed.

Lemma build_in_cycle_calls (ext : Externals) (path repo : string)
    (tags : gset string) (will_push : bool)
    (build_args : gmap string string) (l : list auth_entry)
    (p t : string) (rm pull : bool) (ba : gmap string string) :
  EvBuild p t rm pull ba
    ∈ flat_map (cycle_calls ext path repo tags will_push build_args) l →
  ∃ registry tag, tag ∈ tags ∧ t = image_ref registry repo tag.
Proof.
  intros (auth & _ & Hin)%list_elem_of_In%in_flat_map.
  apply list_elem_of_In in Hin. unfold cycle_calls in Hin.
  destruct (credentials ext auth) as [[user pswd]|]; [|set_solver].
  apply elem_of_cons in Hin as [?|Hin]; [done|].
  apply build_in_tag_calls in Hin as (tag & Htag & ->).
  exists (remove "https://" (proxyEndpoint auth)), tag.
  by rewrite <- elem_of_elements.
Qed.

(** The shape of a run in vanilla mode that returns normally. *)
Lemma main_vanilla_inv (ext : Externals) (a : args.t) (st st' : state) :
  main ext a st = (Ok tt, st') →
  args.is_amazon_mode a = false →
  ∃ before new,
    trace st' = trace st ++ before ++ new ++ [EvLog Info MFinished] ∧
    no_build before = true ∧
    calls new =
      flat_map
        (tag_calls (args.path a) (resolve_registry a (environ st'))
           (resolve_repo a (environ st')) (args.will_push a)
           (resolve_build_args (environ st')))
        (elements (resolve_tags a (environ st'))).
Proof.
  intros Hmain Hmode.
  unfold main in Hmain.
  apply bind_inv_ok in Hmain as ([] & st0 & Hsetup & Hmain).
  apply setup_logging_inv in Hsetup as ->.
  apply bind_inv_ok in Hmain as ([] & st1 & Hload & Hmain).
  apply load_environment_inv in Hload as (pre & Hpre & Hnop).
  apply no_operation_no_build in Hnop.
  unfold run_build in Hmain.
  apply bind_inv_ok in Hmain as ([] & st2 & Hdocker & Hmain).
  rewrite call_run in Hdocker. injection Hdocker as _ <-.
  rewrite bind_get_environ, Hmode in Hmain.
  apply bind_inv_ok in Hmain as ([] & st3 & Hvanilla & Hmain).
  rewrite log_run in Hmain. injection Hmain as <-.
  unfold vanilla_mode in Hvanilla. rewrite bind_get_environ in Hvanilla.
  apply bind_inv_ok in Hvanilla as ([] & st4 & Hlogin & Hbuild).
  assert (∃ lev, st4 = extend st1 (EvDockerFromEnv :: lev) ∧
                 no_build lev = true) as (lev & -> & Hlev).
  { destruct (args.will_login a).
    - rewrite bind_log in Hlogin.
      apply bind_inv_ok in Hlogin as (r & st5 & Hcall & Hlogin).
      rewrite call_run in Hcall. injection Hcall as _ <-.
      rewrite bind_log, log_run, !extend_extend in Hlogin.
      injection Hlogin as <-. eexists. split; [reflexivity|done].
    - injection Hlogin as <-. by exists []. }
  unfold _build in Hbuild.
  apply build_loop_inv in Hbuild as (new & -> & Hcalls & _).
  rewrite !extend_extend. cbn [extend environ trace] in *.
  exists (pre ++ EvDockerFromEnv :: lev), new. split_and!.
  - rewrite Hpre, <- !app_assoc. done.
  - unfold no_build in *. rewrite forallb_app, Hnop. cbn. by rewrite Hlev.
  - done.
Qed.

(** Every build of a run that returns normally is for a reference made
    of a registry, the resolved repository and a tag of the tag set; in
    vanilla mode the registry is the resolved one and every tag is
    built. *)
Lemma main_builds (ext : Externals) (a : args.t) (st st' : state) :
  main ext a st = (Ok tt, st') →
  ∃ new,
    trace st' = trace st ++ new ∧
    (∀ p t rm pull ba,
        EvBuild p t rm pull ba ∈ new →
        ∃ registry tag,
          tag ∈ resolve_tags a (environ st') ∧
          t = image_ref registry (resolve_repo a (environ st')) tag ∧
          (args.is_amazon_mode a = false →
           registry = resolve_registry a (environ st'))) ∧
    (args.is_amazon_mode a = false →
     ∀ tag, tag ∈ resolve_tags a (environ st') →
       EvBuild (args.path a)
               (image_ref (resolve_registry a (environ st'))
                          (resolve_repo a (environ st')) tag)
               true true (resolve_build_args (environ st')) ∈ new).
Proof.
  intros Hmain. destruct (args.is_amazon_mode a) eqn:Hmode.
  - destruct (main_amazon_inv ext a st st' Hmain Hmode)
      as (before & resp & after & Htrace & _ & Hbefore & _ & Hafter).
    eexists. split; [exact Htrace|]. split; [|done].
    intros p t rm pull ba Hin.
    apply elem_of_app in Hin as [Hin|Hin].
    { by apply no_build_elem_of in Hin; [|apply no_operation_no_build]. }
    apply elem_of_cons in Hin as [?|Hin]; [done|].
    apply elem_of_cons in Hin as [?|Hin]; [done|].
    assert (EvBuild p t rm pull ba ∈ calls after) as Hc
      by by apply calls_elem_of.
    rewrite Hafter in Hc.
    apply build_in_cycle_calls in Hc as (registry & tag & Htag & ->).
    by exists registry, tag.
  - destruct (main_vanilla_inv ext a st st' Hmain Hmode)
      as (before & new & Htrace & Hbefore & Hcalls).
    eexists. split; [exact Htrace|]. split.
    + intros p t rm pull ba Hin.
      apply elem_of_app in Hin as [Hin|Hin].
      { by apply no_build_elem_of in Hin. }
      apply elem_of_app in Hin as [Hin|Hin]; [|set_solver].
      assert (EvBuild p t rm pull ba ∈ calls new) as Hc
        by by apply calls_elem_of.
      rewrite Hcalls in Hc.
      apply build_in_tag_calls in Hc as (tag & Htag & ->).
      exists (resolve_registry a (environ st')), tag.
      by rewrite <- elem_of_elements.
    + intros _ tag Htag. apply elem_of_elements in Htag.
      destruct (build_loop_members _ _ _ _ _ _ _ _ Hcalls Htag) as [Hb _].
      rewrite !elem_of_app. right. left. done.
Qed.

(** The builds of a run in Amazon mode that returns normally: the
    authorization call was answered, and after it one build was made for
    every entry of the answer and every tag. *)
Lemma main_amazon_builds (ext : Externals) (a : args.t) (st st' : state) :
  main ext a st = (Ok tt, st') →
  args.is_amazon_mode a = true →
  ∃ before resp after,
    trace st' =
      trace st ++ before ++
      EvGetAuthorizationToken (registry_ids_argument a)
      :: EvLog Debug (MResponse resp) :: after ∧
    get_authorization_token ext (trace st ++ before)
                            (registry_ids_argument a) = Ok resp ∧
    ∀ auth tag,
      auth ∈ authorizationData resp →
      tag ∈ resolve_tags a (environ st') →
      EvBuild (args.path a)
              (image_ref (remove "https://" (proxyEndpoint auth))
                         (resolve_repo a (environ st')) tag)
              true true (resolve_build_args (environ st')) ∈ after.
Proof.
  intros Hmain Hmode.
  destruct (main_amazon_inv ext a st st' Hmain Hmode)
    as (before & resp & after & Htrace & Htoken & _ & Hwf & Hafter).
  exists before, resp, after. split_and!; [done..|].
  intros auth tag Hauth Htag.
  rewrite Forall_forall in Hwf.
  destruct (Hwf auth Hauth) as [[user pswd] Hcreds].
  apply elem_of_elements in Htag.
  assert (EvBuild (args.path a)
            (image_ref (remove "https://" (proxyEndpoint auth))
                       (resolve_repo a (environ st')) tag)
            true true (resolve_build_args (environ st')) ∈ calls after) as Hc.
  { rewrite Hafter. apply list_elem_of_In, in_flat_map. exists auth.
    split; [by apply list_elem_of_In|]. apply list_elem_of_In.
    unfold cycle_calls. rewrite Hcreds. apply elem_of_cons. right.
    apply list_elem_of_In, in_flat_map. exists tag.
    split; [by apply list_elem_of_In|]. by left. }
  by apply calls_elem_of in Hc as [? _].
Qed.

(** C10.  With no repository flag and no [BUILD_REPOSITORY] the
    repository is the empty string, and in vanilla mode with no registry
    flag and no [BUILD_REGISTRY] so is the registry.  The script raises no
    error of its own then: with collaborators that accept every call the
    run returns normally, every build it makes is for a reference
    [registry/:tag], respectively [/repository:tag], and the builds are
    made: in vanilla mode one for every tag, with the resolved registry
    and repository; in Amazon mode, after the authorization call, one for
    every entry of its answer and every tag, with the registry of the
    entry and the resolved repository. *)
Theorem empty_names_proceed (ext : Externals) (a : args.t) (st : state) :
  collaborators_ok ext →
  logging_ok ext a →
  ∃ st' new,
    main ext a st = (Ok tt, st') ∧
    trace st' = trace st ++ new ∧
    (args.repository a = None →
     environ st' !! "BUILD_REPOSITORY" = None →
     resolve_repo a (environ st') = "" ∧
     ∀ p t rm pull ba,
       EvBuild p t rm pull ba ∈ new →
       ∃ registry tag, t = registry +:+ "/:" +:+ tag) ∧
    (args.is_amazon_mode a = false →
     args.registry a = None →
     environ st' !! "BUILD_REGISTRY" = None →
     resolve_registry a (environ st') = "" ∧
     ∀ p t rm pull ba,
       EvBuild p t rm pull ba ∈ new →
       ∃ tag, t = "/" +:+ resolve_repo a (environ st') +:+ ":" +:+ tag) ∧
    (args.is_amazon_mode a = false →
     ∀ tag, tag ∈ resolve_tags a (environ st') →
       EvBuild (args.path a)
               (image_ref (resolve_registry a (environ st'))
                          (resolve_repo a (environ st')) tag)
               true true (resolve_build_args (environ st')) ∈ new) ∧
    (args.is_amazon_mode a = true →
     ∃ before resp after,
       new = before ++
             EvGetAuthorizationToken (registry_ids_argument a)
             :: EvLog Debug (MResponse resp) :: after ∧
       get_authorization_token ext (trace st ++ before)
                               (registry_ids_argument a) = Ok resp ∧
       ∀ auth tag,
         auth ∈ authorizationData resp →
         tag ∈ resolve_tags a (environ st') →
         EvBuild (args.path a)
                 (image_ref (remove "https://" (proxyEndpoint auth))
                            (resolve_repo a (environ st')) tag)
                 true true (resolve_build_args (environ st')) ∈ after).
Proof.
  intros Hok Hlog.
  destruct (main_total ext a st Hok Hlog) as [st' Hmain].
  destruct (main_builds ext a st st' Hmain) as (new & Htrace & Hform & Hall).
  exists st', new. split_and!; [done..| | |done|].
  - intros Hflag Henv.
    assert (resolve_repo a (environ st') = "") as Hrepo.
    { unfold resolve_repo, get_default. by rewrite Hflag, Henv. }
    split; [done|]. intros p t rm pull ba Hin.
    destruct (Hform p t rm pull ba Hin) as (registry & tag & _ & -> & _).
    exists registry, tag. by rewrite Hrepo.
  - intros Hmode Hflag Henv.
    assert (resolve_registry a (environ st') = "") as Hregistry.
    { unfold resolve_registry, get_default. by rewrite Hflag, Henv. }
    split; [done|]. intros p t rm pull ba Hin.
    destruct (Hform p t rm pull ba Hin) as (registry & tag & _ & -> & Hreg).
    exists tag. by rewrite (Hreg Hmode), Hregistry.
  - intros Hmode.
    destruct (main_amazon_builds ext a st st' Hmain Hmode)
      as (before & resp & after & Htrace' & Htoken & Hbuilt).
    exists before, resp, after. split_and!; [|done..].
    rewrite Htrace in Htrace'. by apply app_inv_head in Htrace'.
Qed.

Lemma demo_collaborators_ok : collaborators_ok (Demo.ext (mk_response [])).
Proof.
  unfold collaborators_ok, engine_ok. cbn.
  split_and!; try done; intros; eexists; try done.
Qed.

Lemma demo_entry_collaborators_ok :
  collaborators_ok (Demo.ext (mk_response [Demo.good_entry])).
Proof.
  unfold collaborators_ok, engine_ok. cbn.
  split_and!; try done; intros; eexists; try done.
  split; [done|]. cbn. constructor; [|constructor].
  vm_compute. eauto.
Qed.

Lemma empty_names_proceed_witness :
  (∃ st' new,
    main (Demo.ext (mk_response [])) args.defaults Demo.start = (Ok tt, st') ∧
    trace st' = trace Demo.start ++ new ∧
    resolve_repo args.defaults (environ st') = "" ∧
    resolve_registry args.defaults (environ st') = "" ∧
    EvBuild "." "/:latest" true true ∅ ∈ new) ∧
  (∃ st' new,
    main (Demo.ext (mk_response [Demo.good_entry])) Demo.amazon_unnamed_args
         Demo.start = (Ok tt, st') ∧
    trace st' = trace Demo.start ++ new ∧
    resolve_repo Demo.amazon_unnamed_args (environ st') = "" ∧
    EvBuild "." "111.dkr.ecr.us-east-1.amazonaws.com/:latest" true true ∅
      ∈ new).
Proof.
  split.
  - destruct (empty_names_proceed (Demo.ext (mk_response [])) args.defaults
                Demo.start demo_collaborators_ok)
      as (st' & new & Hmain & Htrace & Hrepo & Hregistry & Hall & _).
    { right. vm_compute. eauto. }
    exists st', new.
    assert (environ st' = ∅) as Henv.
    { vm_compute in Hmain. by injection Hmain as <-. }
    rewrite Henv in *.
    destruct Hrepo as [Hrepo _]; [reflexivity..|].
    destruct Hregistry as [Hregistry _]; [reflexivity..|].
    split_and!; [done..|].
    apply (Hall eq_refl "latest"). vm_compute. set_solver.
  - destruct (empty_names_proceed (Demo.ext (mk_response [Demo.good_entry]))
                Demo.amazon_unnamed_args Demo.start
                demo_entry_collaborators_ok)
      as (st' & new & Hmain & Htrace & Hrepo & _ & _ & Hamazon).
    { right. vm_compute. eauto. }
    exists st', new.
    assert (environ st' = ∅) as Henv.
    { vm_compute in Hmain. by injection Hmain as <-. }
    rewrite Henv in *.
    destruct Hrepo as [Hrepo _]; [reflexivity..|].
    destruct (Hamazon eq_refl)
      as (before & resp & after & Hnew & Htoken & Hbuilt).
    cbn in Htoken. injection Htoken as <-.
    split_and!; [assumption..|].
    rewrite Hnew, elem_of_app. right. do 2 (apply elem_of_cons; right).
    apply (Hbuilt Demo.good_entry "latest").
    + apply elem_of_cons. by left.
    + vm_compute. set_solver.
Defined.

(** ** Scenarios of the specification *)

Example remove_scheme :
  remove "https://" "https://1.dkr.ecr.us-east-1.amazonaws.com"
  = "1.dkr.ecr.us-east-1.amazonaws.com".
Proof. reflexivity. Qed.

Example split_two : split ":" "AWS:secret" = ["AWS"; "secret"].
Proof. reflexivity. Qed.

Example split_three : split ":" "a:b:c" = ["a"; "b"; "c"].
Proof. reflexivity. Qed.

Example split_none : split ":" "abc" = ["abc"].
Proof. reflexivity. Qed.

Example decode_good :
  Demo.standard_b64decode "QVdTOnNlY3JldA==" = Some "AWS:secret".
Proof. reflexivity. Qed.

Example decode_bad : Demo.standard_b64decode "bm9jb2xvbg==" = Some "nocolon".
Proof. reflexivity. Qed.

(** [-r myrepo -t v1 v2 --latest] *)
Example tags_scenario :
  let a :=
    args.with_repository (Some "myrepo")
      (args.with_tags (Some ["v1"; "v2"])
         (args.with_will_add_latest true args.defaults)) in
  resolve_tags a ∅ = {[ "v1"; "v2"; "latest" ]} ∧ resolve_repo a ∅ = "myrepo".
Proof. split; vm_compute; reflexivity. Qed.

Example build_args_scenario :
  resolve_build_args {[ "BUILD_ARG_SG_BASE_IMAGE" := "registry/sg/base:latest" ]}
  = {[ "SG_BASE_IMAGE" := "registry/sg/base:latest" ]}.
Proof. vm_compute. reflexivity. Qed.

(** * Further properties of the script *)

(** ** The calls of a computation, whatever its outcome *)

Lemma follows_ret {A} (env : gmap string string) (x : A) :
  follows env (ret x) [].
Proof.
  intros st r st' _ [= <- <-]. exists []. by rewrite extend_nil.
Qed.

Lemma follows_raise {A} (env : gmap string string) (e : exn)
    (expected : list event) :
  follows env (raise e : M A) expected.
Proof.
  intros st r st' _ [= <- <-]. exists []. rewrite extend_nil.
  split_and!; [done|apply prefix_nil|done].
Qed.

Lemma follows_log (env : gmap string string) (lvl : level) (m : message) :
  follows env (log lvl m) [].
Proof.
  intros st r st' _ H. rewrite log_run in H. injection H as <- <-.
  by exists [EvLog lvl m].
Qed.

Lemma follows_call {A} (env : gmap string string) (e : event)
    (answer : list event → outcome A) :
  is_call e = true → follows env (call e answer) [e].
Proof.
  intros He st r st' _ H. rewrite call_run in H. injection H as <- <-.
  exists [e]. unfold calls. cbn. by rewrite He.
Qed.

Lemma follows_bind {A B} (env : gmap string string) (m : M A) (k : A → M B)
    (l1 l2 : list event) :
  follows env m l1 → (∀ x, follows env (k x) l2) →
  follows env (bind m k) (l1 ++ l2).
Proof.
  intros Hm Hk st r st' Henv H. unfold bind in H.
  destruct (m st) as [[x|e] st1] eqn:E.
  - destruct (Hm st _ _ Henv E) as (new1 & -> & _ & Hc1).
    destruct (Hk x (extend st new1) r st' Henv H) as (new2 & -> & Hp2 & Hc2).
    exists (new1 ++ new2). rewrite extend_extend, calls_app, (Hc1 x eq_refl).
    split_and!; [done|by apply prefix_app|].
    intros y Hy. by rewrite (Hc2 y Hy).
  - injection H as <- <-.
    destruct (Hm st _ _ Henv E) as (new1 & -> & Hp1 & _).
    exists new1. split_and!; [done|by apply prefix_app_r|done].
Qed.

Lemma follows_get_environ {B} (env : gmap string string)
    (k : gmap string string → M B) (expected : list event) :
  follows env (k env) expected → follows env (bind get_environ k) expected.
Proof.
  intros Hk st r st' Henv H. rewrite bind_get_environ, Henv in H.
  by apply Hk.
Qed.

Lemma follows_for_each {A} (env : gmap string string) (l : list A)
    (body : A → M unit) (f : A → list event) :
  (∀ x, follows env (body x) (f x)) →
  follows env (for_each l body) (flat_map f l).
Proof.
  intros Hbody. induction l as [|x l IH].
  - apply follows_ret.
  - cbn [for_each flat_map]. apply follows_bind; [apply Hbody|]. by intros _.
Qed.

Lemma follows_push_stream (ext : Externals) (env : gmap string string)
    (repository tag : string) :
  follows env (push_stream ext repository tag) [EvPush repository tag true].
Proof.
  intros st r st' _ H. rewrite push_stream_run in H. injection H as <- <-.
  eexists. split; [reflexivity|].
  change (calls (EvPush repository tag true :: ?l))
    with (EvPush repository tag true :: calls l).
  by rewrite calls_debug_lines.
Qed.

Lemma follows_build_tag (ext : Externals) (env : gmap string string)
    (path registry repo : string) (will_push : bool)
    (build_args : gmap string string) (tag : string) :
  follows env (build_tag ext path registry repo will_push build_args tag)
          (tag_calls path registry repo will_push build_args tag).
Proof.
  unfold build_tag, tag_calls.
  apply (follows_bind env _ _ [] (_ :: _)); [apply follows_log|]. intros _.
  apply (follows_bind env _ _ [_] _); [by apply follows_call|]. intros _.
  apply (follows_bind env _ _ [] _); [apply follows_log|]. intros _.
  destruct will_push; [|apply follows_ret].
  apply (follows_bind env _ _ [] [_]); [apply follows_log|]. intros _.
  apply (follows_bind env _ _ [_] []); [apply follows_push_stream|]. intros _.
  apply follows_log.
Qed.

(** X1.  Whatever its outcome, [_build] makes the engine calls of the tags
    in order and nothing else: every one of them when it returns, an
    initial part of them when an engine call fails. *)
Theorem build_calls_in_order (ext : Externals) (path registry repo : string)
    (tags : gset string) (will_push : bool)
    (build_args : gmap string string) (st st' : state) (r : outcome unit) :
  _build ext path registry repo tags will_push build_args st = (r, st') →
  ∃ new,
    st' = extend st new ∧
    calls new `prefix_of`
      flat_map (tag_calls path registry repo will_push build_args)
               (elements tags) ∧
    (r = Ok tt →
     calls new =
       flat_map (tag_calls path registry repo will_push build_args)
                (elements tags)).
Proof.
  intros H.
  destruct (follows_for_each (environ st) (elements tags)
              (build_tag ext path registry repo will_push build_args)
              (tag_calls path registry repo will_push build_args)
              (follows_build_tag ext (environ st) path registry repo
                 will_push build_args)
              st r st' eq_refl H) as (new & Hst & Hp & Hc).
  exists new. split_and!; [done..|]. intros ->. by apply (Hc tt).
Qed.

Lemma build_calls_in_order_witness :
  ∃ new,
    (_build (Faulty.ext (mk_response []) (λ _, false)
                        (Some (ExternalError "denied")) true)
            "." "registry.example.org" "statsd" {[ "v1" ]} true ∅
            Demo.start).2 = extend Demo.start new ∧
    calls new `prefix_of`
      flat_map (tag_calls "." "registry.example.org" "statsd" true ∅)
               (elements ({[ "v1" ]} : gset string)).
Proof.
  destruct (build_calls_in_order
              (Faulty.ext (mk_response []) (λ _, false)
                          (Some (ExternalError "denied")) true)
              "." "registry.example.org" "statsd" {[ "v1" ]} true ∅
              Demo.start
              (_build (Faulty.ext (mk_response []) (λ _, false)
                                  (Some (ExternalError "denied")) true)
                      "." "registry.example.org" "statsd" {[ "v1" ]} true ∅
                      Demo.start).2
              (Raise (ExternalError "denied")))
    as (new & Hst & Hp & _).
  { vm_compute. reflexivity. }
  exists new. split; assumption.
Defined.

(** ** Failure of the build-and-push loop *)

Lemma for_each_raise_inv {A} (l : list A) (body : A → M unit)
    (st st' : state) (e : exn) :
  for_each l body st = (Raise e, st') →
  ∃ l1 x l2 st1,
    l = l1 ++ x :: l2 ∧
    for_each l1 body st = (Ok tt, st1) ∧
    body x st1 = (Raise e, st').
Proof.
  revert st. induction l as [|x l IH]; intros st H; [done|].
  cbn [for_each] in H. unfold bind in H.
  destruct (body x st) as [[[]|e'] st1] eqn:E.
  - destruct (IH _ H) as (l1 & y & l2 & st2 & -> & Hl1 & Hy).
    exists (x :: l1), y, l2, st2. split_and!; [done| |done].
    cbn [for_each]. by rewrite (bind_ok _ _ _ _ _ E).
  - injection H as <- <-. by exists [], x, l, st.
Qed.

Lemma build_tag_raise_inv (ext : Externals) (path registry repo : string)
    (will_push : bool) (build_args : gmap string string) (tag : string)
    (st st' : state) (e : exn) :
  build_tag ext path registry repo will_push build_args tag st
    = (Raise e, st') →
  let t := image_ref registry repo tag in
  let building := [EvLog Info (MBuilding t)] in
  let pushing :=
    [EvLog Info (MBuilding t); EvBuild path t true true build_args;
     EvLog Info MCompletedBuild; EvLog Info (MAttemptPush registry)] in
  (images_build ext (trace st ++ building) path t true true build_args
     = Raise e ∧
   st' = extend st [EvLog Info (MBuilding t);
                    EvBuild path t true true build_args]) ∨
  (will_push = true ∧
   images_build ext (trace st ++ building) path t true true build_args
     = Ok tt ∧
   (images_push ext (trace st ++ pushing) (image_repo registry repo) tag
                true).2 = Some e ∧
   st' = extend st
           (pushing ++
            EvPush (image_repo registry repo) tag true ::
            map debug_line
                (images_push ext (trace st ++ pushing)
                             (image_repo registry repo) tag true).1)).
Proof.
  unfold build_tag. intros H. rewrite bind_log in H. unfold bind at 1 in H.
  rewrite call_run in H. cbn [extend trace] in H.
  destruct (images_build ext _ path _ true true build_args)
    as [[]|e'] eqn:Hbuild.
  - right. rewrite extend_extend, bind_log, extend_extend in H. cbn [app] in H.
    destruct will_push; [|done].
    rewrite bind_log, extend_extend in H. cbn [app] in H.
    unfold bind at 1 in H. rewrite push_stream_run in H.
    cbn [extend trace] in H.
    destruct (images_push ext _ (image_repo registry repo) tag true).2
      as [e'|] eqn:Hpush; [|done].
    injection H as <- <-. rewrite extend_extend.
    split_and!; [done..|]. done.
  - left. injection H as <- <-. by rewrite extend_extend.
Qed.

(** X2.  When [_build] fails, the tags before the failing one were built
    (and pushed) in full, the error is the one the engine gave to the
    build or to the push of the failing tag, and that call is the last
    one made: the records streamed before a push error are logged, the
    push is not reported as successful, and no later tag is touched. *)
Theorem build_fails_fast (ext : Externals) (path registry repo : string)
    (tags : gset string) (will_push : bool)
    (build_args : gmap string string) (st st' : state) (e : exn) :
  _build ext path registry repo tags will_push build_args st
    = (Raise e, st') →
  ∃ built tag rest st1,
    elements tags = built ++ tag :: rest ∧
    for_each built (build_tag ext path registry repo will_push build_args) st
      = (Ok tt, st1) ∧
    let t := image_ref registry repo tag in
    let building := [EvLog Info (MBuilding t)] in
    let pushing :=
      [EvLog Info (MBuilding t); EvBuild path t true true build_args;
       EvLog Info MCompletedBuild; EvLog Info (MAttemptPush registry)] in
    (images_build ext (trace st1 ++ building) path t true true build_args
       = Raise e ∧
     st' = extend st1 [EvLog Info (MBuilding t);
                       EvBuild path t true true build_args]) ∨
    (will_push = true ∧
     images_build ext (trace st1 ++ building) path t true true build_args
       = Ok tt ∧
     (images_push ext (trace st1 ++ pushing) (image_repo registry repo) tag
                  true).2 = Some e ∧
     st' = extend st1
             (pushing ++
              EvPush (image_repo registry repo) tag true ::
              map debug_line
                  (images_push ext (trace st1 ++ pushing)
                               (image_repo registry repo) tag true).1)).
Proof.
  unfold _build. intros H.
  apply for_each_raise_inv in H as (l1 & tag & l2 & st1 & Hl & Hl1 & Htag).
  exists l1, tag, l2, st1. split_and!; [done..|].
  by apply build_tag_raise_inv.
Qed.

Lemma build_fails_fast_witness :
  ∃ built tag rest st1,
    elements ({[ "v1" ]} : gset string) = built ++ tag :: rest ∧
    for_each built
      (build_tag (Faulty.ext (mk_response []) (λ _, false)
                             (Some (ExternalError "denied")) true)
                 "." "registry.example.org" "statsd" true ∅) Demo.start
      = (Ok tt, st1) ∧
    (_build (Faulty.ext (mk_response []) (λ _, false)
                        (Some (ExternalError "denied")) true)
            "." "registry.example.org" "statsd" {[ "v1" ]} true ∅
            Demo.start).1 = Raise (ExternalError "denied").
Proof.
  destruct (build_fails_fast
              (Faulty.ext (mk_response []) (λ _, false)
                          (Some (ExternalError "denied")) true)
              "." "registry.example.org" "statsd" {[ "v1" ]} true ∅
              Demo.start
              (_build (Faulty.ext (mk_response []) (λ _, false)
                                  (Some (ExternalError "denied")) true)
                      "." "registry.example.org" "statsd" {[ "v1" ]} true ∅
                      Demo.start).2
              (ExternalError "denied"))
    as (built & tag & rest & st1 & Hl & Hbuilt & _).
  { vm_compute. reflexivity. }
  exists built, tag, rest, st1. split_and!; [done..|].
  vm_compute. reflexivity.
Defined.

(** The run of a push that fails after its first record. *)
Example push_error_run :
  _build (Faulty.ext (mk_response []) (λ _, false)
                     (Some (ExternalError "denied")) true)
         "." "registry.example.org" "statsd" {[ "v1" ]} true ∅ Demo.start =
    (Raise (ExternalError "denied"),
     {| environ := ∅;
        trace :=
          [EvLog Info (MBuilding "registry.example.org/statsd:v1");
           EvBuild "." "registry.example.org/statsd:v1" true true ∅;
           EvLog Info MCompletedBuild;
           EvLog Info (MAttemptPush "registry.example.org");
           EvPush "registry.example.org/statsd" "v1" true;
           EvLog Debug (MLine "Preparing")] |}).
Proof. vm_compute. reflexivity. Qed.

(** ** The shape of a run, whatever its outcome *)

Lemma load_environment_any (ext : Externals) (a : args.t) (st st' : state)
    (r : outcome unit) :
  load_environment ext a st = (r, st') →
  ∃ pre,
    trace st' = trace st ++ pre ∧
    forallb is_dotenv pre = true ∧
    (truthy (args.env a) = false → r = Ok tt ∧ st' = st) ∧
    (environ st' = environ st ∨
     ∃ h p, load_dotenv ext h p (environ st) = Ok (environ st')).
Proof.
  unfold load_environment.
  destruct (args.env a) as [name|]; [cbn; destruct (truthy name)|].
  - intros H. unfold bind at 1 in H. rewrite call_run in H.
    destruct (find_dotenv ext (trace st) name) as [p|e] eqn:Hfind.
    + rewrite bind_log, bind_get_environ in H.
      unfold bind at 1 in H. rewrite call_run in H. cbn [extend trace environ] in H.
      destruct (load_dotenv ext _ p (environ st)) as [environ'|e] eqn:Hload.
      * injection H as <- <-. cbn. eexists. rewrite <- !app_assoc.
        split_and!; [reflexivity|done|done|]. right. eauto.
      * injection H as <- <-. cbn. eexists. rewrite <- !app_assoc.
        split_and!; [reflexivity|done|done|]. by left.
    + injection H as <- <-. cbn. exists [EvFindDotenv name].
      split_and!; [done..|]. by left.
  - intros [= <- <-]. exists []. rewrite app_nil_r. split_and!; try done.
    by left.
  - intros [= <- <-]. exists []. rewrite app_nil_r. split_and!; try done.
    by left.
Qed.

(** A run is the variable file, then the docker client, then the branch
    of the mode, then the last log record; an error ends it where it is
    raised. *)
Lemma main_skeleton (ext : Externals) (a : args.t) (st st' : state)
    (r : outcome unit) :
  main ext a st = (r, st') →
  ∃ pre st1,
    trace st1 = trace st ++ pre ∧
    forallb is_dotenv pre = true ∧
    (truthy (args.env a) = false → st1 = st) ∧
    (environ st1 = environ st ∨
     ∃ h p, load_dotenv ext h p (environ st) = Ok (environ st1)) ∧
    (((∃ e, r = Raise e) ∧ st' = st1) ∨
     ((∃ e, r = Raise e) ∧ st' = extend st1 [EvDockerFromEnv]) ∨
     ∃ r2 st2,
       mode_part ext a (environ st1) (extend st1 [EvDockerFromEnv])
         = (r2, st2) ∧
       ((r2 = Ok tt ∧ r = Ok tt ∧ st' = extend st2 [EvLog Info MFinished]) ∨
        ((∃ e, r2 = Raise e) ∧ r = r2 ∧ st' = st2))).
Proof.
  unfold main. intros H. unfold bind at 1 in H.
  destruct (setup_logging ext a st) as [[[]|e] st0] eqn:Hsetup;
    pose proof (setup_logging_inv _ _ _ _ _ Hsetup) as ->.
  2:{ injection H as <- <-. exists [], st. rewrite app_nil_r.
      split_and!; try done; eauto. }
  unfold bind at 1 in H.
  destruct (load_environment ext a st) as [[[]|e] st1] eqn:Hload;
    destruct (load_environment_any _ _ _ _ _ Hload)
      as (pre & Hpre & Hdot & Hoff & Henv).
  2:{ injection H as <- <-. exists pre, st1.
      split_and!; try done; [by intros [_ ?]%Hoff|eauto]. }
  exists pre, st1. split_and!; try done; [by intros [_ ?]%Hoff|].
  unfold run_build in H. unfold bind at 1 in H. rewrite call_run in H.
  destruct (docker_from_env ext (trace st1)) as [[]|e].
  2:{ injection H as <- <-. right. left. eauto. }
  right. right. rewrite bind_get_environ in H. cbn [extend environ] in H.
  fold (mode_part ext a (environ st1)) in H. unfold bind in H.
  destruct (mode_part ext a (environ st1) (extend st1 [EvDockerFromEnv]))
    as [[[]|e] st2].
  - rewrite log_run in H. injection H as <- <-.
    eexists _, _. split; [reflexivity|]. by left.
  - injection H as <- <-. eexists _, _. split; [reflexivity|]. right. eauto.
Qed.

Lemma follows_vanilla_mode (ext : Externals) (a : args.t)
    (env : gmap string string) :
  follows env
    (vanilla_mode ext a (args.path a) (resolve_repo a env)
                  (resolve_tags a env) (resolve_build_args env))
    (login_calls a env ++
     flat_map (tag_calls (args.path a) (resolve_registry a env)
                         (resolve_repo a env) (args.will_push a)
                         (resolve_build_args env))
              (elements (resolve_tags a env))).
Proof.
  unfold vanilla_mode. apply follows_get_environ. apply follows_bind.
  - unfold login_calls. destruct (args.will_login a); [|apply follows_ret].
    apply (follows_bind env _ _ [] [_]); [apply follows_log|]. intros _.
    apply (follows_bind env _ _ [_] []); [by apply follows_call|]. intros r.
    apply (follows_bind env _ _ [] []); [apply follows_log|]. intros _.
    apply follows_log.
  - intros _. unfold _build. apply follows_for_each.
    intros tag. apply follows_build_tag.
Qed.

Lemma follows_amazon_cycle (ext : Externals) (a : args.t)
    (env : gmap string string) (path repo : string) (tags : gset string)
    (build_args : gmap string string) (auth : auth_entry) :
  follows env (amazon_cycle ext a path repo tags build_args auth)
          (cycle_calls ext path repo tags (args.will_push a) build_args auth).
Proof.
  unfold amazon_cycle, cycle_calls, credentials.
  destruct (b64decode ext (authorizationToken auth)) as [creds|];
    [|apply follows_raise].
  destruct (split ":" creds) as [|user [|pswd [|x l]]];
    try apply follows_raise.
  apply (follows_bind env _ _ [_] _); [by apply follows_call|]. intros _.
  unfold _build. apply follows_for_each. intros tag. apply follows_build_tag.
Qed.

(** Amazon mode, whatever its outcome: either it fails before it has an
    authorization response, or it has one and goes through its entries.
    [f] gives the calls of the cycle of one entry. *)
Lemma amazon_mode_any (ext : Externals) (a : args.t) (path repo : string)
    (tags : gset string) (build_args : gmap string string)
    (f : auth_entry → list event) (st st' : state) (r : outcome unit) :
  (∀ auth,
      follows (environ st) (amazon_cycle ext a path repo tags build_args auth)
              (f auth)) →
  amazon_mode ext a path repo tags build_args st = (r, st') →
  ∃ new,
    st' = extend st new ∧
    (((∃ e, r = Raise e) ∧
      calls new `prefix_of`
        [EvBoto3Client (region_name a);
         EvGetAuthorizationToken (registry_ids_argument a)]) ∨
     ∃ h resp cycles,
       get_authorization_token ext h (registry_ids_argument a) = Ok resp ∧
       calls new =
         EvBoto3Client (region_name a) ::
         EvGetAuthorizationToken (registry_ids_argument a) :: cycles ∧
       cycles `prefix_of` flat_map f (authorizationData resp) ∧
       (r = Ok tt → cycles = flat_map f (authorizationData resp))).
Proof.
  unfold amazon_mode. intros Hf H.
  rewrite !bind_log, !extend_extend in H. cbn [app] in H.
  unfold bind at 1 in H. rewrite call_run in H.
  destruct (boto3_client ext _ (region_name a)) as [[]|e].
  2:{ injection H as <- <-. rewrite extend_extend. eexists.
      split; [reflexivity|]. left. split; [eauto|].
      by exists [EvGetAuthorizationToken (registry_ids_argument a)]. }
  rewrite extend_extend in H. cbn [app] in H.
  unfold bind at 1 in H. rewrite call_run in H.
  destruct (get_authorization_token ext _ (registry_ids_argument a))
    as [resp|e] eqn:Htoken.
  2:{ injection H as <- <-. rewrite extend_extend. eexists.
      split; [reflexivity|]. left. split; [eauto|]. by exists []. }
  rewrite bind_log, !extend_extend in H. cbn [app] in H.
  match type of H with
  | for_each _ _ ?s = _ =>
      destruct (follows_for_each (environ st) (authorizationData resp)
                  (amazon_cycle ext a path repo tags build_args) f Hf
                  s r st' eq_refl H) as (new & -> & Hp & Hc)
  end.
  rewrite extend_extend. eexists. split; [reflexivity|]. right.
  eexists _, resp, (calls new). split_and!; [exact Htoken| |done|].
  - by rewrite calls_app.
  - intros ->. by apply (Hc tt).
Qed.

Lemma main_calls (ext : Externals) (a : args.t) (st st' : state)
    (r : outcome unit) (expected : gmap string string → list event) :
  (∀ env, follows env (mode_part ext a env) (expected env)) →
  main ext a st = (r, st') →
  ∃ pre new,
    trace st' = trace st ++ pre ++ new ∧
    forallb is_dotenv pre = true ∧
    calls new `prefix_of` EvDockerFromEnv :: expected (environ st') ∧
    (r = Ok tt → calls new = EvDockerFromEnv :: expected (environ st')).
Proof.
  intros Hmode H.
  destruct (main_skeleton _ _ _ _ _ H)
    as (pre & st1 & Hpre & Hdot & _ & _ & Hrun).
  exists pre. destruct Hrun as [[[e ->] ->]|[[[e ->] ->]|Hrun]].
  - exists []. rewrite app_nil_r. split_and!; [done..|apply prefix_nil|done].
  - exists [EvDockerFromEnv]. cbn [extend trace environ].
    split_and!; [by rewrite Hpre, app_assoc|done| |done].
    apply (prefix_cons _ []), prefix_nil.
  - destruct Hrun as (r2 & st2 & Hmode2 & Hend).
    destruct (Hmode (environ st1) (extend st1 [EvDockerFromEnv]) _ _
                    eq_refl Hmode2) as (new & -> & Hp & Hc).
    destruct Hend as [(-> & -> & ->)|([e ->] & -> & ->)].
    + exists (EvDockerFromEnv :: new ++ [EvLog Info MFinished]).
      rewrite !extend_extend. cbn [extend trace environ app].
      split_and!; [by rewrite Hpre, <- !app_assoc|done|..].
      * change (calls (EvDockerFromEnv :: ?l))
          with (EvDockerFromEnv :: calls l).
        rewrite calls_app. cbn. rewrite app_nil_r. by apply prefix_cons.
      * intros _. change (calls (EvDockerFromEnv :: ?l))
          with (EvDockerFromEnv :: calls l).
        rewrite calls_app. cbn. by rewrite app_nil_r, (Hc tt eq_refl).
    + exists (EvDockerFromEnv :: new).
      rewrite !extend_extend. cbn [extend trace environ app].
      split_and!; [by rewrite Hpre, <- !app_assoc|done| |done].
      change (calls (EvDockerFromEnv :: ?l))
        with (EvDockerFromEnv :: calls l).
      by apply prefix_cons.
Qed.

Lemma main_vanilla_any (ext : Externals) (a : args.t) (st st' : state)
    (r : outcome unit) :
  main ext a st = (r, st') →
  args.is_amazon_mode a = false →
  ∃ pre new,
    trace st' = trace st ++ pre ++ new ∧
    forallb is_dotenv pre = true ∧
    calls new `prefix_of` vanilla_calls a (environ st') ∧
    (r = Ok tt → calls new = vanilla_calls a (environ st')).
Proof.
  intros H Hmode.
  apply (main_calls ext a st st' r
           (λ env, login_calls a env ++
                   flat_map (tag_calls (args.path a) (resolve_registry a env)
                               (resolve_repo a env) (args.will_push a)
                               (resolve_build_args env))
                            (elements (resolve_tags a env)))); [|done].
  intros env. unfold mode_part. rewrite Hmode. apply follows_vanilla_mode.
Qed.

(** X4.  The calls of a vanilla run, whatever its outcome.  After the
    variable file the run creates the docker client, logs in once with
    the resolved user, password and registry unless [--no-login] was
    given, and then builds (and pushes) every tag: all of that when it
    returns, an initial part when a call fails, and no other call. *)
Theorem vanilla_protocol (ext : Externals) (a : args.t) (st st' : state)
    (r : outcome unit) :
  main ext a st = (r, st') →
  args.is_amazon_mode a = false →
  ∃ pre new,
    trace st' = trace st ++ pre ++ new ∧
    forallb is_dotenv pre = true ∧
    calls new `prefix_of` vanilla_calls a (environ st') ∧
    (r = Ok tt → calls new = vanilla_calls a (environ st')).
Proof. apply main_vanilla_any. Qed.

Lemma vanilla_protocol_witness :
  ∃ pre new,
    trace (main (Faulty.ext (mk_response []) (λ _, false) None false)
                Faulty.push_args Demo.start).2
      = trace Demo.start ++ pre ++ new ∧
    forallb is_dotenv pre = true ∧
    calls new `prefix_of` vanilla_calls Faulty.push_args ∅.
Proof.
  destruct (vanilla_protocol
              (Faulty.ext (mk_response []) (λ _, false) None false)
              Faulty.push_args Demo.start
              (main (Faulty.ext (mk_response []) (λ _, false) None false)
                    Faulty.push_args Demo.start).2
              (Raise (ExternalError "unauthorized")))
    as (pre & new & Htrace & Hdot & Hp & _).
  { vm_compute. reflexivity. }
  { reflexivity. }
  exists pre, new. split; [assumption|]. split; assumption.
Defined.

(** The calls of an Amazon run, whatever its outcome; [f] gives the
    calls of the cycle of one entry in an environment. *)
Lemma main_amazon_any (ext : Externals) (a : args.t) (st st' : state)
    (r : outcome unit)
    (f : gmap string string → auth_entry → list event) :
  (∀ env auth,
      follows env
        (amazon_cycle ext a (args.path a) (resolve_repo a env)
                      (resolve_tags a env) (resolve_build_args env) auth)
        (f env auth)) →
  main ext a st = (r, st') →
  args.is_amazon_mode a = true →
  ∃ pre new,
    trace st' = trace st ++ pre ++ new ∧
    forallb is_dotenv pre = true ∧
    (((∃ e, r = Raise e) ∧
      calls new `prefix_of`
        [EvDockerFromEnv; EvBoto3Client (region_name a);
         EvGetAuthorizationToken (registry_ids_argument a)]) ∨
     ∃ h resp,
       get_authorization_token ext h (registry_ids_argument a) = Ok resp ∧
       calls new `prefix_of`
         EvDockerFromEnv :: EvBoto3Client (region_name a) ::
         EvGetAuthorizationToken (registry_ids_argument a) ::
         flat_map (f (environ st')) (authorizationData resp) ∧
       (r = Ok tt →
        calls new =
          EvDockerFromEnv :: EvBoto3Client (region_name a) ::
          EvGetAuthorizationToken (registry_ids_argument a) ::
          flat_map (f (environ st')) (authorizationData resp))).
Proof.
  intros Hf H Hmode.
  destruct (main_skeleton _ _ _ _ _ H)
    as (pre & st1 & Hpre & Hdot & _ & _ & Hrun).
  exists pre. destruct Hrun as [[[e ->] ->]|[[[e ->] ->]|Hrun]].
  - exists []. rewrite app_nil_r. split_and!; [done..|].
    left. split; [eauto|apply prefix_nil].
  - exists [EvDockerFromEnv]. cbn [extend trace environ].
    split_and!; [by rewrite Hpre, app_assoc|done|].
    left. split; [eauto|]. apply (prefix_cons _ []), prefix_nil.
  - destruct Hrun as (r2 & st2 & Hmode2 & Hend).
    unfold mode_part in Hmode2. rewrite Hmode in Hmode2.
    apply (amazon_mode_any ext a _ _ _ _ (f (environ st1))) in Hmode2
      as (new & -> & Hnew); [|intros auth; apply Hf].
    assert (∃ tail,
              st' = extend st1 (EvDockerFromEnv :: new ++ tail) ∧
              calls tail = [] ∧ r = r2) as (tail & -> & Htail & ->).
    { destruct Hend as [(-> & -> & ->)|([e ->] & -> & ->)].
      - exists [EvLog Info MFinished]. by rewrite !extend_extend.
      - exists []. by rewrite !extend_extend, app_nil_r. }
    exists (EvDockerFromEnv :: new ++ tail). cbn [extend trace environ].
    split_and!; [by rewrite Hpre, <- !app_assoc|done|].
    change (calls (EvDockerFromEnv :: ?l)) with (EvDockerFromEnv :: calls l).
    rewrite calls_app, Htail, app_nil_r.
    destruct Hnew as [[Hr Hp]|(h & resp & cycles & Htoken & -> & Hp & Hc)].
    + left. split; [done|]. by apply prefix_cons.
    + right. exists h, resp. split; [done|]. split.
      * by do 3 apply prefix_cons.
      * intros Hr. by rewrite (Hc Hr).
Qed.

(** ** Failing calls *)

Lemma stops_ret {A} (ext : Externals) (x : A) : stops_at_failure ext (ret x).
Proof.
  intros st r st' [= <- <-]. exists []. rewrite app_nil_r. split; [done|].
  intros before c after e Heq. by destruct before.
Qed.

Lemma stops_raise {A} (ext : Externals) (e : exn) :
  stops_at_failure ext (raise e : M A).
Proof.
  intros st r st' [= <- <-]. exists []. rewrite app_nil_r. split; [done|].
  intros before c after e' Heq. by destruct before.
Qed.

(** An event that cannot fail: a log record, or a call to dotenv. *)
Lemma stops_quiet {A} (ext : Externals) (ev : event)
    (answer : list event → outcome A) :
  (∀ h, failure ext h ev = None) → stops_at_failure ext (call ev answer).
Proof.
  intros Hquiet st r st' H. rewrite call_run in H. injection H as <- <-.
  exists [ev]. split; [done|]. intros before c after e Heq Hfail.
  destruct before as [|b [|b' before]]; [|done..].
  injection Heq as <- <-. by rewrite Hquiet in Hfail.
Qed.

Lemma stops_log (ext : Externals) (lvl : level) (m : message) :
  stops_at_failure ext (log lvl m).
Proof. by apply (stops_quiet ext (EvLog lvl m) (λ _, Ok tt)). Qed.

Lemma stops_call {A} (ext : Externals) (ev : event)
    (answer : list event → outcome A) :
  (∀ h, failure ext h ev = error_of (answer h)) →
  stops_at_failure ext (call ev answer).
Proof.
  intros Hanswer st r st' H. rewrite call_run in H. injection H as <- <-.
  exists [ev]. split; [done|]. intros before c after e Heq Hfail.
  destruct before as [|b [|b' before]]; [|done..].
  injection Heq as <- <-. rewrite app_nil_r, Hanswer in Hfail.
  destruct (answer (trace st)); [done|]. by injection Hfail as ->.
Qed.

Lemma stops_bind {A B} (ext : Externals) (m : M A) (k : A → M B) :
  stops_at_failure ext m → (∀ x, stops_at_failure ext (k x)) →
  stops_at_failure ext (bind m k).
Proof.
  intros Hm Hk st r st' H. unfold bind in H.
  destruct (m st) as [[x|e0] st1] eqn:E.
  - destruct (Hm st _ _ E) as (new1 & Ht1 & Hs1).
    destruct (Hk x st1 r st' H) as (new2 & Ht2 & Hs2).
    exists (new1 ++ new2). split; [by rewrite Ht2, Ht1, app_assoc|].
    intros before c after e Heq Hfail.
    apply app_eq_app in Heq as [l [[-> Heq]|[-> ->]]].
    + destruct l as [|c' l].
      * cbn in Heq. apply (Hs2 [] c after e); [done|].
        by rewrite app_nil_r, Ht1, app_nil_r.
      * injection Heq as <- ->.
        by destruct (Hs1 before c l e eq_refl Hfail) as [? _].
    + apply (Hs2 l c after e); [done|]. by rewrite Ht1, <- app_assoc.
  - injection H as <- <-. destruct (Hm st _ _ E) as (new1 & Ht1 & Hs1).
    exists new1. split; [done|]. intros before c after e Heq Hfail.
    by destruct (Hs1 before c after e Heq Hfail) as [[= ->] ?].
Qed.

Lemma stops_get_environ {B} (ext : Externals)
    (k : gmap string string → M B) :
  (∀ env, stops_at_failure ext (k env)) →
  stops_at_failure ext (bind get_environ k).
Proof.
  intros Hk st r st' H. rewrite bind_get_environ in H. by apply Hk in H.
Qed.

Lemma stops_for_each {A} (ext : Externals) (l : list A) (body : A → M unit) :
  (∀ x, stops_at_failure ext (body x)) →
  stops_at_failure ext (for_each l body).
Proof.
  intros Hbody. induction l as [|x l IH]; [apply stops_ret|].
  cbn [for_each]. by apply stops_bind.
Qed.

Lemma stops_push_stream (ext : Externals) (repository tag : string) :
  stops_at_failure ext (push_stream ext repository tag).
Proof.
  intros st r st' H. rewrite push_stream_run in H. injection H as <- <-.
  eexists. split; [reflexivity|]. intros before c after e Heq Hfail.
  destruct before as [|b before].
  - injection Heq as <- <-. cbn [failure] in Hfail.
    rewrite app_nil_r in Hfail. rewrite Hfail.
    split; [done|apply calls_debug_lines].
  - injection Heq as _ Heq.
    assert (c ∈ map debug_line
                  (images_push ext (trace st) repository tag true).1) as Hc.
    { rewrite Heq. set_solver. }
    apply list_elem_of_In, in_map_iff in Hc as (line & <- & _). done.
Qed.

Lemma stops_build (ext : Externals) (path registry repo : string)
    (tags : gset string) (will_push : bool)
    (build_args : gmap string string) :
  stops_at_failure ext
    (_build ext path registry repo tags will_push build_args).
Proof.
  unfold _build. apply stops_for_each. intros tag. unfold build_tag.
  apply stops_bind; [apply stops_log|]. intros _.
  apply stops_bind; [by apply stops_call|]. intros _.
  apply stops_bind; [apply stops_log|]. intros _.
  destruct will_push; [|apply stops_ret].
  apply stops_bind; [apply stops_log|]. intros _.
  apply stops_bind; [apply stops_push_stream|]. intros _.
  apply stops_log.
Qed.

Lemma stops_amazon_mode (ext : Externals) (a : args.t) (path repo : string)
    (tags : gset string) (build_args : gmap string string) :
  stops_at_failure ext (amazon_mode ext a path repo tags build_args).
Proof.
  unfold amazon_mode.
  apply stops_bind; [apply stops_log|]. intros _.
  apply stops_bind; [apply stops_log|]. intros _.
  apply stops_bind; [by apply stops_call|]. intros _.
  apply stops_bind; [by apply stops_call|]. intros resp.
  apply stops_bind; [apply stops_log|]. intros _.
  apply stops_for_each. intros auth. unfold amazon_cycle.
  destruct (b64decode ext (authorizationToken auth)) as [creds|];
    [|apply stops_raise].
  destruct (split ":" creds) as [|user [|pswd [|x l]]];
    try apply stops_raise.
  apply stops_bind; [by apply stops_call|]. intros _.
  apply stops_build.
Qed.

Lemma stops_vanilla_mode (ext : Externals) (a : args.t) (path repo : string)
    (tags : gset string) (build_args : gmap string string) :
  stops_at_failure ext (vanilla_mode ext a path repo tags build_args).
Proof.
  unfold vanilla_mode. apply stops_get_environ. intros env.
  apply stops_bind; [|intros _; apply stops_build].
  destruct (args.will_login a); [|apply stops_ret].
  apply stops_bind; [apply stops_log|]. intros _.
  apply stops_bind; [by apply stops_call|]. intros r.
  apply stops_bind; [apply stops_log|]. intros _.
  apply stops_log.
Qed.

Lemma stops_load_environment (ext : Externals) (a : args.t) :
  stops_at_failure ext (load_environment ext a).
Proof.
  unfold load_environment.
  destruct (args.env a) as [name|]; [|apply stops_ret].
  destruct (truthy name); [|apply stops_ret].
  apply stops_bind; [by apply stops_quiet|]. intros p.
  apply stops_bind; [apply stops_log|]. intros _.
  apply stops_get_environ. intros env.
  apply stops_bind; [by apply stops_quiet|]. intros env'.
  intros st r st' [= <- <-]. exists []. cbn. rewrite app_nil_r.
  split; [done|]. intros before c after e Heq. by destruct before.
Qed.

(** A call to docker or boto3 that fails ends the run, in either mode. *)
Lemma stops_main (ext : Externals) (a : args.t) :
  stops_at_failure ext (main ext a).
Proof.
  unfold main. apply stops_bind.
  { unfold setup_logging. destruct (args.silent a); [apply stops_ret|].
    destruct (lookup_level ext _); [apply stops_ret|apply stops_raise]. }
  intros _. apply stops_bind; [apply stops_load_environment|]. intros _.
  unfold run_build. apply stops_bind; [by apply stops_call|]. intros _.
  apply stops_get_environ. intros env.
  apply stops_bind; [|intros _; apply stops_log].
  destruct (args.is_amazon_mode a);
    [apply stops_amazon_mode|apply stops_vanilla_mode].
Qed.

(** ** The calls of an Amazon run, whatever its outcome *)

(** The loop over the authorization entries, whatever its outcome. *)
Lemma amazon_loop_any (ext : Externals) (a : args.t) (path repo : string)
    (tags : gset string) (build_args : gmap string string)
    (l : list auth_entry) (st st' : state) (r : outcome unit) :
  for_each l (amazon_cycle ext a path repo tags build_args) st = (r, st') →
  ∃ new,
    st' = extend st new ∧
    calls new `prefix_of`
      flat_map (cycle_calls ext path repo tags (args.will_push a) build_args)
               l ∧
    (r = Ok tt →
     calls new =
       flat_map (cycle_calls ext path repo tags (args.will_push a)
                             build_args) l ∧
     Forall (λ auth, is_Some (credentials ext auth)) l) ∧
    (∀ done bad rest,
        l = done ++ bad :: rest →
        malformed ext bad →
        (∃ e, r = Raise e) ∧
        calls new `prefix_of`
          flat_map (cycle_calls ext path repo tags (args.will_push a)
                                build_args) done).
Proof.
  intros H.
  pose proof (λ l, follows_for_each (environ st) l
                (amazon_cycle ext a path repo tags build_args)
                (cycle_calls ext path repo tags (args.will_push a) build_args)
                (follows_amazon_cycle ext a (environ st) path repo tags
                   build_args)) as Hloop.
  destruct (Hloop l st r st' eq_refl H) as (new & Hst & Hp & Hc).
  exists new. split_and!; [done..| |].
  - intros ->. split; [by apply (Hc tt)|].
    by apply amazon_loop_inv in H as (? & _ & ? & _).
  - intros done bad rest -> Hbad. rewrite for_each_malformed in H by done.
    destruct (for_each done _ st) as [[[]|e] st1] eqn:E;
      injection H as <- <-;
      destruct (Hloop done st _ _ eq_refl E) as (new1 & Hst1 & Hp1 & _);
      rewrite Hst1 in Hst; injection Hst as Hst;
      apply app_inv_head in Hst as <-; eauto.
Qed.

(** Amazon mode, whatever its outcome: either it fails before it has an
    authorization response, or it has one and goes through its entries
    until a call fails or an entry is malformed. *)
Lemma amazon_mode_run (ext : Externals) (a : args.t) (path repo : string)
    (tags : gset string) (build_args : gmap string string)
    (st st' : state) (r : outcome unit) :
  amazon_mode ext a path repo tags build_args st = (r, st') →
  ∃ new,
    st' = extend st new ∧
    (((∃ e, r = Raise e) ∧
      calls new `prefix_of`
        [EvBoto3Client (region_name a);
         EvGetAuthorizationToken (registry_ids_argument a)]) ∨
     ∃ h resp cycles,
       get_authorization_token ext h (registry_ids_argument a) = Ok resp ∧
       calls new =
         EvBoto3Client (region_name a) ::
         EvGetAuthorizationToken (registry_ids_argument a) :: cycles ∧
       cycles `prefix_of`
         flat_map (cycle_calls ext path repo tags (args.will_push a)
                               build_args)
                  (authorizationData resp) ∧
       (r = Ok tt →
        cycles =
          flat_map (cycle_calls ext path repo tags (args.will_push a)
                                build_args)
                   (authorizationData resp) ∧
        Forall (λ auth, is_Some (credentials ext auth))
               (authorizationData resp)) ∧
       (∀ done bad rest,
           authorizationData resp = done ++ bad :: rest →
           malformed ext bad →
           (∃ e, r = Raise e) ∧
           cycles `prefix_of`
             flat_map (cycle_calls ext path repo tags (args.will_push a)
                                   build_args) done)).
Proof.
  unfold amazon_mode. intros H.
  rewrite !bind_log, !extend_extend in H. cbn [app] in H.
  unfold bind at 1 in H. rewrite call_run in H.
  destruct (boto3_client ext _ (region_name a)) as [[]|e].
  2:{ injection H as <- <-. rewrite extend_extend. eexists.
      split; [reflexivity|]. left. split; [eauto|].
      by exists [EvGetAuthorizationToken (registry_ids_argument a)]. }
  rewrite extend_extend in H. cbn [app] in H.
  unfold bind at 1 in H. rewrite call_run in H.
  destruct (get_authorization_token ext _ (registry_ids_argument a))
    as [resp|e] eqn:Htoken.
  2:{ injection H as <- <-. rewrite extend_extend. eexists.
      split; [reflexivity|]. left. split; [eauto|]. by exists []. }
  rewrite bind_log, !extend_extend in H. cbn [app] in H.
  apply amazon_loop_any in H as (new & -> & Hp & Hc & Hbad).
  rewrite extend_extend. eexists. split; [reflexivity|]. right.
  eexists _, resp, (calls new). split_and!; [exact Htoken| |done..].
  by rewrite calls_app.
Qed.

(** X5.  The calls of an Amazon run, whatever its outcome.  After the
    variable file the run creates the docker client and the boto3 client
    and asks once for an authorization token.  If one of these fails it
    stops there.  Otherwise it goes through the entries of the response in
    order, one login and one build (and push) of every tag per entry, and
    makes no other call: all of these when it returns, and every entry
    carried well-formed credentials then; an initial part of them when it
    raises.  An entry with a malformed token ends the run: the run raises
    and has made no call for that entry or for a later one.  A call to
    docker or boto3 that fails ends the run too: the error of the call is
    the outcome of the run, and no call is made after it. *)
Theorem amazon_protocol (ext : Externals) (a : args.t) (st st' : state)
    (r : outcome unit) :
  main ext a st = (r, st') →
  args.is_amazon_mode a = true →
  ∃ pre new,
    trace st' = trace st ++ pre ++ new ∧
    forallb is_dotenv pre = true ∧
    (((∃ e, r = Raise e) ∧
      calls new `prefix_of`
        [EvDockerFromEnv; EvBoto3Client (region_name a);
         EvGetAuthorizationToken (registry_ids_argument a)]) ∨
     ∃ h resp,
       get_authorization_token ext h (registry_ids_argument a) = Ok resp ∧
       calls new `prefix_of` amazon_calls ext a (environ st') resp ∧
       (r = Ok tt →
        calls new = amazon_calls ext a (environ st') resp ∧
        Forall (λ auth, is_Some (credentials ext auth))
               (authorizationData resp)) ∧
       (∀ done bad rest,
           authorizationData resp = done ++ bad :: rest →
           malformed ext bad →
           (∃ e, r = Raise e) ∧
           calls new `prefix_of`
             EvDockerFromEnv :: EvBoto3Client (region_name a) ::
             EvGetAuthorizationToken (registry_ids_argument a) ::
             flat_map (cycle_calls ext (args.path a)
                         (resolve_repo a (environ st'))
                         (resolve_tags a (environ st')) (args.will_push a)
                         (resolve_build_args (environ st')))
                      done)) ∧
    (∀ before c after e,
        pre ++ new = before ++ c :: after →
        failure ext (trace st ++ before) c = Some e →
        r = Raise e ∧ calls after = []).
Proof.
  intros H Hmode.
  destruct (stops_main ext a st r st' H) as (all & Hall & Hstop).
  destruct (main_skeleton _ _ _ _ _ H)
    as (pre & st1 & Hpre & Hdot & _ & _ & Hrun).
  assert (∀ new,
            trace st' = trace st ++ pre ++ new →
            ∀ before c after e,
              pre ++ new = before ++ c :: after →
              failure ext (trace st ++ before) c = Some e →
              r = Raise e ∧ calls after = []) as Hlast.
  { intros new Htrace. rewrite Hall in Htrace.
    by apply app_inv_head in Htrace as <-. }
  exists pre. destruct Hrun as [[[e ->] ->]|[[[e ->] ->]|Hrun]].
  - assert (trace st1 = trace st ++ pre ++ []) as Htrace
      by by rewrite app_nil_r.
    exists []. split_and!; [done..| |by apply Hlast].
    left. split; [eauto|apply prefix_nil].
  - assert (trace (extend st1 [EvDockerFromEnv])
            = trace st ++ pre ++ [EvDockerFromEnv]) as Htrace
      by (cbn [extend trace]; by rewrite Hpre, app_assoc).
    exists [EvDockerFromEnv]. split_and!; [done..| |by apply Hlast].
    left. split; [eauto|]. apply (prefix_cons _ []), prefix_nil.
  - destruct Hrun as (r2 & st2 & Hmode2 & Hend).
    unfold mode_part in Hmode2. rewrite Hmode in Hmode2.
    apply amazon_mode_run in Hmode2 as (new & -> & Hnew).
    assert (∃ tail,
              st' = extend st1 (EvDockerFromEnv :: new ++ tail) ∧
              calls tail = [] ∧ r = r2) as (tail & -> & Htail & ->).
    { destruct Hend as [(-> & -> & ->)|([e ->] & -> & ->)].
      - exists [EvLog Info MFinished]. by rewrite !extend_extend.
      - exists []. by rewrite !extend_extend, app_nil_r. }
    assert (trace (extend st1 (EvDockerFromEnv :: new ++ tail))
            = trace st ++ pre ++ EvDockerFromEnv :: new ++ tail) as Htrace
      by (cbn [extend trace]; by rewrite Hpre, <- !app_assoc).
    exists (EvDockerFromEnv :: new ++ tail).
    split_and!; [done..| |by apply Hlast].
    cbn [extend trace environ].
    change (calls (EvDockerFromEnv :: ?l)) with (EvDockerFromEnv :: calls l).
    rewrite calls_app, Htail, app_nil_r.
    destruct Hnew
      as [[Hr Hp]|(h & resp & cycles & Htoken & -> & Hp & Hc & Hbad)].
    + left. split; [done|]. by apply prefix_cons.
    + right. exists h, resp. unfold amazon_calls. split_and!.
      * done.
      * by do 3 apply prefix_cons.
      * intros Hr. destruct (Hc Hr) as [-> Hwf]. done.
      * intros done bad rest Hdata Hmal.
        destruct (Hbad done bad rest Hdata Hmal) as [Hr Hp'].
        split; [done|]. by do 3 apply prefix_cons.
Qed.

Lemma amazon_protocol_witness :
  (∃ pre new,
     trace (main (Demo.ext (mk_response [Demo.good_entry; Demo.bad_entry]))
                 Demo.amazon_args Demo.start).2
       = trace Demo.start ++ pre ++ new ∧
     forallb is_dotenv pre = true ∧
     calls new `prefix_of`
       [EvDockerFromEnv; EvBoto3Client None;
        EvGetAuthorizationToken (Some ["111"; "222"]);
        EvLogin (Some "AWS") (Some "secret")
                "111.dkr.ecr.us-east-1.amazonaws.com";
        EvBuild "." "111.dkr.ecr.us-east-1.amazonaws.com/statsd:latest"
                true true ∅;
        EvPush "111.dkr.ecr.us-east-1.amazonaws.com/statsd" "latest" true]) ∧
  (main (Faulty.ext (mk_response [Demo.good_entry]) (λ _, false) None false)
        Demo.amazon_args Demo.start).1
    = Raise (ExternalError "unauthorized").
Proof.
  split.
  - destruct (amazon_protocol
                (Demo.ext (mk_response [Demo.good_entry; Demo.bad_entry]))
                Demo.amazon_args Demo.start
                (main (Demo.ext (mk_response [Demo.good_entry;
                                              Demo.bad_entry]))
                      Demo.amazon_args Demo.start).2
                (Raise ValueError))
      as (pre & new & Htrace & Hdot & Hshape & _).
    { vm_compute. reflexivity. }
    { reflexivity. }
    exists pre, new. split; [assumption|]. split; [assumption|].
    destruct Hshape as [[_ Hp]|(h & resp & Htoken & _ & _ & Hbad)].
    + apply (prefix_app_r _ _
               [EvLogin (Some "AWS") (Some "secret")
                        "111.dkr.ecr.us-east-1.amazonaws.com";
                EvBuild "." "111.dkr.ecr.us-east-1.amazonaws.com/statsd:latest"
                        true true ∅;
                EvPush "111.dkr.ecr.us-east-1.amazonaws.com/statsd" "latest"
                       true]) in Hp.
      exact Hp.
    + cbn in Htoken. injection Htoken as <-.
      destruct (Hbad [Demo.good_entry] Demo.bad_entry [] eq_refl) as [_ Hp].
      { vm_compute. lia. }
      vm_compute in Hp. vm_compute. exact Hp.
  - destruct (amazon_protocol
                (Faulty.ext (mk_response [Demo.good_entry]) (λ _, false)
                            None false)
                Demo.amazon_args Demo.start
                (main (Faulty.ext (mk_response [Demo.good_entry])
                                  (λ _, false) None false)
                      Demo.amazon_args Demo.start).2
                (main (Faulty.ext (mk_response [Demo.good_entry])
                                  (λ _, false) None false)
                      Demo.amazon_args Demo.start).1)
      as (pre & new & Htrace & _ & _ & Hlast).
    { vm_compute. reflexivity. }
    { reflexivity. }
    vm_compute in Htrace.
    destruct (Hlast
                [EvFindDotenv ".env"; EvLog Info (MLoadingEnv "");
                 EvLoadDotenv ""; EvDockerFromEnv; EvLog Info MAmazonMode;
                 EvLog Info MGetToken; EvBoto3Client None;
                 EvGetAuthorizationToken (Some ["111"; "222"]);
                 EvLog Debug (MResponse (mk_response [Demo.good_entry]))]
                (EvLogin (Some "AWS") (Some "secret")
                         "111.dkr.ecr.us-east-1.amazonaws.com")
                [] (ExternalError "unauthorized") (eq_sym Htrace))
      as [Hr _].
    { reflexivity. }
    exact Hr.
Defined.

(** ** What a run never does *)

Lemma not_dotenv_is_call (e : event) : is_dotenv e = false → is_call e = true.
Proof. by destruct e. Qed.

(** An event of the final trace that is not of the variable file was
    there before the run or is one of the calls after the variable
    file. *)
Lemma new_call_cases (tr tr' pre new : list event) (e : event) :
  tr' = tr ++ pre ++ new →
  forallb is_dotenv pre = true →
  is_dotenv e = false →
  e ∈ tr' → e ∈ tr ∨ e ∈ calls new.
Proof.
  intros -> Hpre He Hin.
  apply elem_of_app in Hin as [Hin|Hin]; [by left|].
  apply elem_of_app in Hin as [Hin|Hin].
  - rewrite forallb_forall in Hpre. apply list_elem_of_In in Hin.
    rewrite (Hpre _ Hin) in He. done.
  - right. apply calls_elem_of. split; [done|]. by apply not_dotenv_is_call.
Qed.

Lemma push_in_tag_calls (path registry repo : string) (will_push : bool)
    (build_args : gmap string string) (l : list string)
    (repository tag : string) (stream : bool) :
  EvPush repository tag stream
    ∈ flat_map (tag_calls path registry repo will_push build_args) l →
  will_push = true ∧ stream = true ∧ tag ∈ l ∧
  repository = image_repo registry repo.
Proof.
  intros (tag' & Htag & Hin)%list_elem_of_In%in_flat_map.
  apply list_elem_of_In in Hin, Htag. unfold tag_calls in Hin.
  destruct will_push.
  - apply elem_of_cons in Hin as [?|Hin]; [done|].
    apply list_elem_of_singleton in Hin. by simplify_eq.
  - apply list_elem_of_singleton in Hin. done.
Qed.

Lemma build_in_tag_calls_full (path registry repo : string) (will_push : bool)
    (build_args : gmap string string) (l : list string)
    (p t : string) (rm pull : bool) (ba : gmap string string) :
  EvBuild p t rm pull ba
    ∈ flat_map (tag_calls path registry repo will_push build_args) l →
  p = path ∧ rm = true ∧ pull = true ∧ ba = build_args ∧
  ∃ tag, tag ∈ l ∧ t = image_ref registry repo tag.
Proof.
  intros (tag & Htag & Hin)%list_elem_of_In%in_flat_map.
  apply list_elem_of_In in Hin, Htag. unfold tag_calls in Hin.
  apply elem_of_cons in Hin as [Heq|Hin].
  - simplify_eq. split_and!; [done..|]. by exists tag.
  - destruct will_push; [|by apply elem_of_nil in Hin].
    by apply list_elem_of_singleton in Hin.
Qed.

Lemma in_cycle_calls (ext : Externals) (path repo : string)
    (tags : gset string) (will_push : bool)
    (build_args : gmap string string) (l : list auth_entry) (e : event) :
  e ∈ flat_map (cycle_calls ext path repo tags will_push build_args) l →
  ∃ auth user pswd,
    auth ∈ l ∧ credentials ext auth = Some (user, pswd) ∧
    (e = EvLogin (Some user) (Some pswd)
                 (remove "https://" (proxyEndpoint auth)) ∨
     e ∈ flat_map (tag_calls path (remove "https://" (proxyEndpoint auth))
                             repo will_push build_args)
                  (elements tags)).
Proof.
  intros (auth & Hauth & Hin)%list_elem_of_In%in_flat_map.
  apply list_elem_of_In in Hin, Hauth. unfold cycle_calls in Hin.
  destruct (credentials ext auth) as [[user pswd]|] eqn:Hcreds;
    [|by apply elem_of_nil in Hin].
  exists auth, user, pswd. split_and!; [done..|].
  apply elem_of_cons in Hin as [->|Hin]; [by left|by right].
Qed.

(** X6.  Nothing is pushed without [--push].  A push call in the trace of
    a run, whatever its mode and outcome, was made under [--push], as a
    stream, for a tag of the tag set and for the resolved repository at
    some registry. *)
Theorem push_only_with_flag (ext : Externals) (a : args.t) (st st' : state)
    (r : outcome unit) (repository tag : string) (stream : bool) :
  main ext a st = (r, st') →
  EvPush repository tag stream ∈ trace st' →
  EvPush repository tag stream ∈ trace st ∨
  (args.will_push a = true ∧ stream = true ∧
   tag ∈ resolve_tags a (environ st') ∧
   ∃ registry, repository = image_repo registry (resolve_repo a (environ st'))).
Proof.
  intros H Hin. destruct (args.is_amazon_mode a) eqn:Hmode.
  - destruct (main_amazon_any ext a st st' r
                (λ env, cycle_calls ext (args.path a) (resolve_repo a env)
                          (resolve_tags a env) (args.will_push a)
                          (resolve_build_args env))
                (λ env auth, follows_amazon_cycle ext a env _ _ _ _ auth)
                H Hmode) as (pre & new & Htrace & Hpre & Hnew).
    destruct (new_call_cases _ _ _ _ (EvPush repository tag stream)
                Htrace Hpre eq_refl Hin) as [?|Hc];
      [by left|right].
    destruct Hnew as [[_ Hp]|(h & resp & _ & Hp & _)];
      pose proof (elem_of_prefix _ _ _ Hc Hp) as He.
    + set_solver.
    + do 3 (apply elem_of_cons in He as [?|He]; [done|]).
      apply in_cycle_calls in He as (auth & user & pswd & _ & _ & [?|He]);
        [done|].
      apply push_in_tag_calls in He as (? & ? & ?%elem_of_elements & ?).
      split_and!; eauto.
  - destruct (main_vanilla_any ext a st st' r H Hmode)
      as (pre & new & Htrace & Hpre & Hp & _).
    destruct (new_call_cases _ _ _ _ (EvPush repository tag stream)
                Htrace Hpre eq_refl Hin) as [?|Hc];
      [by left|right].
    pose proof (elem_of_prefix _ _ _ Hc Hp) as He.
    apply elem_of_cons in He as [?|He]; [done|].
    apply elem_of_app in He as [He|He].
    { unfold login_calls in He. destruct (args.will_login a); set_solver. }
    apply push_in_tag_calls in He as (? & ? & ?%elem_of_elements & ?).
    split_and!; eauto.
Qed.

Lemma push_only_with_flag_witness :
  args.will_push Demo.amazon_args = true ∧
  "latest" ∈ resolve_tags Demo.amazon_args ∅ ∧
  ∃ registry,
    "111.dkr.ecr.us-east-1.amazonaws.com/statsd" = image_repo registry "statsd".
Proof.
  destruct (push_only_with_flag
              (Demo.ext (mk_response [Demo.good_entry])) Demo.amazon_args
              Demo.start
              (main (Demo.ext (mk_response [Demo.good_entry]))
                    Demo.amazon_args Demo.start).2
              (Ok tt) "111.dkr.ecr.us-east-1.amazonaws.com/statsd" "latest"
              true) as [Hold|(Hflag & _ & Htag & Hrepo)].
  - vm_compute. reflexivity.
  - apply list_elem_of_In. vm_compute.
    repeat (first [left; reflexivity | right]).
  - apply elem_of_nil in Hold. destruct Hold.
  - split; [exact Hflag|]. split; [exact Htag|exact Hrepo].
Defined.

(** X7.  Every build of a run, whatever its mode and outcome, is made with
    the context path of the command line, with [rm] and [pull] set, with
    the build arguments of the environment, and for a reference made of a
    registry, the resolved repository and a tag of the tag set; in
    vanilla mode the registry is the resolved one. *)
Theorem builds_well_formed (ext : Externals) (a : args.t) (st st' : state)
    (r : outcome unit) (p t : string) (rm pull : bool)
    (ba : gmap string string) :
  main ext a st = (r, st') →
  EvBuild p t rm pull ba ∈ trace st' →
  EvBuild p t rm pull ba ∈ trace st ∨
  (p = args.path a ∧ rm = true ∧ pull = true ∧
   ba = resolve_build_args (environ st') ∧
   ∃ registry tag,
     tag ∈ resolve_tags a (environ st') ∧
     t = image_ref registry (resolve_repo a (environ st')) tag ∧
     (args.is_amazon_mode a = false →
      registry = resolve_registry a (environ st'))).
Proof.
  intros H Hin. destruct (args.is_amazon_mode a) eqn:Hmode.
  - destruct (main_amazon_any ext a st st' r
                (λ env, cycle_calls ext (args.path a) (resolve_repo a env)
                          (resolve_tags a env) (args.will_push a)
                          (resolve_build_args env))
                (λ env auth, follows_amazon_cycle ext a env _ _ _ _ auth)
                H Hmode) as (pre & new & Htrace & Hpre & Hnew).
    destruct (new_call_cases _ _ _ _ (EvBuild p t rm pull ba)
                Htrace Hpre eq_refl Hin) as [?|Hc];
      [by left|right].
    destruct Hnew as [[_ Hp]|(h & resp & _ & Hp & _)];
      pose proof (elem_of_prefix _ _ _ Hc Hp) as He.
    + set_solver.
    + do 3 (apply elem_of_cons in He as [?|He]; [done|]).
      apply in_cycle_calls in He as (auth & user & pswd & _ & _ & [?|He]);
        [done|].
      apply build_in_tag_calls_full in He
        as (? & ? & ? & ? & tag' & ?%elem_of_elements & ?).
      split_and!; [done..|]. eexists _, tag'. split_and!; [done..|]. done.
  - destruct (main_vanilla_any ext a st st' r H Hmode)
      as (pre & new & Htrace & Hpre & Hp & _).
    destruct (new_call_cases _ _ _ _ (EvBuild p t rm pull ba)
                Htrace Hpre eq_refl Hin) as [?|Hc];
      [by left|right].
    pose proof (elem_of_prefix _ _ _ Hc Hp) as He.
    apply elem_of_cons in He as [?|He]; [done|].
    apply elem_of_app in He as [He|He].
    { unfold login_calls in He. destruct (args.will_login a); set_solver. }
    apply build_in_tag_calls_full in He
      as (? & ? & ? & ? & tag' & ?%elem_of_elements & ?).
    split_and!; [done..|]. eexists _, tag'. split_and!; [done..|]. done.
Qed.

Lemma builds_well_formed_witness :
  "." = args.path Demo.amazon_args ∧
  ∃ registry tag,
    tag ∈ resolve_tags Demo.amazon_args ∅ ∧
    "111.dkr.ecr.us-east-1.amazonaws.com/statsd:latest"
      = image_ref registry (resolve_repo Demo.amazon_args ∅) tag.
Proof.
  destruct (builds_well_formed
              (Demo.ext (mk_response [Demo.good_entry; Demo.bad_entry]))
              Demo.amazon_args Demo.start
              (main (Demo.ext (mk_response [Demo.good_entry; Demo.bad_entry]))
                    Demo.amazon_args Demo.start).2
              (Raise ValueError) "."
              "111.dkr.ecr.us-east-1.amazonaws.com/statsd:latest" true true ∅)
    as [Hold|(Hpath & _ & _ & _ & registry & tag & Htag & Href & _)].
  - vm_compute. reflexivity.
  - apply list_elem_of_In. vm_compute.
    repeat (first [left; reflexivity | right]).
  - apply elem_of_nil in Hold. destruct Hold.
  - split; [exact Hpath|]. exists registry, tag. split; [exact Htag|exact Href].
Defined.

(** X8.  In vanilla mode AWS is never contacted, and the only login a run
    can make is the one with the resolved user, password and registry;
    with [--no-login] it makes none. *)
Theorem vanilla_logins (ext : Externals) (a : args.t) (st st' : state)
    (r : outcome unit) :
  main ext a st = (r, st') →
  args.is_amazon_mode a = false →
  (∀ region, EvBoto3Client region ∈ trace st' →
             EvBoto3Client region ∈ trace st) ∧
  (∀ ids, EvGetAuthorizationToken ids ∈ trace st' →
          EvGetAuthorizationToken ids ∈ trace st) ∧
  (∀ user pswd registry,
      EvLogin user pswd registry ∈ trace st' →
      EvLogin user pswd registry ∈ trace st ∨
      (args.will_login a = true ∧
       user = resolve_user a (environ st') ∧
       pswd = resolve_pswd a (environ st') ∧
       registry = resolve_registry a (environ st'))).
Proof.
  intros H Hmode.
  destruct (main_vanilla_any ext a st st' r H Hmode)
    as (pre & new & Htrace & Hpre & Hp & _).
  assert (∀ e, is_dotenv e = false → e ∈ trace st' →
               e ∈ trace st ∨ e ∈ vanilla_calls a (environ st')) as Hcases.
  { intros e He Hin.
    destruct (new_call_cases _ _ _ _ e Htrace Hpre He Hin) as [?|Hc];
      [by left|right].
    by apply (elem_of_prefix _ _ _ Hc Hp). }
  assert (∀ e, e ∈ vanilla_calls a (environ st') →
               e = EvDockerFromEnv ∨ e ∈ login_calls a (environ st') ∨
               is_build e = true ∨ is_push e = true) as Hkind.
  { intros e He. apply elem_of_cons in He as [?|He]; [by left|].
    apply elem_of_app in He as [?|He]; [by right; left|].
    right. right.
    apply list_elem_of_In, in_flat_map in He as (tag & _ & He).
    apply list_elem_of_In in He. unfold tag_calls in He.
    destruct (args.will_push a); set_solver. }
  split_and!.
  - intros region Hin.
    destruct (Hcases (EvBoto3Client region) eq_refl Hin) as [?|He]; [done|].
    destruct (Hkind _ He) as [?|[Hl|[?|?]]]; try done.
    unfold login_calls in Hl. destruct (args.will_login a); set_solver.
  - intros ids Hin.
    destruct (Hcases (EvGetAuthorizationToken ids) eq_refl Hin) as [?|He];
      [done|].
    destruct (Hkind _ He) as [?|[Hl|[?|?]]]; try done.
    unfold login_calls in Hl. destruct (args.will_login a); set_solver.
  - intros user pswd registry Hin.
    destruct (Hcases (EvLogin user pswd registry) eq_refl Hin) as [?|He];
      [by left|right].
    destruct (Hkind _ He) as [?|[Hl|[?|?]]]; try done.
    unfold login_calls in Hl. destruct (args.will_login a); [|set_solver].
    apply list_elem_of_singleton in Hl. by simplify_eq.
Qed.

Lemma vanilla_logins_witness :
  args.will_login Faulty.push_args = true ∧
  Some "me" = resolve_user Faulty.push_args ∅ ∧
  Some "secret" = resolve_pswd Faulty.push_args ∅ ∧
  "registry.example.org" = resolve_registry Faulty.push_args ∅.
Proof.
  destruct (vanilla_logins
              (Faulty.ext (mk_response []) (λ _, false) None false)
              Faulty.push_args Demo.start
              (main (Faulty.ext (mk_response []) (λ _, false) None false)
                    Faulty.push_args Demo.start).2
              (Raise (ExternalError "unauthorized")))
    as (_ & _ & Hlogin).
  - vm_compute. reflexivity.
  - reflexivity.
  - destruct (Hlogin (Some "me") (Some "secret") "registry.example.org")
      as [Hold|Hnew].
    + apply list_elem_of_In. vm_compute.
      repeat (first [left; reflexivity | right]).
    + apply elem_of_nil in Hold. destruct Hold.
    + exact Hnew.
Defined.

(** X9.  In Amazon mode every login is made with the user and password
    decoded from the token of an entry of an authorization response, at
    the registry of that entry's endpoint: the login flags, the registry
    flag and their environment variables are never used. *)
Theorem amazon_logins (ext : Externals) (a : args.t) (st st' : state)
    (r : outcome unit) (user pswd : option string) (registry : string) :
  main ext a st = (r, st') →
  args.is_amazon_mode a = true →
  EvLogin user pswd registry ∈ trace st' →
  EvLogin user pswd registry ∈ trace st ∨
  ∃ h resp auth u p,
    get_authorization_token ext h (registry_ids_argument a) = Ok resp ∧
    auth ∈ authorizationData resp ∧
    credentials ext auth = Some (u, p) ∧
    user = Some u ∧ pswd = Some p ∧
    registry = remove "https://" (proxyEndpoint auth).
Proof.
  intros H Hmode Hin.
  destruct (main_amazon_any ext a st st' r
              (λ env, cycle_calls ext (args.path a) (resolve_repo a env)
                        (resolve_tags a env) (args.will_push a)
                        (resolve_build_args env))
              (λ env auth, follows_amazon_cycle ext a env _ _ _ _ auth)
              H Hmode) as (pre & new & Htrace & Hpre & Hnew).
  destruct (new_call_cases _ _ _ _ (EvLogin user pswd registry)
              Htrace Hpre eq_refl Hin) as [?|Hc];
    [by left|right].
  destruct Hnew as [[_ Hp]|(h & resp & Htoken & Hp & _)];
    pose proof (elem_of_prefix _ _ _ Hc Hp) as He.
  - set_solver.
  - do 3 (apply elem_of_cons in He as [?|He]; [done|]).
    apply in_cycle_calls in He as (auth & u & p & Hauth & Hcreds & [He|He]).
    + simplify_eq. by exists h, resp, auth, u, p.
    + apply list_elem_of_In, in_flat_map in He as (tag & _ & He).
      apply list_elem_of_In in He. unfold tag_calls in He.
      destruct (args.will_push a); set_solver.
Qed.

Lemma amazon_logins_witness :
  ∃ auth u p,
    credentials (Demo.ext (mk_response [Demo.good_entry])) auth
      = Some (u, p) ∧
    Some "AWS" = Some u ∧ Some "secret" = Some p ∧
    "111.dkr.ecr.us-east-1.amazonaws.com"
      = remove "https://" (proxyEndpoint auth).
Proof.
  destruct (amazon_logins
              (Demo.ext (mk_response [Demo.good_entry])) Demo.amazon_args
              Demo.start
              (main (Demo.ext (mk_response [Demo.good_entry]))
                    Demo.amazon_args Demo.start).2
              (Ok tt) (Some "AWS") (Some "secret")
              "111.dkr.ecr.us-east-1.amazonaws.com")
    as [Hold|(h & resp & auth & u & p & _ & _ & Hcreds & Hu & Hp & Hreg)].
  - vm_compute. reflexivity.
  - reflexivity.
  - apply list_elem_of_In. vm_compute.
    repeat (first [left; reflexivity | right]).
  - apply elem_of_nil in Hold. destruct Hold.
  - exists auth, u, p. split; [exact Hcreds|]. split; [exact Hu|].
    split; [exact Hp|exact Hreg].
Defined.

(** ** Rejected logins *)

Lemma follows_bind_raises {A B} (env : gmap string string) (m : M A)
    (k : A → M B) (l : list event) :
  follows env m l →
  (∀ st r st', m st = (r, st') → ∃ e, r = Raise e) →
  follows env (bind m k) l.
Proof.
  intros Hm Hraise st r st' Henv H. unfold bind in H.
  destruct (m st) as [[x|e] st1] eqn:E.
  - by destruct (Hraise _ _ _ E).
  - injection H as <- <-.
    destruct (Hm st _ _ Henv E) as (new & -> & Hp & _).
    exists new. split_and!; done.
Qed.

Lemma follows_vanilla_rejected (ext : Externals) (a : args.t)
    (env : gmap string string) :
  login_rejected ext → args.will_login a = true →
  follows env
    (vanilla_mode ext a (args.path a) (resolve_repo a env)
                  (resolve_tags a env) (resolve_build_args env))
    (login_calls a env).
Proof.
  intros Hrej Hlogin. unfold vanilla_mode, login_calls. rewrite Hlogin.
  apply follows_get_environ. apply follows_bind_raises.
  - apply (follows_bind env _ _ [] [_]); [apply follows_log|]. intros _.
    apply (follows_bind env _ _ [_] []); [by apply follows_call|]. intros r.
    apply (follows_bind env _ _ [] []); [apply follows_log|]. intros _.
    apply follows_log.
  - intros st r st' H. rewrite bind_log in H. unfold bind at 1 in H.
    rewrite call_run in H.
    destruct (Hrej (trace (extend st [EvLog Info (MAttemptLogin
                 (resolve_registry a env) (resolve_user a env))]))
                (resolve_user a env) (resolve_pswd a env)
                (resolve_registry a env)) as [e He].
    rewrite He in H. injection H as <- _. eauto.
Qed.

Lemma follows_cycle_rejected (ext : Externals) (a : args.t)
    (env : gmap string string) (path repo : string) (tags : gset string)
    (build_args : gmap string string) (auth : auth_entry) :
  login_rejected ext →
  follows env (amazon_cycle ext a path repo tags build_args auth)
          (cycle_login ext auth).
Proof.
  intros Hrej. unfold amazon_cycle, cycle_login, credentials.
  destruct (b64decode ext (authorizationToken auth)) as [creds|];
    [|apply follows_raise].
  destruct (split ":" creds) as [|user [|pswd [|x l]]];
    try apply follows_raise.
  apply follows_bind_raises; [by apply follows_call|].
  intros st r st' H. rewrite call_run in H.
  destruct (Hrej (trace st) (Some user) (Some pswd)
              (remove "https://" (proxyEndpoint auth))) as [e He].
  rewrite He in H. injection H as <- _. eauto.
Qed.

(** X10.  When docker rejects the login, nothing is built and nothing is
    pushed.  In Amazon mode, and in vanilla mode unless [--no-login] was
    given, a run whose logins are all rejected makes no build and no push,
    whatever else happens. *)
Theorem rejected_login_stops_run (ext : Externals) (a : args.t)
    (st st' : state) (r : outcome unit) (e : event) :
  login_rejected ext →
  args.is_amazon_mode a = true ∨ args.will_login a = true →
  main ext a st = (r, st') →
  e ∈ trace st' →
  is_build e = true ∨ is_push e = true →
  e ∈ trace st.
Proof.
  intros Hrej Hlogin H Hin Hkind.
  assert (is_dotenv e = false) as Hdot by by destruct Hkind, e.
  destruct (args.is_amazon_mode a) eqn:Hmode.
  - destruct (main_amazon_any ext a st st' r (λ _, cycle_login ext)
                (λ env auth, follows_cycle_rejected ext a env _ _ _ _ auth
                               Hrej)
                H Hmode) as (pre & new & Htrace & Hpre & Hnew).
    destruct (new_call_cases _ _ _ _ e Htrace Hpre Hdot Hin) as [?|Hc];
      [done|exfalso].
    destruct Hnew as [[_ Hp]|(h & resp & _ & Hp & _)];
      pose proof (elem_of_prefix _ _ _ Hc Hp) as He.
    + destruct Hkind; set_solver.
    + do 3 (apply elem_of_cons in He as [->|He]; [by destruct Hkind|]).
      apply list_elem_of_In, in_flat_map in He as (auth & _ & He).
      apply list_elem_of_In in He. unfold cycle_login in He.
      destruct (credentials ext auth) as [[u p]|]; [|set_solver].
      apply list_elem_of_singleton in He as ->. by destruct Hkind.
  - destruct Hlogin as [?|Hlogin]; [done|].
    destruct (main_calls ext a st st' r (login_calls a)) as
      (pre & new & Htrace & Hpre & Hp & _); [|done|].
    { intros env. unfold mode_part. rewrite Hmode.
      by apply follows_vanilla_rejected. }
    destruct (new_call_cases _ _ _ _ e Htrace Hpre Hdot Hin) as [?|Hc];
      [done|exfalso].
    pose proof (elem_of_prefix _ _ _ Hc Hp) as He.
    apply elem_of_cons in He as [->|He]; [by destruct Hkind|].
    unfold login_calls in He. rewrite Hlogin in He.
    apply list_elem_of_singleton in He as ->. by destruct Hkind.
Qed.

Lemma faulty_login_rejected :
  login_rejected (Faulty.ext (mk_response []) (λ _, false) None false).
Proof. intros h user pswd registry. eexists. reflexivity. Qed.

Lemma rejected_login_stops_run_witness :
  (main (Faulty.ext (mk_response []) (λ _, false) None false)
        Faulty.push_args
        {| environ := ∅;
           trace := [EvBuild "." "old/image:v0" true true ∅] |}).1
    = Raise (ExternalError "unauthorized") ∧
  EvBuild "." "old/image:v0" true true ∅
    ∈ [EvBuild "." "old/image:v0" true true ∅].
Proof.
  split; [vm_compute; reflexivity|].
  apply (rejected_login_stops_run
            (Faulty.ext (mk_response []) (λ _, false) None false)
            Faulty.push_args
            {| environ := ∅;
               trace := [EvBuild "." "old/image:v0" true true ∅] |}
            (main (Faulty.ext (mk_response []) (λ _, false) None false)
                  Faulty.push_args
                  {| environ := ∅;
                     trace := [EvBuild "." "old/image:v0" true true ∅] |}).2
            (Raise (ExternalError "unauthorized"))
            (EvBuild "." "old/image:v0" true true ∅)).
  - exact faulty_login_rejected.
  - right. reflexivity.
  - vm_compute. reflexivity.
  - apply list_elem_of_In. vm_compute. left. reflexivity.
  - left. reflexivity.
Defined.

(** The run of the witness: the login is the last call. *)
Example rejected_login_run :
  main (Faulty.ext (mk_response []) (λ _, false) None false)
       Faulty.push_args Demo.start =
    (Raise (ExternalError "unauthorized"),
     {| environ := ∅;
        trace :=
          [EvDockerFromEnv;
           EvLog Info (MAttemptLogin "registry.example.org" (Some "me"));
           EvLogin (Some "me") (Some "secret") "registry.example.org"] |}).
Proof. vm_compute. reflexivity. Qed.

(** ** An authorization response without entries *)

(** X11.  When the authorization response has no entry, an Amazon run logs
    in nowhere and builds and pushes nothing; with collaborators that
    accept every call it still returns normally. *)
Theorem no_entries_no_work (ext : Externals) (a : args.t) (st : state) :
  args.is_amazon_mode a = true →
  (∀ h ids resp,
      get_authorization_token ext h ids = Ok resp →
      authorizationData resp = []) →
  (∀ r st' e,
      main ext a st = (r, st') →
      e ∈ trace st' →
      is_operation e = true →
      e ∈ trace st ∨ e = EvGetAuthorizationToken (registry_ids_argument a)) ∧
  (collaborators_ok ext → logging_ok ext a →
   ∃ st', main ext a st = (Ok tt, st')).
Proof.
  intros Hmode Hempty. split; [|apply main_total].
  intros r st' e H Hin Hop.
  assert (is_dotenv e = false) as Hdot by by destruct e.
  destruct (main_amazon_any ext a st st' r
              (λ env, cycle_calls ext (args.path a) (resolve_repo a env)
                        (resolve_tags a env) (args.will_push a)
                        (resolve_build_args env))
              (λ env auth, follows_amazon_cycle ext a env _ _ _ _ auth)
              H Hmode) as (pre & new & Htrace & Hpre & Hnew).
  destruct (new_call_cases _ _ _ _ e Htrace Hpre Hdot Hin) as [?|Hc];
    [by left|right].
  destruct Hnew as [[_ Hp]|(h & resp & Htoken & Hp & _)];
    pose proof (elem_of_prefix _ _ _ Hc Hp) as He.
  - do 2 (apply elem_of_cons in He as [->|He]; [done|]).
    by apply list_elem_of_singleton in He.
  - rewrite (Hempty _ _ _ Htoken) in He.
    do 2 (apply elem_of_cons in He as [->|He]; [done|]).
    by apply list_elem_of_singleton in He.
Qed.

Lemma no_entries_no_work_witness :
  (main (Demo.ext (mk_response [])) Demo.amazon_args Demo.start).1 = Ok tt ∧
  (EvGetAuthorizationToken (Some ["111"; "222"]) ∈ trace Demo.start ∨
   EvGetAuthorizationToken (Some ["111"; "222"])
     = EvGetAuthorizationToken (registry_ids_argument Demo.amazon_args)).
Proof.
  destruct (no_entries_no_work (Demo.ext (mk_response [])) Demo.amazon_args
              Demo.start) as [Hnever Hok].
  - reflexivity.
  - intros h ids resp [= <-]. reflexivity.
  - split.
    + destruct (Hok demo_collaborators_ok) as [st' Hst'].
      * right. vm_compute. eauto.
      * by rewrite Hst'.
    + apply (Hnever (Ok tt)
               (main (Demo.ext (mk_response [])) Demo.amazon_args
                     Demo.start).2).
      * vm_compute. reflexivity.
      * apply list_elem_of_In. vm_compute.
        repeat (first [left; reflexivity | right]).
      * reflexivity.
Defined.

(** ** The log level *)

(** X12.  An unknown log level aborts the run before anything is done.
    Unless [--silent] is given, a level name that logbook does not know
    raises a lookup error and the run ends with no call made: the
    variable file is not read and docker is not contacted. *)
Theorem unknown_level_aborts (ext : Externals) (a : args.t) (st : state) :
  args.silent a = false →
  lookup_level ext (upper (args.level a)) = None →
  main ext a st = (Raise LookupError, st).
Proof.
  intros Hsilent Hlevel. unfold main. apply bind_raise.
  unfold setup_logging. by rewrite Hsilent, Hlevel.
Qed.

Lemma unknown_level_aborts_witness :
  main (Demo.ext (mk_response [])) (args.with_level "verbose" args.defaults)
       Demo.start = (Raise LookupError, Demo.start).
Proof.
  apply (unknown_level_aborts (Demo.ext (mk_response []))
           (args.with_level "verbose" args.defaults) Demo.start);
    reflexivity.
Defined.

Lemma main_with_level (ext : Externals) (a : args.t) (l : string)
    (st : state) :
  setup_logging ext (args.with_level l a) st = setup_logging ext a st →
  main ext (args.with_level l a) st = main ext a st.
Proof.
  intros Hsetup. unfold main, bind at 1 3. rewrite Hsetup.
  destruct (setup_logging ext a st) as [[[]|e] st0]; [|done].
  by destruct a.
Qed.

(** X13.  The log level only selects what the handler shows.  The level
    name is compared in upper case, it is not looked at under [--silent],
    and two levels that logbook knows give the same run: the same
    outcome, environment and trace of calls. *)
Theorem level_has_no_effect (ext : Externals) (a : args.t) (l : string)
    (st : state) :
  (upper l = upper (args.level a) →
   main ext (args.with_level l a) st = main ext a st) ∧
  (args.silent a = true →
   main ext (args.with_level l a) st = main ext a st) ∧
  (is_Some (lookup_level ext (upper l)) →
   is_Some (lookup_level ext (upper (args.level a))) →
   main ext (args.with_level l a) st = main ext a st).
Proof.
  split_and!.
  - intros Hl. apply main_with_level. unfold setup_logging. cbn.
    by rewrite Hl.
  - intros Hs. apply main_with_level. unfold setup_logging. cbn.
    by rewrite Hs.
  - intros [n Hl] [m Ha]. apply main_with_level. unfold setup_logging. cbn.
    by rewrite Hl, Ha.
Qed.

Lemma level_has_no_effect_witness :
  main (Demo.ext (mk_response [])) (args.with_level "info" args.defaults)
       Demo.start
    = main (Demo.ext (mk_response [])) args.defaults Demo.start ∧
  main (Demo.ext (mk_response [])) (args.with_level "DEBUG" args.defaults)
       Demo.start
    = main (Demo.ext (mk_response [])) args.defaults Demo.start ∧
  main (Demo.ext (mk_response []))
       (args.with_level "verbose" Faulty.silent_args) Demo.start
    = main (Demo.ext (mk_response [])) Faulty.silent_args Demo.start.
Proof.
  split; [|split].
  - destruct (level_has_no_effect (Demo.ext (mk_response [])) args.defaults
                "info" Demo.start) as (Hcase & _ & _).
    apply Hcase. reflexivity.
  - destruct (level_has_no_effect (Demo.ext (mk_response [])) args.defaults
                "DEBUG" Demo.start) as (_ & _ & Hknown).
    apply Hknown; vm_compute; eauto.
  - destruct (level_has_no_effect (Demo.ext (mk_response []))
                Faulty.silent_args "verbose" Demo.start) as (_ & Hsilent & _).
    apply Hsilent. reflexivity.
Defined.

(** ** The environment *)

Lemma mode_part_extend (ext : Externals) (a : args.t)
    (env : gmap string string) (st st' : state) (r : outcome unit) :
  environ st = env →
  mode_part ext a env st = (r, st') →
  ∃ new, st' = extend st new ∧
         ∀ e, e ∈ new → is_dotenv_call e = false.
Proof.
  intros Henv H.
  assert (∃ new L, st' = extend st new ∧ calls new `prefix_of` L ∧
                   ∀ e, e ∈ L → is_dotenv_call e = false)
    as (new & L & -> & Hp & HL).
  { unfold mode_part in H. destruct (args.is_amazon_mode a).
    - apply (amazon_mode_any ext a _ _ _ _
               (cycle_calls ext (args.path a) (resolve_repo a env)
                  (resolve_tags a env) (args.will_push a)
                  (resolve_build_args env))) in H as (new & -> & Hnew);
        [|intros auth; rewrite Henv; apply follows_amazon_cycle].
      destruct Hnew as [[_ Hp]|(h & resp & cycles & _ & Hc & Hp & _)].
      + eexists new, _. split_and!; [done..|]. intros e He.
        apply elem_of_cons in He as [->|He]; [done|].
        by apply list_elem_of_singleton in He as ->.
      + eexists new, _. split_and!; [done|rewrite Hc; by do 2 apply prefix_cons|].
        intros e He. do 2 (apply elem_of_cons in He as [->|He]; [done|]).
        apply in_cycle_calls in He as (auth & u & p & _ & _ & [->|He]);
          [done|].
        apply list_elem_of_In, in_flat_map in He as (tag & _ & He).
        apply list_elem_of_In in He. unfold tag_calls in He.
        destruct (args.will_push a);
          repeat (apply elem_of_cons in He as [->|He]; [done|]);
          by apply elem_of_nil in He.
    - destruct (follows_vanilla_mode ext a env st r st' Henv H)
        as (new & -> & Hp & _).
      eexists new, _. split_and!; [done..|]. intros e He.
      apply elem_of_app in He as [He|He].
      + unfold login_calls in He. destruct (args.will_login a);
          [by apply list_elem_of_singleton in He as ->|
           by apply elem_of_nil in He].
      + apply list_elem_of_In, in_flat_map in He as (tag & _ & He).
        apply list_elem_of_In in He. unfold tag_calls in He.
        destruct (args.will_push a);
          repeat (apply elem_of_cons in He as [->|He]; [done|]);
          by apply elem_of_nil in He. }
  exists new. split; [done|]. intros e He.
  destruct (is_dotenv_call e) eqn:Hd; [|done].
  assert (e ∈ calls new) as Hc by (apply calls_elem_of; by destruct e).
  by rewrite <- (HL e (elem_of_prefix _ _ _ Hc Hp)).
Qed.

(** X14.  The script never writes the environment itself and reads the
    variable file only when asked.  After a run, whatever its outcome,
    the environment is the one it started with or the one [load_dotenv]
    returned for it; with [--no-env] or an empty file name it is the one
    it started with, and no dotenv call was made. *)
Theorem environment_only_from_dotenv (ext : Externals) (a : args.t)
    (st st' : state) (r : outcome unit) :
  main ext a st = (r, st') →
  (environ st' = environ st ∨
   ∃ h p, load_dotenv ext h p (environ st) = Ok (environ st')) ∧
  (truthy (args.env a) = false →
   environ st' = environ st ∧
   ∀ e, e ∈ trace st' → is_dotenv_call e = true → e ∈ trace st).
Proof.
  intros H.
  destruct (main_skeleton _ _ _ _ _ H)
    as (pre & st1 & Hpre & Hdot & Hoff & Henv & Hrun).
  assert (∃ new, st' = extend st1 new ∧
                 ∀ e, e ∈ new → is_dotenv_call e = false)
    as (new & -> & Hnew).
  { destruct Hrun as [[_ ->]|[[_ ->]|(r2 & st2 & Hmode & Hend)]].
    - exists []. rewrite extend_nil. split; [done|]. by intros e ?%elem_of_nil.
    - eexists. split; [done|]. by intros e ->%list_elem_of_singleton.
    - apply mode_part_extend in Hmode as (new & -> & Hnew); [|done].
      destruct Hend as [(_ & _ & ->)|(_ & _ & ->)]; rewrite !extend_extend.
      + eexists. split; [done|]. intros e He.
        apply elem_of_cons in He as [->|He]; [done|].
        apply elem_of_app in He as [He|He]; [by apply Hnew|].
        by apply list_elem_of_singleton in He as ->.
      + eexists. split; [done|]. intros e He.
        apply elem_of_cons in He as [->|He]; [done|]. by apply Hnew. }
  cbn [extend environ trace]. split; [done|].
  intros Hfalse. rewrite (Hoff Hfalse). split; [done|].
  intros e He Hd. apply elem_of_app in He as [?|He]; [done|].
  by rewrite (Hnew e He) in Hd.
Qed.

Lemma environment_only_from_dotenv_witness :
  environ (main (Demo.ext (mk_response [])) Faulty.push_args
                {| environ := {[ "BUILD_TAG" := "v2" ]};
                   trace := [EvFindDotenv "earlier"] |}).2
    = {[ "BUILD_TAG" := "v2" ]} ∧
  EvFindDotenv "earlier" ∈ [EvFindDotenv "earlier"].
Proof.
  destruct (environment_only_from_dotenv (Demo.ext (mk_response []))
              Faulty.push_args
              {| environ := {[ "BUILD_TAG" := "v2" ]};
                 trace := [EvFindDotenv "earlier"] |}
              (main (Demo.ext (mk_response [])) Faulty.push_args
                    {| environ := {[ "BUILD_TAG" := "v2" ]};
                       trace := [EvFindDotenv "earlier"] |}).2
              (Ok tt)) as [_ Hoff].
  - vm_compute. reflexivity.
  - destruct Hoff as [Henv Hcalls]; [reflexivity|].
    split; [exact Henv|].
    apply (Hcalls (EvFindDotenv "earlier")); [|reflexivity].
    apply list_elem_of_In. vm_compute. left. reflexivity.
Defined.

(** ** Decoding an authorization entry *)

Lemma split_no_sep (sep : ascii) (p : string) :
  count sep p = 0 → split sep p = [p].
Proof.
  induction p as [|c p IH]; [done|]. cbn.
  destruct (Ascii.eqb c sep); [done|]. intros H. by rewrite (IH H).
Qed.

Lemma split_app_sep (sep : ascii) (u p : string) :
  count sep u = 0 → split sep (u +:+ String sep p) = u :: split sep p.
Proof.
  induction u as [|c u IH].
  - intros _. change (split sep (String sep p) = EmptyString :: split sep p).
    cbn. by rewrite Ascii.eqb_refl.
  - change (String c u +:+ String sep p)
      with (String c (u +:+ String sep p)).
    cbn [count split]. destruct (Ascii.eqb c sep); [done|]. intros H.
    by rewrite (IH H).
Qed.

Lemma join_split (sep : ascii) (s : string) : join sep (split sep s) = s.
Proof.
  induction s as [|c s IH]; [done|]. cbn [split].
  pose proof (split_length sep s) as Hlen.
  destruct (Ascii.eqb c sep) eqn:E.
  - apply Ascii.eqb_eq in E as ->.
    destruct (split sep s) as [|p ps]; [done|].
    change (join sep (EmptyString :: p :: ps))
      with (EmptyString +:+ String sep (join sep (p :: ps))).
    by rewrite IH.
  - destruct (split sep s) as [|p ps]; [done|].
    destruct ps as [|q ps]; [by rewrite <- IH|].
    change (join sep (String c p :: q :: ps))
      with (String c (p +:+ String sep (join sep (q :: ps)))).
    by rewrite <- IH.
Qed.

Lemma split_pieces (sep : ascii) (s : string) :
  Forall (λ p, count sep p = 0) (split sep s).
Proof.
  induction s as [|c s IH]; [by repeat constructor|]. cbn [split].
  destruct (Ascii.eqb c sep) eqn:E; [by constructor|].
  destruct (split sep s) as [|p ps]; [repeat constructor; cbn; by rewrite E|].
  apply Forall_cons in IH as [Hp Hps]. constructor; [|done].
  cbn. by rewrite E, Hp.
Qed.

(** X15.  The login of an entry is made with the two sides of the single
    colon of its decoded token.  A token that decodes to [user:pswd],
    with no colon in [user] nor in [pswd], makes the cycle log in as
    [user] with [pswd] and then build; and these are the only tokens that
    give credentials. *)
Theorem token_round_trip (ext : Externals) (a : args.t) (path repo : string)
    (tags : gset string) (build_args : gmap string string)
    (auth : auth_entry) (st : state) (user pswd : string) :
  let registry := remove "https://" (proxyEndpoint auth) in
  (b64decode ext (authorizationToken auth) = Some (user +:+ ":" +:+ pswd) →
   count ":" user = 0 → count ":" pswd = 0 →
   credentials ext auth = Some (user, pswd) ∧
   amazon_cycle ext a path repo tags build_args auth st =
     (call (EvLogin (Some user) (Some pswd) registry)
           (λ h, docker_login ext h (Some user) (Some pswd) registry) >>
      _build ext path registry repo tags (args.will_push a) build_args) st) ∧
  (credentials ext auth = Some (user, pswd) →
   b64decode ext (authorizationToken auth) = Some (user +:+ ":" +:+ pswd) ∧
   count ":" user = 0 ∧ count ":" pswd = 0).
Proof.
  intros registry. split.
  - intros Hdec Hu Hp. unfold credentials, amazon_cycle. rewrite Hdec.
    change (user +:+ ":" +:+ pswd) with (user +:+ String ":" pswd).
    by rewrite (split_app_sep _ _ _ Hu), (split_no_sep _ _ Hp).
  - unfold credentials.
    destruct (b64decode ext (authorizationToken auth)) as [creds|]; [|done].
    pose proof (join_split ":" creds) as Hjoin.
    pose proof (split_pieces ":" creds) as Hpieces.
    destruct (split ":" creds) as [|u [|p [|x l]]]; try done.
    intros [= -> ->]. cbn [join] in Hjoin.
    apply Forall_cons in Hpieces as [Hu Hp].
    apply Forall_cons in Hp as [Hp _]. by rewrite <- Hjoin.
Qed.

Lemma token_round_trip_witness :
  credentials (Demo.ext (mk_response [])) Demo.good_entry
    = Some ("AWS", "secret") ∧
  count ":" "AWS" = 0 ∧ count ":" "secret" = 0.
Proof.
  destruct (token_round_trip (Demo.ext (mk_response [])) Demo.amazon_args
              "." "statsd" {[ "latest" ]} ∅ Demo.good_entry Demo.start
              "AWS" "secret") as [Hto Hfrom].
  destruct Hto as [Hcreds _]; [reflexivity..|].
  split; [exact Hcreds|].
  destruct (Hfrom Hcreds) as (_ & Hu & Hp). split; [exact Hu|exact Hp].
Defined.

(** ** The registry of an authorization entry *)

Lemma remove_go_skip (old x s : string) :
  remove_go old (String.length x) (x +:+ s) = remove_go old 0 s.
Proof. induction x as [|c x IH]; [by destruct s|]. cbn. apply IH. Qed.

Lemma remove_prefix (old s : string) :
  remove old (old +:+ s) = remove old s.
Proof.
  destruct old as [|c old]; [done|].
  unfold remove.
  change (String c old +:+ s) with (String c (old +:+ s)) at 1.
  cbn [remove_go].
  change (String c (old +:+ s)) with (String c old +:+ s).
  rewrite startswith_app.
  change (String.length (String c old) - 1) with (String.length old - 0).
  rewrite Nat.sub_0_r. apply remove_go_skip.
Qed.

Lemma remove_absent (old s : string) : ¬ occurs old s → remove old s = s.
Proof.
  destruct old as [|c old]; [done|]. unfold remove.
  induction s as [|d s IH]; [done|]. intros Hno. cbn [remove_go].
  destruct (startswith (String d s) (String c old)) eqn:E.
  - destruct Hno. exists EmptyString.
    apply startswith_split in E. eauto.
  - rewrite IH; [done|]. intros (before & after & ->).
    apply Hno. by exists (String d before), after.
Qed.

(** X16.  The registry of an entry is its endpoint without the [https://]
    scheme.  For an endpoint [https://host] the cycle logs in at [host]
    and builds references under [host]; an endpoint that does not hold
    [https://] at all, such as [host] alone, is used as it is. *)
Theorem registry_of_endpoint (ext : Externals) (a : args.t)
    (path repo : string) (tags : gset string)
    (build_args : gmap string string) (auth : auth_entry) (st : state)
    (host user pswd : string) :
  ¬ occurs "https://" host →
  proxyEndpoint auth = "https://" +:+ host ∨ proxyEndpoint auth = host →
  credentials ext auth = Some (user, pswd) →
  remove "https://" (proxyEndpoint auth) = host ∧
  amazon_cycle ext a path repo tags build_args auth st =
    (call (EvLogin (Some user) (Some pswd) host)
          (λ h, docker_login ext h (Some user) (Some pswd) host) >>
     _build ext path host repo tags (args.will_push a) build_args) st.
Proof.
  intros Hno Hend Hcreds.
  assert (remove "https://" (proxyEndpoint auth) = host) as Hreg.
  { destruct Hend as [->| ->]; [rewrite remove_prefix|];
      by apply remove_absent. }
  split; [done|]. unfold amazon_cycle. rewrite Hreg.
  unfold credentials in Hcreds.
  destruct (b64decode ext (authorizationToken auth)) as [creds|]; [|done].
  destruct (split ":" creds) as [|u [|p [|x l]]]; try done.
  by injection Hcreds as -> ->.
Qed.

Lemma occurs_contains (old s : string) :
  occurs old s → contains s old = true.
Proof.
  intros (before & after & ->). induction before as [|c before IH].
  - change (EmptyString +:+ old +:+ after) with (old +:+ after).
    destruct (old +:+ after) eqn:E; cbn [contains];
      rewrite <- E, startswith_app; done.
  - change (String c before +:+ old +:+ after)
      with (String c (before +:+ old +:+ after)).
    cbn [contains]. rewrite IH. apply orb_true_r.
Qed.

Lemma registry_of_endpoint_witness :
  remove "https://" (proxyEndpoint Demo.good_entry)
    = "111.dkr.ecr.us-east-1.amazonaws.com".
Proof.
  apply (registry_of_endpoint (Demo.ext (mk_response [])) Demo.amazon_args
           "." "statsd" {[ "latest" ]} ∅ Demo.good_entry Demo.start
           "111.dkr.ecr.us-east-1.amazonaws.com" "AWS" "secret").
  - intros Hocc. apply occurs_contains in Hocc. vm_compute in Hocc.
    discriminate Hocc.
  - left. reflexivity.
  - reflexivity.
Defined.

(** ** The build arguments under changes of the environment *)

(** X17.  The build arguments follow the environment variable by variable.
    Setting [BUILD_ARG_k] sets the build argument [k] and leaves the
    others, unsetting it removes [k], and setting or unsetting any other
    variable changes nothing. *)
Theorem build_args_follow_environment (environ : gmap string string)
    (name v : string) :
  resolve_build_args (<[name := v]> environ) =
    (if startswith name "BUILD_ARG_"
     then <[slice_from 10 name := v]> (resolve_build_args environ)
     else resolve_build_args environ) ∧
  resolve_build_args (delete name environ) =
    (if startswith name "BUILD_ARG_"
     then delete (slice_from 10 name) (resolve_build_args environ)
     else resolve_build_args environ).
Proof.
  split; [apply resolve_build_args_insert|].
  apply map_eq. intros k. rewrite resolve_build_args_lookup.
  destruct (startswith name "BUILD_ARG_") eqn:E.
  - apply (startswith_split "BUILD_ARG_") in E. cbn [String.length] in E.
    destruct (decide (slice_from 10 name = k)) as [<-|Hne].
    + by rewrite <- E, !lookup_delete_eq.
    + rewrite !lookup_delete_ne, ?resolve_build_args_lookup; [done..|].
      intros ->. apply Hne.
      change 10 with (String.length "BUILD_ARG_"). apply slice_from_app.
  - rewrite lookup_delete_ne, ?resolve_build_args_lookup; [done|].
    intros ->. by rewrite startswith_app in E.
Qed.

(** ** One build per tag *)

Lemma image_ref_inj (registry repo tag tag' : string) :
  image_ref registry repo tag = image_ref registry repo tag' → tag = tag'.
Proof.
  unfold image_ref.
  assert (∀ x y z : string, x +:+ y = x +:+ z → y = z) as Hcancel.
  { intros x y z. induction x as [|c x IH]; [done|].
    intros [= H]. by apply IH. }
  intros H. do 3 apply Hcancel in H. by injection H.
Qed.

Lemma count_tag_calls (path registry repo : string) (will_push : bool)
    (build_args : gmap string string) (l : list string) :
  length (List.filter is_build
            (flat_map (tag_calls path registry repo will_push build_args) l))
    = length l ∧
  length (List.filter is_push
            (flat_map (tag_calls path registry repo will_push build_args) l))
    = (if will_push then length l else 0).
Proof.
  induction l as [|tag l [IHb IHp]]; [by destruct will_push|].
  cbn [flat_map]. rewrite !List.filter_app, !length_app, IHb, IHp.
  by destruct will_push.
Qed.

Lemma NoDup_tag_calls (path registry repo : string) (will_push : bool)
    (build_args : gmap string string) (l : list string) :
  NoDup l →
  NoDup (flat_map (tag_calls path registry repo will_push build_args) l).
Proof.
  induction 1 as [|tag l Hnot Hnd IH]; [constructor|].
  cbn [flat_map]. apply NoDup_app. split_and!; [|  |done].
  - unfold tag_calls. destruct will_push; repeat constructor; set_solver.
  - intros e He Hin. unfold tag_calls in He.
    apply elem_of_cons in He as [->|He].
    + apply build_in_tag_calls_full in Hin as (_ & _ & _ & _ & tag' & Htag' & Heq).
      apply image_ref_inj in Heq as ->. done.
    + destruct will_push; [|by apply elem_of_nil in He].
      apply list_elem_of_singleton in He as ->.
      by apply push_in_tag_calls in Hin as (_ & _ & ? & _).
Qed.

(** X3.  A [_build] that returns has built every tag exactly once: it made
    as many build calls as the tag set has tags, as many push calls under
    [will_push] and none otherwise, and no call twice. *)
Theorem build_once_per_tag (ext : Externals) (path registry repo : string)
    (tags : gset string) (will_push : bool)
    (build_args : gmap string string) (st st' : state) :
  _build ext path registry repo tags will_push build_args st = (Ok tt, st') →
  ∃ new,
    st' = extend st new ∧
    length (List.filter is_build (calls new)) = size tags ∧
    length (List.filter is_push (calls new))
      = (if will_push then size tags else 0) ∧
    NoDup (calls new).
Proof.
  unfold _build. intros H.
  apply build_loop_inv in H as (new & -> & Hcalls & _).
  exists new. rewrite Hcalls.
  destruct (count_tag_calls path registry repo will_push build_args
              (elements tags)) as [Hb Hp].
  split_and!; [done|exact Hb|exact Hp|].
  apply NoDup_tag_calls, NoDup_elements.
Qed.

Lemma build_once_per_tag_witness :
  ∃ new,
    (_build (Demo.ext (mk_response [])) "." "registry.example.org" "statsd"
            {[ "v1"; "v2" ]} true ∅ Demo.start).2 = extend Demo.start new ∧
    length (List.filter is_build (calls new))
      = size ({[ "v1"; "v2" ]} : gset string) ∧
    NoDup (calls new).
Proof.
  destruct (build_once_per_tag (Demo.ext (mk_response [])) "."
              "registry.example.org" "statsd" {[ "v1"; "v2" ]} true ∅
              Demo.start
              (_build (Demo.ext (mk_response [])) "." "registry.example.org"
                      "statsd" {[ "v1"; "v2" ]} true ∅ Demo.start).2)
    as (new & Hst & Hb & _ & Hnd).
  { vm_compute. reflexivity. }
  exists new. split; [exact Hst|]. split; [exact Hb|exact Hnd].
Defined.

(** ** The variables of the environment that matter *)

Lemma oblivious_ret {A} (x : A) : oblivious (ret x).
Proof. done. Qed.

Lemma oblivious_raise {A} (e : exn) : oblivious (raise e : M A).
Proof. done. Qed.

Lemma oblivious_call {A} (e : event) (answer : list event → outcome A) :
  oblivious (call e answer).
Proof. done. Qed.

Lemma oblivious_log (lvl : level) (m : message) : oblivious (log lvl m).
Proof. done. Qed.

Lemma oblivious_bind {A B} (m : M A) (k : A → M B) :
  oblivious m → (∀ x, oblivious (k x)) → oblivious (bind m k).
Proof.
  intros Hm Hk env st. unfold bind. rewrite Hm.
  destruct (m st) as [[x|e] st1]; cbn [fst snd]; [apply Hk|done].
Qed.

Lemma oblivious_for_each {A} (l : list A) (body : A → M unit) :
  (∀ x, oblivious (body x)) → oblivious (for_each l body).
Proof.
  intros Hbody. induction l as [|x l IH]; [done|].
  cbn [for_each]. by apply oblivious_bind.
Qed.

Lemma oblivious_build (ext : Externals) (path registry repo : string)
    (tags : gset string) (will_push : bool)
    (build_args : gmap string string) :
  oblivious (_build ext path registry repo tags will_push build_args).
Proof.
  unfold _build. apply oblivious_for_each. intros tag. unfold build_tag.
  apply oblivious_bind; [apply oblivious_log|]. intros _.
  apply oblivious_bind; [apply oblivious_call|]. intros _.
  apply oblivious_bind; [apply oblivious_log|]. intros _.
  destruct will_push; [|apply oblivious_ret].
  apply oblivious_bind; [apply oblivious_log|]. intros _.
  apply oblivious_bind; [|intros _; apply oblivious_log].
  unfold push_stream. apply oblivious_bind; [apply oblivious_call|].
  intros stream. apply oblivious_bind.
  - apply oblivious_for_each. intros line. apply oblivious_log.
  - intros _. destruct stream.2; [apply oblivious_raise|apply oblivious_ret].
Qed.

Lemma oblivious_amazon_mode (ext : Externals) (a : args.t)
    (path repo : string) (tags : gset string)
    (build_args : gmap string string) :
  oblivious (amazon_mode ext a path repo tags build_args).
Proof.
  unfold amazon_mode.
  apply oblivious_bind; [apply oblivious_log|]. intros _.
  apply oblivious_bind; [apply oblivious_log|]. intros _.
  apply oblivious_bind; [apply oblivious_call|]. intros _.
  apply oblivious_bind; [apply oblivious_call|]. intros resp.
  apply oblivious_bind; [apply oblivious_log|]. intros _.
  apply oblivious_for_each. intros auth. unfold amazon_cycle.
  destruct (b64decode ext (authorizationToken auth)) as [creds|];
    [|apply oblivious_raise].
  destruct (split ":" creds) as [|user [|pswd [|x l]]];
    try apply oblivious_raise.
  apply oblivious_bind; [apply oblivious_call|]. intros _.
  apply oblivious_build.
Qed.

Lemma resolve_build_args_agree (env1 env2 : gmap string string) :
  (∀ name, startswith name "BUILD_ARG_" = true → env1 !! name = env2 !! name) →
  resolve_build_args env1 = resolve_build_args env2.
Proof.
  intros H. apply map_eq. intros k. rewrite !resolve_build_args_lookup.
  apply H, startswith_app.
Qed.

Lemma bind_with_environ {A B} (m : M A) (k : A → M B)
    (env : gmap string string) (st : state) :
  m (with_environ env st) = ((m st).1, with_environ env (m st).2) →
  (∀ x st1, m st = (Ok x, st1) →
            k x (with_environ env st1)
              = ((k x st1).1, with_environ env (k x st1).2)) →
  bind m k (with_environ env st)
    = ((bind m k st).1, with_environ env (bind m k st).2).
Proof.
  intros Hm Hk. unfold bind. rewrite Hm.
  destruct (m st) as [[x|e] st1]; cbn [fst snd]; [by apply Hk|done].
Qed.

Lemma vanilla_mode_with_environ (ext : Externals) (a : args.t)
    (path repo : string) (tags : gset string)
    (build_args : gmap string string) (env : gmap string string)
    (st : state) :
  resolve_registry a env = resolve_registry a (environ st) →
  resolve_user a env = resolve_user a (environ st) →
  resolve_pswd a env = resolve_pswd a (environ st) →
  vanilla_mode ext a path repo tags build_args (with_environ env st) =
    ((vanilla_mode ext a path repo tags build_args st).1,
     with_environ env (vanilla_mode ext a path repo tags build_args st).2).
Proof.
  intros Hreg Huser Hpswd. unfold vanilla_mode.
  rewrite !bind_get_environ. cbn [with_environ environ].
  rewrite Hreg, Huser, Hpswd.
  apply oblivious_bind; [|intros _; apply oblivious_build].
  destruct (args.will_login a); [|apply oblivious_ret].
  apply oblivious_bind; [apply oblivious_log|]. intros _.
  apply oblivious_bind; [apply oblivious_call|]. intros r.
  apply oblivious_bind; [apply oblivious_log|]. intros _.
  apply oblivious_log.
Qed.

(** The run in another environment, with the same collaborators. *)
Lemma main_with_environ (ext : Externals) (a : args.t)
    (st : state) (env : gmap string string) :
  truthy (args.env a) = false →
  (∀ name, build_variable name → env !! name = environ st !! name) →
  main ext a (with_environ env st) =
    ((main ext a st).1, with_environ env (main ext a st).2).
Proof.
  intros Hoff Hagree.
  assert (load_environment ext a = ret tt) as Hload.
  { unfold load_environment. destruct (args.env a) as [name|]; [|done].
    cbn in Hoff. by rewrite Hoff. }
  assert (∀ name, name ∈ ["BUILD_REPOSITORY"; "BUILD_TAG"; "BUILD_REGISTRY";
                          "BUILD_USER"; "BUILD_PASSWORD"] →
                  env !! name = environ st !! name) as Hnamed.
  { intros name Hname. apply Hagree. by left. }
  assert (resolve_repo a env = resolve_repo a (environ st)) as Hrepo.
  { unfold resolve_repo, get_default. rewrite Hnamed; [done|set_solver]. }
  assert (resolve_tags a env = resolve_tags a (environ st)) as Htags.
  { unfold resolve_tags, get_default. rewrite Hnamed; [done|set_solver]. }
  assert (resolve_registry a env = resolve_registry a (environ st)) as Hreg.
  { unfold resolve_registry, get_default. rewrite Hnamed; [done|set_solver]. }
  assert (resolve_user a env = resolve_user a (environ st)) as Huser.
  { unfold resolve_user. rewrite Hnamed; [done|set_solver]. }
  assert (resolve_pswd a env = resolve_pswd a (environ st)) as Hpswd.
  { unfold resolve_pswd. rewrite Hnamed; [done|set_solver]. }
  assert (resolve_build_args env = resolve_build_args (environ st)) as Hargs.
  { apply resolve_build_args_agree. intros name Hname. apply Hagree.
    by right. }
  unfold main. apply bind_with_environ.
  { unfold setup_logging. destruct (args.silent a); [done|].
    by destruct (lookup_level ext _). }
  intros [] st0 ->%setup_logging_inv.
  rewrite Hload. apply bind_with_environ; [done|].
  intros [] st0 [= <-].
  unfold run_build. apply bind_with_environ; [apply oblivious_call|].
  intros [] st1 Hdocker. rewrite call_run in Hdocker.
  injection Hdocker as _ <-.
  rewrite !bind_get_environ. cbn [with_environ extend environ].
  rewrite Hrepo, Htags, Hargs.
  apply bind_with_environ; [|intros; apply oblivious_log].
  destruct (args.is_amazon_mode a).
  - apply oblivious_amazon_mode.
  - by apply vanilla_mode_with_environ.
Qed.

(** Collaborators that answer alike give the same run. *)
Lemma bind_alike {A B} (m1 m2 : M A) (k1 k2 : A → M B) (st : state) :
  m1 st = m2 st → (∀ x st1, k1 x st1 = k2 x st1) →
  bind m1 k1 st = bind m2 k2 st.
Proof.
  intros Hm Hk. unfold bind. rewrite Hm.
  destruct (m2 st) as [[x|e] st1]; [apply Hk|done].
Qed.

Lemma call_alike {A} (e : event) (answer1 answer2 : list event → outcome A)
    (st : state) :
  (∀ h, answer1 h = answer2 h) → call e answer1 st = call e answer2 st.
Proof. intros H. unfold call. by rewrite H. Qed.

Lemma for_each_alike {A} (l : list A) (body1 body2 : A → M unit)
    (st : state) :
  (∀ x st1, body1 x st1 = body2 x st1) →
  for_each l body1 st = for_each l body2 st.
Proof.
  intros Hbody. revert st. induction l as [|x l IH]; intros st; [done|].
  cbn [for_each]. apply bind_alike; [apply Hbody|]. intros _ st1. apply IH.
Qed.

Lemma build_alike (ext1 ext2 : Externals) (path registry repo : string)
    (tags : gset string) (will_push : bool)
    (build_args : gmap string string) (st : state) :
  answers_alike ext1 ext2 →
  _build ext1 path registry repo tags will_push build_args st =
    _build ext2 path registry repo tags will_push build_args st.
Proof.
  intros (_ & _ & _ & _ & _ & _ & Hbuild & Hpush).
  unfold _build. apply for_each_alike. intros tag st1. unfold build_tag.
  apply bind_alike; [done|]. intros _ st2.
  apply bind_alike; [by apply call_alike|]. intros _ st3.
  apply bind_alike; [done|]. intros _ st4.
  destruct will_push; [|done].
  apply bind_alike; [done|]. intros _ st5.
  apply bind_alike; [|done].
  unfold push_stream. apply bind_alike; [|done].
  apply call_alike. intros h. by rewrite Hpush.
Qed.

Lemma main_alike (ext1 ext2 : Externals) (a : args.t) (st : state) :
  truthy (args.env a) = false →
  answers_alike ext1 ext2 →
  main ext1 a st = main ext2 a st.
Proof.
  intros Hoff Halike.
  pose proof Halike
    as (Hlevel & Hdecode & Hdocker & Hclient & Htoken & Hlogin & _).
  unfold main. apply bind_alike.
  { unfold setup_logging. by rewrite Hlevel. }
  intros _ st0. apply bind_alike.
  { unfold load_environment. destruct (args.env a) as [name|]; [|done].
    cbn in Hoff. by rewrite Hoff. }
  intros _ st1. unfold run_build.
  apply bind_alike; [by apply call_alike|]. intros _ st2.
  apply bind_alike; [done|]. intros env st3.
  apply bind_alike; [|done].
  destruct (args.is_amazon_mode a).
  - unfold amazon_mode.
    apply bind_alike; [done|]. intros _ st4.
    apply bind_alike; [done|]. intros _ st5.
    apply bind_alike; [by apply call_alike|]. intros _ st6.
    apply bind_alike; [by apply call_alike|]. intros resp st7.
    apply bind_alike; [done|]. intros _ st8.
    apply for_each_alike. intros auth st9. unfold amazon_cycle.
    rewrite Hdecode.
    destruct (b64decode ext2 (authorizationToken auth)) as [creds|]; [|done].
    destruct (split ":" creds) as [|user [|pswd [|x l]]]; try done.
    apply bind_alike; [by apply call_alike|]. intros _ st10.
    by apply build_alike.
  - unfold vanilla_mode.
    apply bind_alike; [done|]. intros env' st4.
    apply bind_alike; [|intros _ st5; by apply build_alike].
    destruct (args.will_login a); [|done].
    apply bind_alike; [done|]. intros _ st5.
    apply bind_alike; [by apply call_alike|]. done.
Qed.

(** X18.  The script itself reads only the [BUILD_] variables of the
    environment.  Docker and boto3 are configured from other variables
    ([DOCKER_HOST], [AWS_ACCESS_KEY_ID], ...), so the collaborators of two
    runs in different environments are two sets of collaborators, [ext1]
    and [ext2].  With no variable file, when the two answer every call
    alike and the environments agree on [BUILD_REPOSITORY], [BUILD_TAG],
    [BUILD_REGISTRY], [BUILD_USER], [BUILD_PASSWORD] and every
    [BUILD_ARG_] variable, the two runs have the same outcome and make the
    same calls with the same arguments: whatever else the environments
    hold reaches a run only through the answers of its collaborators. *)
Theorem only_build_variables_matter (ext1 ext2 : Externals) (a : args.t)
    (st : state) (env : gmap string string) :
  truthy (args.env a) = false →
  answers_alike ext1 ext2 →
  (∀ name, build_variable name → env !! name = environ st !! name) →
  main ext2 a (with_environ env st) =
    ((main ext1 a st).1, with_environ env (main ext1 a st).2).
Proof.
  intros Hoff Halike Hagree.
  rewrite <- (main_alike ext1 ext2 a (with_environ env st) Hoff Halike).
  by apply main_with_environ.
Qed.

(** Two shells with the same AWS credentials; the second one also sets
    [LANG]. *)
Lemma configured_alike (resp : response) :
  answers_alike (Demo.configured Demo.aws_environ resp)
                (Demo.configured (<[ "LANG" := "C" ]> Demo.aws_environ) resp).
Proof. repeat split. Qed.

Lemma only_build_variables_matter_witness :
  main (Demo.configured (<[ "LANG" := "C" ]> Demo.aws_environ)
                        (mk_response []))
       Faulty.push_args
       (with_environ (<[ "LANG" := "C" ]> Demo.aws_environ)
                     (with_environ Demo.aws_environ Demo.start)) =
    ((main (Demo.configured Demo.aws_environ (mk_response []))
           Faulty.push_args (with_environ Demo.aws_environ Demo.start)).1,
     with_environ (<[ "LANG" := "C" ]> Demo.aws_environ)
       (main (Demo.configured Demo.aws_environ (mk_response []))
             Faulty.push_args (with_environ Demo.aws_environ Demo.start)).2).
Proof.
  apply (only_build_variables_matter
           (Demo.configured Demo.aws_environ (mk_response []))
           (Demo.configured (<[ "LANG" := "C" ]> Demo.aws_environ)
                            (mk_response []))
           Faulty.push_args (with_environ Demo.aws_environ Demo.start)
           (<[ "LANG" := "C" ]> Demo.aws_environ)).
  - reflexivity.
  - apply configured_alike.
  - intros name Hname. cbn [with_environ environ].
    apply lookup_insert_ne. intros <-.
    destruct Hname as [Hname|Hname].
    + repeat (apply elem_of_cons in Hname as [Hname|Hname];
              [discriminate Hname|]).
      apply elem_of_nil in Hname. destruct Hname.
    + vm_compute in Hname. discriminate Hname.
Defined.

(** The hypothesis on the answers is needed: the AWS credentials of the
    environment reach an Amazon run through boto3, although the script
    never reads them. *)
Example credentials_reach_the_run :
  (main (Demo.configured ∅ (mk_response [Demo.good_entry]))
        Demo.amazon_args Demo.start).1
    = Raise (ExternalError "NoCredentialsError") ∧
  (main (Demo.configured Demo.aws_environ (mk_response [Demo.good_entry]))
        Demo.amazon_args (with_environ Demo.aws_environ Demo.start)).1
    = Ok tt.
Proof. split; vm_compute; reflexivity. Qed.
